(* ===== verification/_CoqProject ===== *)
-Q . S2P
Prelude.v
PyStr.v
Utf8.v
Labels.v
Kind.v
Infer.v
Body.v
Tracker.v
Csv.v
TextIO.v
Main.v
Args.v
GitHubSim.v
