(* ===== verification/Prelude.v ===== *)
(** * A verification development of [kanban/create_issues.py] (BaleSupply)

    ** The program
    The program is one Python script, [src/kanban/create_issues.py].  It
    reads a CSV seed file of issues and, for every row with a non-empty
    title (up to [--limit] rows when the limit is positive), it:
    - normalises the label cell ([normalize_labels], lines 14-23);
    - classifies the row into a kind ([kind_from_labels], lines 54-62) and
      puts that kind first among the labels when it is missing
      ([ensure_primary_label], lines 64-68);
    - infers a process tag and a role tag from the title and the labels
      ([infer_dfd], [infer_role], lines 25-52);
    - renders one of four Markdown templates ([build_body], lines 70-163);
    - builds the [gh issue create] command line (lines 201-207) and either
      prints it (dry run) or runs it through [run] (lines 4-12).
    A failing [gh] call aborts the run with [SystemExit(returncode)]; a
    run that does not fail prints "OK: created N issues in REPO".  The
    repository is [--repo], or asked of [gh repo view] when that is blank.

    ** Files, in dependency order
    - [Prelude] (this file): strings as lists of code points ([ustr]),
      literals [⟪ "..." ⟫] decoded from UTF-8 as Python decodes its source
      (kept opaque, so that comparing literals never unfolds them), the
      scope [py_scope], the tactics [py_bool] and [decide_vm], the hint
      databases [py] and [py_rw], generic list lemmas, and the reading
      back of 7-bit literals ([lit_ascii7]).
    - [PyStr]: the built-ins the script calls, modelled from the Python
      language reference: [str.strip] (CPython's whitespace set),
      [str.lower] (ASCII, Latin-1 and the two special cases U+0130 and
      U+212A), [str.split(",")], [sep.join], [in] on strings and on
      lists, truth of a string.  Laws: strip idempotent and its shape,
      substring search reflected to list concatenation, split/join round
      trips, lower idempotent.
    - [Utf8] (Module [Utf8]): CPython's strict UTF-8 decoder, the codec of
      [open(..., encoding='utf-8')] (line 180): one character of
      [utf8_decode] in [stringlib/codecs.h] ([utf8_step], with the tests
      in the order of the C code) and the driver [unicode_decode_utf8] in
      its final and incremental modes ([decode_loop]); the error by its
      reason.  For the proofs: the encoder [utf8_encode].
    - [Labels] (Module [Labels]): [normalize_labels] and its loop body
      [normalize_step].
    - [Kind] (Module [Kind]): [kind_from_labels] over a [gset] (the
      Python [set]), [ensure_primary_label], and the composition
      [primary_labels] of lines 191-195; the abstract kind [issue_kind].
    - [Infer] (Module [Infer]): the two if-chains, and the specification
      as ordered rule lists evaluated by [first_match].
    - [Body] (Module [Body]): the f-strings as their literal segments
      ([feature_t0] ... [bug_t1]) around the interpolated values, the
      dispatch [build_body], and a parser [parse_body] of rendered bodies.
    - [Tracker]: the [gh] CLI as the typeclass [Tracker] (a state and an
      [exec] on argument vectors, whose return codes lie in -255..255);
      the state-and-exit monad [M] over a [world] (tracker state and the
      log of stdout, stderr and process events); [run]; [gh_repo_from_cwd];
      the process status [exit_status] ([SystemExit] keeps 8 bits, an
      uncaught exception gives 1).
    - [Csv] (Module [Csv]): the seed file as the script reads it (lines
      180-183): the lines of a file opened with [newline=''] ([py_lines]),
      the character automaton of CPython's [_csv.c] ([process_char], with
      its states, field buffer and [field_size_limit] of 131072), one
      [next(reader)] ([iternext]) and the iteration until
      [StopIteration] ([reader_rows], [read_csv]), [csv.DictReader]
      ([make_dict], [dict_reader]), [r.get] ([py_get]), and [read_seed],
      the rows or the exception ([OSError], [_csv.Error]).  For the
      proofs: the file as one stream of reader inputs ([tokenize],
      [scan]) and a reference writer in the manner of [csv.writer]
      ([write_rows]).
    - [TextIO] (Module [TextIO]): the seed file as bytes read through a
      [TextIOWrapper] (lines 180-181), after [Lib/_pyio.py]: chunks of
      8192 bytes ([read_chunk]), the newline decoder that holds a final
      CR back ([nl_decode]), [readline()] and its universal newline
      search ([readline_loop], [find_line_ending]), the iteration of the
      file ([lines_of]), and [read_seed_file], which gives the lines to
      the CSV reader one at a time, so that the first of a CSV error and
      a decoding error is the one raised.
    - [Main] (Module [Main]): the [args] record, row selection
      [selected], the command [issue_cmd], the loop [create_all], [main]
      and [script] (the process seen from outside: status, log, final
      tracker state).  The file system is a function from a path to the
      bytes of the file, [None] when it cannot be opened; [main] reads it
      with [TextIO.read_seed_file].
    - [Args] (Module [Args]): [ap.parse_args()] (lines 169-175) after
      CPython's [argparse]: how each argument string is read
      ([parse_optional], abbreviations and [--opt=value] included), the
      consuming loop ([parse_loop]), [int] for [--limit] ([py_int]), the
      values [_get_values] stores ([get_value]: the first "--" of an
      option's strings is dropped, which leaves the empty list), the
      namespace ([namespace]) and the rest of [main] on it ([main_ns]:
      on strings it is [main]; an empty list raises where the script
      first uses it), the usage, help and error output, and
      [script_argv]: the script from its argument vector.
    - [GitHubSim] (Module [GitHubSim]): a simulated GitHub, an instance of
      [Tracker] whose state is a repository (its name, labels,
      milestones, projects and issues); it parses [gh issue create],
      checks it as [gh] does before creating anything ([reject_reason]:
      the repository, then every label, the project and the milestone
      must exist, names compared ignoring case), and records the issue
      or answers status 1 with [gh]'s message; and [issue_of_row], the
      abstract issue a row stands for.

    ** Theorems
    - End to end ([GitHubSim.script_creates_issues]): against the
      simulated tracker a real run creates exactly the abstract issues of
      the selected rows, in file order, and exits 0; the command line
      parses back into the row's issue ([parse_issue_cmd]); with a
      blank [--repo] the name [gh repo view] prints is used, stripped
      ([script_looks_up_repo]); the first row [gh] refuses stops the
      run with status 1, the issues of the rows before it created and
      left in place ([script_first_rejected]); the script never creates
      labels, so a repository without a row's kind label (a new GitHub
      repository has "bug" but not "feature", "db" or "docs") refuses
      that row ([kind_label_required]); running the rows again creates
      every issue a second time, with the same output
      ([script_rerun_duplicates]); a row labelled
      "Bug" is classified as a feature although [gh] gives it the
      repository's "bug" label ([bug_label_case]).
    - Runs against any tracker ([Main]): the commands go out in file
      order up to the first failure, which is echoed and becomes the
      status ([script_real]); a dry run executes nothing
      ([script_dry]); the early error paths ([script_early_errors]); the
      selection and the limit ([selected_spec]); the specification's
      scenarios evaluated (the example [scenario_rows]); the dry-run
      line does not determine the request (the example
      [dry_line_ambiguous]); the count of the
      summary line reads back as the number of rows
      ([py_str_nat_roundtrip]); when the tracker accepts every command
      the run reaches the summary line with status 0
      ([script_completes]); a seed file saved with a UTF-8 byte order
      mark creates no issue and reports success ([script_bom]); a seed
      file that is not valid UTF-8 ends the run with status 1 before any
      issue is created ([script_not_utf8]).
    - The seed file ([Csv]): the line-based reader equals the automaton
      run over the whole file as one stream ([read_csv_scan]); a table
      written as [csv.writer] writes it is read back unchanged, commas,
      quotes and line breaks inside fields included
      ([read_csv_write_rows]); through [DictReader] its records become
      the rows, blank records skipped and short ones padded with [None]
      ([read_seed_rows]); the reader never reports a line break in an
      unquoted field ([read_csv_no_newline_error]); every field it
      returns is within the limit ([read_csv_fields_bounded]) and a
      longer unquoted field is an error ([read_csv_field_too_large]);
      the iteration stops within its fuel (the lemma
      [read_csv_terminates]).
    - Decoding ([Utf8], [TextIO]): the strict decoder succeeds exactly on
      the encodings of strings of scalar values and gives them back
      ([utf8_decode_strict_exact]); decoding in pieces is decoding the
      whole ([decode_app]); reading the file chunk by chunk gives the
      lines of its whole decoding precisely when it is valid UTF-8
      ([file_lines_decode]), and a valid file is read as its text is
      ([read_seed_file_text]); which of two errors wins depends on the
      chunk boundaries ([read_seed_file_chunk_order]).
    - The command line ([Args]): a command line in the [--opt=value]
      form is parsed into the namespace of its values, the string "--"
      becoming the empty list; without "--" these are exactly the
      arguments it writes, and the script run with it is [main] on them
      ([script_argv_of]); [--repo=--], or [--seed=--] with a repository,
      makes the script die at once with status 1
      ([script_argv_dashdash]); an
      [int]-rejected [--limit] ends the run with the usage and status 2
      before any work ([script_argv_bad_limit]).
    - Labels: equivalence with a reference dedup, no duplicates,
      well-formed labels, order of first occurrence, idempotence.
    - Kind: its priority order (proved through the abstract
      [issue_kind], [kind_from_labels_eq]); the final
      label list has the kind label, first when inserted, and no
      duplicates.
    - Infer: equivalence with the rule lists, case-insensitivity,
      independence from the inserted kind label, and substring matching
      inside words.
    - Body: dispatch on every branch, distinct kinds give distinct
      bodies, and the parse/render round trip.
    - Tracker: [run] on both branches; the 8-bit exit status of a
      failed [gh] ([exit_status_nonzero], used by [script_real]).
    Each property's doc comment names its id (C1 ...).

    ** Bounds and fuel
    Every loop of the script is over a finite list and is modelled by
    structural recursion ([fold_left], [Fixpoint] on the rows), so no
    fuel is needed and every definition is total.  The one loop that is
    not structural is the iteration of the CSV reader, whose calls each
    consume at least one line: [reader_rows] takes a fuel, and
    [read_csv] gives it one call more than the file has lines, which
    [read_csv_terminates] shows is enough (any larger fuel gives the
    same result).  The reader's field limit is CPython's default
    [field_size_limit()], 131072 characters.  The loop of [argparse]
    consumes one string or more per step; [parse_args] gives it one step
    more than there are strings ([parse_loop_terminates]).  [int] refuses
    more than [sys.get_int_max_str_digits()] = 4300 digits, as Python
    3.11 does.  The UTF-8 decoder's loop consumes a byte or more per
    character and gets the input's length in fuel ([decode_loop_fuel]).
    The text file's loops ([read_more], [readline_loop], [lines_of]) are
    given as fuel the undecoded bytes (plus two) and, for the lines, the
    file's length: each chunk read that is not the last takes bytes,
    each turn of [readline] that reads on decodes a character, and each
    line takes a character ([read_more_total], [readline_loop_total],
    [lines_of_total]).  The chunk size is [_CHUNK_SIZE] = 8192 bytes.
    The return codes of
    the tracker are bounded by the POSIX range, the only bound the
    exit-status theorem needs; the 8-bit wrap-around is written out
    with [Z.land].  The decoder of literals in this file handles
    sequences of up to three bytes, which covers every literal of the
    script.

    ** Not modelled
    [gh] itself, which is an external program and not code of this
    repository: the [Tracker] interface states what the script relies
    on, and [GitHubSim] is one implementation, with the checks [gh]
    makes before it creates an issue; the network, authentication,
    assignees and the GraphQL requests are not modelled.  The help and usage texts of [argparse] are fixed to
    the program name [create_issues.py] and the default width of 80
    columns, and [repr] in its messages is exact below U+0100 only.
    [subprocess.run] raising (no [gh] on the path, or [ValueError] for
    an argument holding U+0000, which a seed file may carry) is not
    modelled: an [exec] always returns a [proc_result].  [GitHubSim]
    splits the value of [--label] on commas, where [gh] reads it as a
    CSV record (quotes are special there, and a line break ends the
    record); the labels of the witnesses hold neither.  The [UnicodeDecodeError] is
    kept by its reason, not by its byte positions, and an uncaught
    exception by its class (the traceback is not part of the log).  A
    read of a regular file is taken to return the 8192 bytes asked for
    (as [read1] does on a regular file).  The CSV
    reader's escape-character states are left out, as the [excel]
    dialect has no escape character. *)

From stdpp Require Export base list gmap sets.
From Stdlib Require Export ZArith String Ascii.
From Stdlib Require Import Lia.

Export ListNotations.

(** A Python [str] is a sequence of code points. *)
Abbreviation ustr := (list Z).

Declare Scope py_scope.
Delimit Scope py_scope with py.

(** Decoding of the UTF-8 bytes of a literal: the Python source file is
    UTF-8, and its literals denote code points. *)
Fixpoint utf8_decode (bs : list Z) : ustr :=
  match bs with
  | [] => []
  | b :: rest =>
      if (b <? 128)%Z then b :: utf8_decode rest
      else match rest with
           | c :: rest' =>
               if (b <? 224)%Z then
                 Z.lor (Z.shiftl (Z.land b 31) 6) (Z.land c 63) :: utf8_decode rest'
               else match rest' with
                    | d :: rest'' =>
                        Z.lor (Z.shiftl (Z.land b 15) 12)
                          (Z.lor (Z.shiftl (Z.land c 63) 6) (Z.land d 63))
                          :: utf8_decode rest''
                    | [] => []
                    end
           | [] => []
           end
  end.

Definition bytes_of_string (s : string) : list Z :=
  map (fun a => Z.of_N (N_of_ascii a)) (list_ascii_of_string s).

Definition lit (s : string) : ustr := utf8_decode (bytes_of_string s).

(** Literals stay folded under [simpl] and unification: comparing two
    literals never decodes them.  [vm_compute] still evaluates them. *)
Arguments lit : simpl never.
#[global] Opaque lit.

Notation "⟪ s ⟫" := (lit s%string) (at level 0, format "⟪ s ⟫") : py_scope.
Open Scope py_scope.

(** A string of 7-bit characters, and the text of a code-point list
    read back one character per code point (exact on 7-bit text). *)
Definition ascii7 (s : string) : bool :=
  forallb (fun a => N.ltb (N_of_ascii a) 128) (list_ascii_of_string s).

Definition string_of_ustr (u : ustr) : string :=
  string_of_list_ascii (map (fun c => ascii_of_N (Z.to_N c)) u).

(** The code point of a one-character literal. *)
Definition chr (s : string) : Z :=
  match lit s with c :: _ => c | [] => 0%Z end.

Create HintDb py.
Create Rewrite HintDb py_rw.

(** Turn the boolean tests of the model into propositions. *)
Ltac py_bool :=
  repeat match goal with
    | H : (_ && _)%bool = true |- _ => apply andb_true_iff in H as [? ?]
    | H : (_ || _)%bool = false |- _ => apply orb_false_iff in H as [? ?]
    | H : negb _ = true |- _ => apply negb_true_iff in H
    | H : negb _ = false |- _ => apply negb_false_iff in H
    | H : Z.eqb _ _ = true |- _ => apply Z.eqb_eq in H
    | H : Z.eqb _ _ = false |- _ => apply Z.eqb_neq in H
    | H : bool_decide _ = true |- _ => apply bool_decide_eq_true in H
    | H : bool_decide _ = false |- _ => apply bool_decide_eq_false in H
    end.

Definition opt_is_some {A} (o : option A) : bool :=
  match o with Some _ => true | None => false end.
(** Prove a decidable proposition about concrete data by evaluation. *)
Ltac decide_vm := apply (proj1 (bool_decide_eq_true _)); vm_compute; reflexivity.

(** ** Generic lemmas on lists *)

Lemma Forall_rev_iff {A} (P : A -> Prop) (l : list A) : Forall P (rev l) <-> Forall P l.
Proof.
  split; [|apply Forall_rev]. intros H. rewrite <- (rev_involutive l). by apply Forall_rev.
Qed.

Lemma rev_nil_iff {A} (l : list A) : rev l = [] <-> l = [].
Proof.
  split; [|by intros ->]. intros H. apply (f_equal (@rev A)) in H.
  by rewrite rev_involutive in H.
Qed.

Lemma sublist_rev {A} (l1 l2 : list A) : sublist l1 l2 -> sublist (rev l1) (rev l2).
Proof.
  induction 1 as [|x l1 l2 _ IH|x l1 l2 _ IH]; simpl; [constructor| |].
  - apply sublist_app; [done|repeat constructor].
  - rewrite <- (app_nil_r (rev l1)). apply sublist_app; [done|repeat constructor].
Qed.

(** On 7-bit text a literal is its bytes, one code point per character. *)
Local Transparent lit.
Lemma lit_ascii7 s : ascii7 s = true -> string_of_ustr (lit s) = s.
Proof.
  unfold lit, bytes_of_string, string_of_ustr, ascii7.
  induction s as [|a s IH]; [done|]. cbn [list_ascii_of_string forallb map].
  intros [Ha Hs]%andb_true_iff. apply N.ltb_lt in Ha.
  cbn [utf8_decode]. rewrite (proj2 (Z.ltb_lt _ 128)) by lia.
  cbn [map string_of_list_ascii]. rewrite N2Z.id, ascii_N_embedding.
  by rewrite IH.
Qed.

