(* ===== verification/PyStr.v ===== *)
(** * The CPython string built-ins the script calls

    [create_issues.py] calls [str.strip()], [str.lower()],
    [str.split(",")], [",".join(...)] and [" ".join(...)], and the
    operator [in] on strings (a substring test) and on lists
    (membership).  This file models them on [ustr] (lists of code
    points), from the Python language reference, and proves the laws the
    components rely on: the shape of [strip], the [split]/[join] round
    trips, the reflection of [in] to [infix], and the idempotence of
    [lower]. *)

From S2P Require Import Prelude.
From Stdlib Require Import Lia.

Local Open Scope Z_scope.

(** ** Whitespace and [str.strip] *)

(** [str.isspace] on one code point: the characters whose bidirectional
    type is WS, B or S, or whose category is Zs (CPython's
    [Py_UNICODE_ISSPACE]). *)
Definition py_isspace (c : Z) : bool :=
  ((9 <=? c) && (c <=? 13)) || ((28 <=? c) && (c <=? 32))
  || (c =? 133) || (c =? 160) || (c =? 5760)
  || ((8192 <=? c) && (c <=? 8202))
  || (c =? 8232) || (c =? 8233) || (c =? 8239) || (c =? 8287) || (c =? 12288).

Fixpoint lstrip (s : ustr) : ustr :=
  match s with
  | [] => []
  | c :: r => if py_isspace c then lstrip r else s
  end.

Definition rstrip (s : ustr) : ustr := rev (lstrip (rev s)).

(** [s.strip()] removes leading and trailing whitespace. *)
Definition strip (s : ustr) : ustr := rstrip (lstrip s).

(** [x or ''] on a value that is a [str] or [None]. *)
Definition py_or_empty (o : option ustr) : ustr :=
  match o with Some s => s | None => [] end.

(** A string whose first character (if any) is not whitespace. *)
Definition starts_nonspace (s : ustr) : Prop :=
  match s with [] => True | c :: _ => py_isspace c = false end.

Definition ends_nonspace (s : ustr) : Prop := starts_nonspace (rev s).

Definition all_space (s : ustr) : Prop := Forall (fun c => py_isspace c = true) s.

(** ** The operator [in] *)

Fixpoint is_prefix (p s : ustr) : bool :=
  match p, s with
  | [], _ => true
  | a :: p', b :: s' => (a =? b) && is_prefix p' s'
  | _ :: _, [] => false
  end.

(** [needle in hay] on two strings: a substring test. *)
Fixpoint str_in (needle hay : ustr) : bool :=
  is_prefix needle hay || match hay with [] => false | _ :: h => str_in needle h end.

(** [x in l] on a list (or a set built from it) of strings. *)
Definition list_in (x : ustr) (l : list ustr) : bool := bool_decide (x ∈ l).

(** ** [str.lower] *)

(** The lower case of one code point.  Exact on ASCII and Latin-1 and on
    the two other code points whose lower case contains an ASCII letter:
    U+0130 (lower case "i" followed by U+0307) and the Kelvin sign U+212A
    (lower case "k").  Other code points are kept: no other lower case
    contains a character of the keywords the script searches for. *)
Definition lower_char (c : Z) : ustr :=
  if (65 <=? c) && (c <=? 90) then [c + 32]
  else if (192 <=? c) && (c <=? 222) && negb (c =? 215) then [c + 32]
  else if c =? 304 then [105; 775]
  else if c =? 8490 then [107]
  else [c].

Definition lower (s : ustr) : ustr := flat_map lower_char s.

(** Case analysis on the comparisons of a code point with constants. *)
Ltac zcase :=
  repeat match goal with
    | |- context [?a <=? ?b] => destruct (Z.leb_spec a b)
    | |- context [?a =? ?b] => destruct (Z.eqb_spec a b)
    end; simpl; try lia.

(** ** [str.split(sep)] and [sep.join(l)] *)

(** [s.split(sep)] for a one-character separator: the pieces between the
    separators, empty pieces included; [''] splits into ['']. *)
Fixpoint split_sep (sep : Z) (s : ustr) : list ustr :=
  match s with
  | [] => [[]]
  | c :: r =>
      let ps := split_sep sep r in
      if c =? sep then [] :: ps
      else match ps with
           | p :: ps' => (c :: p) :: ps'
           | [] => [[c]]
           end
  end.

(** [sep.join(l)]. *)
Fixpoint join (sep : ustr) (l : list ustr) : ustr :=
  match l with
  | [] => []
  | [x] => x
  | x :: r => x ++ sep ++ join sep r
  end.

(** Truthiness of a string: [if s] is [if s != '']. *)
Definition is_empty (s : ustr) : bool := match s with [] => true | _ => false end.

(** ** Laws of [strip] *)

Section Strip.
Implicit Types s x y : ustr.

Lemma lstrip_shape s :
  exists a, s = a ++ lstrip s /\ all_space a /\ starts_nonspace (lstrip s).
Proof.
  induction s as [|c r IH].
  { exists []. split; [done|]. split; [constructor|done]. }
  simpl.
  destruct (py_isspace c) eqn:Hc.
  - destruct IH as (a & Ha & Hsp & Hst). exists (c :: a).
    split; [simpl; by rewrite <- Ha|]. split; [by constructor|done].
  - exists []. split; [done|]. split; [constructor|done].
Qed.

Lemma lstrip_starts_nonspace s : starts_nonspace s -> lstrip s = s.
Proof. destruct s as [|c r]; [done|]. simpl. by intros ->. Qed.

Lemma lstrip_all_space s : all_space s <-> lstrip s = [].
Proof.
  induction s as [|c r IH]; simpl; [split; [done|constructor]|].
  destruct (py_isspace c) eqn:Hc.
  - rewrite <- IH. split; [by inversion 1|by constructor].
  - split; [|done]. inversion 1; congruence.
Qed.

Lemma lstrip_app x y :
  lstrip (x ++ y) = if decide (lstrip x = []) then lstrip y else lstrip x ++ y.
Proof.
  induction x as [|c r IH]; simpl; [done|].
  destruct (py_isspace c); [done|]. by rewrite decide_False.
Qed.

Lemma lstrip_idem s : lstrip (lstrip s) = lstrip s.
Proof.
  destruct (lstrip_shape s) as (_ & _ & _ & H). by apply lstrip_starts_nonspace.
Qed.

Lemma rstrip_shape s :
  exists b, s = rstrip s ++ b /\ all_space b /\ ends_nonspace (rstrip s).
Proof.
  destruct (lstrip_shape (rev s)) as (a & Ha & Hsp & Hst).
  exists (rev a). unfold rstrip, ends_nonspace. rewrite rev_involutive.
  split; [|split; [by apply Forall_rev_iff|done]].
  by rewrite <- rev_app_distr, <- Ha, rev_involutive.
Qed.

Lemma rstrip_ends_nonspace s : ends_nonspace s -> rstrip s = s.
Proof.
  intros H. unfold rstrip. rewrite lstrip_starts_nonspace; [|done].
  apply rev_involutive.
Qed.

Lemma rstrip_all_space s : all_space s <-> rstrip s = [].
Proof.
  unfold rstrip, all_space. rewrite rev_nil_iff, <- lstrip_all_space.
  unfold all_space. by rewrite Forall_rev_iff.
Qed.

Lemma rstrip_idem s : rstrip (rstrip s) = rstrip s.
Proof.
  destruct (rstrip_shape s) as (_ & _ & _ & H). by apply rstrip_ends_nonspace.
Qed.

Lemma ends_nonspace_app x y :
  y <> [] -> ends_nonspace y -> ends_nonspace (x ++ y).
Proof.
  unfold ends_nonspace. rewrite rev_app_distr.
  destruct (rev y) eqn:E; [|done]. intros Hy. by destruct y using rev_ind; [|
    rewrite rev_unit in E].
Qed.

Lemma starts_nonspace_app x y :
  x <> [] -> starts_nonspace x -> starts_nonspace (x ++ y).
Proof. by destruct x. Qed.

(** The shape of [strip]: it removes a whitespace prefix and a whitespace
    suffix, and what is left neither starts nor ends with whitespace. *)
Lemma strip_shape s :
  exists a b, s = a ++ strip s ++ b /\ all_space a /\ all_space b /\
    starts_nonspace (strip s) /\ ends_nonspace (strip s).
Proof.
  destruct (lstrip_shape s) as (a & Ha & Hsa & Hst).
  destruct (rstrip_shape (lstrip s)) as (b & Hb & Hsb & Hend).
  exists a, b. unfold strip. split; [by rewrite <- Hb|].
  do 2 (split; [done|]). split; [|done].
  destruct (rstrip (lstrip s)) as [|c r] eqn:E; [done|].
  rewrite Hb in Hst. done.
Qed.

Lemma strip_stripped s : starts_nonspace s -> ends_nonspace s -> strip s = s.
Proof.
  intros H1 H2. unfold strip. rewrite lstrip_starts_nonspace by done.
  by apply rstrip_ends_nonspace.
Qed.

Lemma strip_idem s : strip (strip s) = strip s.
Proof.
  destruct (strip_shape s) as (? & ? & _ & _ & _ & ? & ?). by apply strip_stripped.
Qed.

Lemma strip_all_space s : all_space s <-> strip s = [].
Proof.
  unfold strip. rewrite <- rstrip_all_space.
  destruct (lstrip_shape s) as (a & Ha & Hsa & _). split.
  - intros Hs. apply lstrip_all_space in Hs. rewrite Hs. constructor.
  - intros Hl. rewrite Ha. by apply Forall_app.
Qed.
End Strip.

#[export] Hint Resolve strip_idem lstrip_idem rstrip_idem : py.

Lemma is_prefix_spec p s : is_prefix p s = true <-> p `prefix_of` s.
Proof.
  revert s. induction p as [|a p IH]; intros [|b s]; simpl.
  - split; [intros; apply prefix_nil|done].
  - split; [intros; apply prefix_nil|done].
  - split; [done|]. intros [k Hk]. done.
  - rewrite andb_true_iff, Z.eqb_eq, IH. split.
    + intros [-> H]. by apply prefix_cons.
    + intros H. apply prefix_cons_inv_1 in H as E. subst.
      split; [done|]. by apply prefix_cons_inv_2 in H.
Qed.

(** [in] on strings is the substring relation. *)
Lemma str_in_spec n h : str_in n h = true <-> exists a b, h = a ++ n ++ b.
Proof.
  induction h as [|c h IH]; simpl.
  - rewrite orb_false_r, is_prefix_spec. split.
    + intros [k Hk]. exists [], k. done.
    + intros (a & b & H). symmetry in H.
      apply app_eq_nil in H as [-> [-> ->]%app_eq_nil]. apply prefix_nil.
  - rewrite orb_true_iff, is_prefix_spec, IH. split.
    + intros [[k Hk] | (a & b & ->)]; [by exists [], k | by exists (c :: a), b].
    + intros ([|c' a] & b & H); simpl in H.
      * left. by exists b.
      * right. injection H as -> ->. by exists a, b.
Qed.

Lemma str_in_app_l n x y : str_in n x = true -> str_in n (x ++ y) = true.
Proof.
  rewrite !str_in_spec. intros (a & b & ->). exists a, (b ++ y).
  by rewrite <- !app_assoc.
Qed.

Lemma str_in_app_r n x y : str_in n y = true -> str_in n (x ++ y) = true.
Proof.
  rewrite !str_in_spec. intros (a & b & ->). exists (x ++ a), b.
  by rewrite <- !app_assoc.
Qed.

Lemma str_in_refl n : str_in n n = true.
Proof. apply str_in_spec. exists [], []. by rewrite app_nil_r. Qed.

#[export] Hint Resolve str_in_app_l str_in_app_r str_in_refl : py.

Lemma list_in_spec x l : list_in x l = true <-> x ∈ l.
Proof. apply bool_decide_eq_true. Qed.

Lemma lower_app x y : lower (x ++ y) = lower x ++ lower y.
Proof. apply flat_map_app. Qed.

Lemma lower_char_idem c : lower (lower_char c) = lower_char c.
Proof.
  unfold lower_char. zcase; unfold lower; simpl; unfold lower_char; zcase; reflexivity.
Qed.

Lemma lower_idem s : lower (lower s) = lower s.
Proof.
  induction s as [|c s IH]; [done|].
  change (lower (c :: s)) with (lower_char c ++ lower s).
  by rewrite lower_app, lower_char_idem, IH.
Qed.
#[export] Hint Rewrite lower_app lower_idem : py_rw.

Section SplitJoin.
Implicit Types (sep : Z) (s x : ustr) (l : list ustr).

Lemma split_sep_not_nil sep s : split_sep sep s <> [].
Proof.
  destruct s as [|c r]; simpl; [done|].
  destruct (c =? sep); [done|]. by destruct (split_sep sep r).
Qed.

(** No piece contains the separator. *)
Lemma split_sep_pieces sep s : Forall (fun p => sep ∉ p) (split_sep sep s).
Proof.
  induction s as [|c r IH]; simpl.
  - constructor; [apply not_elem_of_nil|constructor].
  - destruct (Z.eqb_spec c sep); [constructor; [apply not_elem_of_nil|done]|].
    destruct (split_sep sep r) as [|p ps]; [repeat constructor; set_solver|].
    inversion IH; subst. constructor; [set_solver|done].
Qed.

Lemma join_cons_cons (d : ustr) x y l : join d (x :: y :: l) = x ++ d ++ join d (y :: l).
Proof. done. Qed.

Lemma join_head (d : ustr) c p l : join d ((c :: p) :: l) = c :: join d (p :: l).
Proof. by destruct l. Qed.

(** [sep.join(s.split(sep)) == s]. *)
Lemma join_split sep s : join [sep] (split_sep sep s) = s.
Proof.
  induction s as [|c r IH]; simpl; [done|].
  destruct (Z.eqb_spec c sep) as [->|].
  - destruct (split_sep sep r) as [|p ps] eqn:E; [by apply split_sep_not_nil in E|].
    try rewrite E in IH. by rewrite join_cons_cons, IH.
  - destruct (split_sep sep r) as [|p ps] eqn:E; [by apply split_sep_not_nil in E|].
    try rewrite E in IH. rewrite join_head. by rewrite IH.
Qed.

Lemma split_sep_nosep sep x : sep ∉ x -> split_sep sep x = [x].
Proof.
  induction x as [|c r IH]; intros Hx; simpl; [done|].
  rewrite elem_of_cons in Hx. destruct (Z.eqb_spec c sep); [subst; tauto|].
  rewrite IH; [done|tauto].
Qed.

Lemma split_sep_app sep x t :
  sep ∉ x -> split_sep sep (x ++ sep :: t) = x :: split_sep sep t.
Proof.
  induction x as [|c r IH]; intros Hx; simpl.
  - by rewrite Z.eqb_refl.
  - rewrite elem_of_cons in Hx. destruct (Z.eqb_spec c sep); [subst; tauto|].
    rewrite IH; [done|tauto].
Qed.

(** [sep.join(l).split(sep) == l] when no element contains [sep]. *)
Lemma split_join sep l :
  l <> [] -> Forall (fun p => sep ∉ p) l -> split_sep sep (join [sep] l) = l.
Proof.
  induction l as [|x [|y l] IH]; intros Hne Hl; [done| |].
  - inversion Hl. by apply split_sep_nosep.
  - inversion Hl; subst. rewrite join_cons_cons. cbn [app].
    rewrite split_sep_app by done. by rewrite IH.
Qed.

Lemma join_app_last (d : ustr) l x :
  l <> [] -> join d (l ++ [x]) = join d l ++ d ++ x.
Proof.
  induction l as [|y [|z l] IH]; intros Hne; [done|done|].
  change ((y :: z :: l) ++ [x]) with (y :: z :: (l ++ [x])).
  rewrite join_cons_cons. change (z :: l ++ [x]) with ((z :: l) ++ [x]).
  rewrite IH by done. by rewrite join_cons_cons, <- !app_assoc.
Qed.
End SplitJoin.

Lemma is_empty_spec s : is_empty s = true <-> s = [].
Proof. by destruct s. Qed.

(** A stripped non-empty string neither starts nor ends with whitespace. *)
Lemma stripped_ends s :
  strip s = s -> starts_nonspace s /\ ends_nonspace s.
Proof.
  intros H. destruct (strip_shape s) as (_ & _ & _ & _ & _ & H1 & H2).
  rewrite H in H1, H2. done.
Qed.

(** Joining stripped non-empty strings gives a stripped string. *)
Lemma strip_join (d : ustr) l :
  l <> [] -> Forall (fun x => x <> [] /\ strip x = x) l -> strip (join d l) = join d l.
Proof.
  intros Hne Hl. apply strip_stripped.
  - destruct l as [|x l]; [done|]. inversion Hl as [|? ? [Hx Hs] _]; subst.
    destruct (stripped_ends x Hs) as [Hst _].
    destruct l; [done|]. rewrite join_cons_cons. by apply starts_nonspace_app.
  - destruct l as [|x l _] using rev_ind; [done|].
    apply Forall_app in Hl as [_ Hx]. inversion Hx as [|? ? [Hx0 Hs] _]; subst.
    destruct (stripped_ends x Hs) as [_ Hend].
    destruct l as [|y l]; [done|]. rewrite join_app_last by done.
    rewrite app_assoc. by apply ends_nonspace_app.
Qed.

(** Trailing whitespace, such as the newline [gh] prints after its
    output, does not survive [strip]. *)
Lemma rstrip_app_space x b : all_space b -> rstrip (x ++ b) = rstrip x.
Proof.
  intros Hb. unfold rstrip. rewrite rev_app_distr, lstrip_app, decide_True; [done|].
  apply lstrip_all_space. unfold all_space. by apply Forall_rev_iff.
Qed.

Lemma strip_app_space s b : all_space b -> strip (s ++ b) = strip s.
Proof.
  intros Hb. unfold strip. rewrite lstrip_app.
  case_decide as H; [|by apply rstrip_app_space].
  rewrite H. apply lstrip_all_space in Hb. by rewrite Hb.
Qed.
