(* ===== verification/Utf8.v ===== *)
(** * The UTF-8 codec of [open(args.seed, 'r', encoding='utf-8')]
      (create_issues.py, line 180)

    The seed file is a sequence of bytes; the text the CSV reader sees
    is their decoding by CPython's strict UTF-8 decoder.  This file
    models that decoder after [Objects/stringlib/codecs.h]
    ([utf8_decode], one step per character: [utf8_step]) and its driver
    [unicode_decode_utf8] in [Objects/unicodeobject.c]
    ([decode_loop]), in both of its modes: final (the whole input) and
    incremental ([consumed]: an incomplete sequence at the end is kept
    for the next call, as the incremental decoder of a text file does).
    The exception is kept by its reason; its byte positions are not
    modelled.

    Theorems: the decoder's step and loop on the encoding of a scalar
    value; the strict decoder accepts exactly the UTF-8 encodings of
    strings of scalar values (no overlong form, no surrogate, nothing
    above U+10FFFF), and gives them back; decoding in pieces, as the
    incremental decoder does, is decoding the whole. *)

From S2P Require Import Prelude PyStr.
From Stdlib Require Import Lia.

Local Open Scope Z_scope.

Module Utf8.

(** A byte of the file. *)
Definition is_byte (b : Z) : Prop := 0 <= b < 256.

(** A Unicode scalar value: a code point that is not a surrogate. *)
Definition scalar (c : Z) : Prop := 0 <= c < 0x110000 /\ ~ (0xD800 <= c < 0xE000).

#[export] Instance scalar_dec c : Decision (scalar c).
Proof. unfold scalar. apply _. Defined.

(** [IS_CONTINUATION_BYTE]. *)
Definition is_cont (b : Z) : bool := (0x80 <=? b) && (b <? 0xC0).

(** The outcome of one step of [utf8_decode]: a character and the
    bytes after it, the end of the data inside a sequence ([break]: the
    caller decides), or the error codes 1 ([InvalidStart]) and 2 to 4
    ([InvalidContinuation1..3], the count of bytes of the bad
    sequence). *)
Inductive u8_step :=
| U8Char (c : Z) (rest : list Z)
| U8Truncated
| U8InvalidStart
| U8InvalidCont (n : nat).

(** One character of [utf8_decode] (codecs.h): the tests in the order
    of the C code, and the code point by its shifts and sums. *)
Definition utf8_step (bs : list Z) : u8_step :=
  match bs with
  | [] => U8Truncated
  | ch :: r =>
      if ch <? 0x80 then U8Char ch r
      else if ch <? 0xE0 then
        if ch <? 0xC2 then U8InvalidStart
        else match r with
             | [] => U8Truncated
             | ch2 :: r2 =>
                 if negb (is_cont ch2) then U8InvalidCont 1
                 else U8Char (Z.shiftl ch 6 + ch2 - (Z.shiftl 0xC0 6 + 0x80)) r2
             end
      else if ch <? 0xF0 then
        match r with
        | [] => U8Truncated
        | [ch2] =>
            if negb (is_cont ch2) || (if ch2 <? 0xA0 then ch =? 0xE0 else ch =? 0xED)
            then U8InvalidCont 1 else U8Truncated
        | ch2 :: ch3 :: r3 =>
            if negb (is_cont ch2) then U8InvalidCont 1
            else if (ch =? 0xE0) && (ch2 <? 0xA0) then U8InvalidCont 1
            else if (ch =? 0xED) && (0xA0 <=? ch2) then U8InvalidCont 1
            else if negb (is_cont ch3) then U8InvalidCont 2
            else U8Char (Z.shiftl ch 12 + Z.shiftl ch2 6 + ch3 -
                         (Z.shiftl 0xE0 12 + Z.shiftl 0x80 6 + 0x80)) r3
        end
      else if ch <? 0xF5 then
        match r with
        | [] => U8Truncated
        | [ch2] =>
            if negb (is_cont ch2) || (if ch2 <? 0x90 then ch =? 0xF0 else ch =? 0xF4)
            then U8InvalidCont 1 else U8Truncated
        | [ch2; ch3] =>
            if negb (is_cont ch2) || (if ch2 <? 0x90 then ch =? 0xF0 else ch =? 0xF4)
            then U8InvalidCont 1
            else if negb (is_cont ch3) then U8InvalidCont 2 else U8Truncated
        | ch2 :: ch3 :: ch4 :: r4 =>
            if negb (is_cont ch2) then U8InvalidCont 1
            else if (ch =? 0xF0) && (ch2 <? 0x90) then U8InvalidCont 1
            else if (ch =? 0xF4) && (0x90 <=? ch2) then U8InvalidCont 1
            else if negb (is_cont ch3) then U8InvalidCont 2
            else if negb (is_cont ch4) then U8InvalidCont 3
            else U8Char (Z.shiftl ch 18 + Z.shiftl ch2 12 + Z.shiftl ch3 6 + ch4 -
                         (Z.shiftl 0xF0 18 + Z.shiftl 0x80 12 + Z.shiftl 0x80 6 + 0x80)) r4
        end
      else U8InvalidStart
  end.

(** The reason of the [UnicodeDecodeError]. *)
Inductive u8_error := InvalidStartByte | InvalidContinuationByte | UnexpectedEnd.

#[export] Instance u8_error_eq_dec : EqDecision u8_error.
Proof. solve_decision. Defined.

(** [ED A0..BF] at the very end of an incremental input: the start of a
    surrogate, which the incremental decoder keeps for the next call
    instead of failing at once. *)
Definition truncated_surrogate (bs : list Z) : bool :=
  match bs with
  | [ch; ch2] => (ch =? 0xED) && (0xA0 <=? ch2) && (ch2 <=? 0xBF)
  | _ => false
  end.

(** [unicode_decode_utf8] with [errors='strict'], [final] false when
    the caller passes [consumed] (incremental decoding): the decoded
    characters and the bytes kept for the next call, or the error.  At
    most [fuel] characters ([decode_loop_fuel]: the length of the input
    is enough). *)
Fixpoint decode_loop (fuel : nat) (final : bool) (bs : list Z) : u8_error + (ustr * list Z) :=
  match fuel with
  | O => inr ([], bs)
  | S f =>
      match utf8_step bs with
      | U8Char c r =>
          match decode_loop f final r with
          | inl e => inl e
          | inr (out, p) => inr (c :: out, p)
          end
      | U8Truncated =>
          if final && negb (is_empty bs) then inl UnexpectedEnd else inr ([], bs)
      | U8InvalidStart => inl InvalidStartByte
      | U8InvalidCont n =>
          if negb final && (n =? 1)%nat && truncated_surrogate bs then inr ([], bs)
          else inl InvalidContinuationByte
      end
  end.

Definition unicode_decode_utf8 (final : bool) (bs : list Z) : u8_error + (ustr * list Z) :=
  decode_loop (S (List.length bs)) final bs.

(** [bytes.decode('utf-8')]: the whole input. *)
Definition utf8_decode_strict (bs : list Z) : u8_error + ustr :=
  match unicode_decode_utf8 true bs with
  | inl e => inl e
  | inr (s, _) => inr s
  end.

(** ** The encoder (RFC 3629), the specification side *)

Definition encode_char (c : Z) : list Z :=
  if c <? 0x80 then [c]
  else if c <? 0x800 then [0xC0 + c / 64; 0x80 + c mod 64]
  else if c <? 0x10000 then [0xE0 + c / 4096; 0x80 + (c / 64) mod 64; 0x80 + c mod 64]
  else [0xF0 + c / 262144; 0x80 + (c / 4096) mod 64; 0x80 + (c / 64) mod 64;
        0x80 + c mod 64].

Definition utf8_encode (s : ustr) : list Z := flat_map encode_char s.

(** ** Lemmas *)

(** Case analysis on the comparisons of the decoder, in the order they
    are evaluated; the impossible branches are cut by [lia]. *)
Ltac zcase :=
  match goal with
  | |- context [?a <? ?b] => destruct (Z.ltb_spec a b); try lia
  | |- context [?a <=? ?b] => destruct (Z.leb_spec a b); try lia
  | |- context [?a =? ?b] => destruct (Z.eqb_spec a b); try lia
  end; cbn [andb orb negb] in *.

Ltac zcases := unfold is_cont in *; repeat (zcase; try discriminate).

Lemma shiftl_6 x : Z.shiftl x 6 = x * 64.
Proof. by rewrite Z.shiftl_mul_pow2 by lia. Qed.
Lemma shiftl_12 x : Z.shiftl x 12 = x * 4096.
Proof. by rewrite Z.shiftl_mul_pow2 by lia. Qed.
Lemma shiftl_18 x : Z.shiftl x 18 = x * 262144.
Proof. by rewrite Z.shiftl_mul_pow2 by lia. Qed.
#[export] Hint Rewrite shiftl_6 shiftl_12 shiftl_18 : py_rw.

Lemma divmod64 x : x = 64 * (x / 64) + x mod 64 /\ 0 <= x mod 64 < 64.
Proof. split; [apply Z.div_mod; lia|apply Z.mod_pos_bound; lia]. Qed.


(** The base-64 digits of a code point, for [lia]. *)
Ltac digits64 c :=
  replace (c / 4096) with (c / 64 / 64) in * by (rewrite Z.div_div by lia; reflexivity);
  replace (c / 262144) with (c / 64 / 64 / 64) in * by (rewrite !Z.div_div by lia; reflexivity);
  pose proof (divmod64 c); pose proof (divmod64 (c / 64)); pose proof (divmod64 (c / 64 / 64));
  set (q1 := c / 64) in *; set (q2 := q1 / 64) in *; set (q3 := q2 / 64) in *.

Lemma utf8_step_encode c r :
  scalar c -> utf8_step (encode_char c ++ r) = U8Char c r.
Proof.
  intros [Hc Hs]. unfold encode_char.
  destruct (Z.ltb_spec c 0x80); [cbn [app utf8_step]; by rewrite (proj2 (Z.ltb_lt _ _))|].
  digits64 c.
  destruct (Z.ltb_spec c 0x800); [|destruct (Z.ltb_spec c 0x10000)];
    cbn [app utf8_step]; zcases; autorewrite with py_rw; f_equal; lia.
Qed.

(** The decoder's step accepts only the encoding of a scalar value. *)
Lemma utf8_step_sound bs c r :
  Forall is_byte bs -> utf8_step bs = U8Char c r -> scalar c /\ bs = encode_char c ++ r.
Proof.
  intros Hb. destruct bs as [|ch [|ch2 [|ch3 [|ch4 r']]]]; cbn [utf8_step]; [discriminate|..];
    repeat (apply Forall_cons_1 in Hb as [? Hb]); unfold is_byte in *;
    zcases; intros [= Hc <-]; autorewrite with py_rw in Hc; subst c;
    match goal with |- scalar ?x /\ _ => unfold scalar, encode_char; digits64 x end;
    zcases; cbn [app]; split; try lia; repeat f_equal; lia.
Qed.

(** The step is decided by the bytes of the character: more input after
    them changes nothing but the rest. *)
Lemma utf8_step_app bs ys :
  match utf8_step bs with
  | U8Char c r => utf8_step (bs ++ ys) = U8Char c (r ++ ys)
  | U8InvalidStart => utf8_step (bs ++ ys) = U8InvalidStart
  | U8InvalidCont n => utf8_step (bs ++ ys) = U8InvalidCont n
  | U8Truncated => True
  end.
Proof.
  destruct bs as [|ch [|ch2 [|ch3 [|ch4 r]]]]; [exact I|..];
    [destruct ys as [|y1 [|y2 [|y3 ys]]]|destruct ys as [|y1 [|y2 ys]]|destruct ys as [|y1 ys]|];
    cbn [app utf8_step]; zcases; done.
Qed.

Lemma utf8_step_length bs c r : utf8_step bs = U8Char c r -> (List.length r < List.length bs)%nat.
Proof.
  destruct bs as [|ch [|ch2 [|ch3 [|ch4 r']]]]; cbn [utf8_step]; zcases;
    intros [= _ <-]; cbn [List.length]; lia.
Qed.

Lemma utf8_step_cont_length bs n : utf8_step bs = U8InvalidCont n -> (2 <= List.length bs)%nat.
Proof.
  destruct bs as [|ch [|ch2 r]]; cbn [utf8_step]; zcases; intros Hs; try discriminate Hs;
    cbn [List.length]; lia.
Qed.

(** The rest of the output after [out]. *)
Definition prepend (out : ustr) (r : u8_error + (ustr * list Z)) : u8_error + (ustr * list Z) :=
  match r with inl e => inl e | inr (o, p) => inr (out ++ o, p) end.

Lemma prepend_nil r : prepend [] r = r.
Proof. by destruct r as [|[]]. Qed.

Lemma prepend_app o1 o2 r : prepend o1 (prepend o2 r) = prepend (o1 ++ o2) r.
Proof. destruct r as [|[]]; simpl; by rewrite ?app_assoc. Qed.

(** Termination: the length of the input is enough fuel. *)
Lemma decode_loop_fuel n m f bs :
  (List.length bs < n)%nat -> (List.length bs < m)%nat -> decode_loop n f bs = decode_loop m f bs.
Proof.
  revert m bs. induction n as [|n IH]; intros m bs Hn Hm; [lia|]. destruct m as [|m]; [lia|].
  cbn [decode_loop]. destruct (utf8_step bs) eqn:E; try done.
  pose proof (utf8_step_length _ _ _ E). by rewrite (IH m) by lia.
Qed.

(** The loop, one character at a time. *)
Lemma unicode_decode_utf8_eq f bs :
  unicode_decode_utf8 f bs =
    match utf8_step bs with
    | U8Char c r => prepend [c] (unicode_decode_utf8 f r)
    | U8Truncated => if f && negb (is_empty bs) then inl UnexpectedEnd else inr ([], bs)
    | U8InvalidStart => inl InvalidStartByte
    | U8InvalidCont n =>
        if negb f && (n =? 1)%nat && truncated_surrogate bs then inr ([], bs)
        else inl InvalidContinuationByte
    end.
Proof.
  unfold unicode_decode_utf8 at 1. cbn [decode_loop]. destruct (utf8_step bs) as [c r| | |n] eqn:E; try done.
  pose proof (utf8_step_length _ _ _ E).
  rewrite (decode_loop_fuel _ (S (List.length r))) by lia.
  fold (unicode_decode_utf8 f r). by destruct (unicode_decode_utf8 f r) as [|[]].
Qed.

(** Decoding in pieces: the incremental decoder's output on a first
    piece, then the decoding of what it kept followed by the next piece,
    is the decoding of the whole; an error of the first piece is an
    error of the whole. *)
Lemma decode_app xs ys f :
  match unicode_decode_utf8 false xs with
  | inl e => unicode_decode_utf8 f (xs ++ ys) = inl e
  | inr (out, p) => unicode_decode_utf8 f (xs ++ ys) = prepend out (unicode_decode_utf8 f (p ++ ys))
  end.
Proof.
  induction xs as [xs IH] using (induction_ltof1 _ (@List.length Z)); unfold ltof in IH.
  pose proof (utf8_step_app xs ys) as Ha.
  rewrite (unicode_decode_utf8_eq false xs). destruct (utf8_step xs) as [c r| | |n] eqn:E.
  - pose proof (utf8_step_length _ _ _ E). specialize (IH r H).
    rewrite (unicode_decode_utf8_eq f (xs ++ ys)), Ha. revert IH.
    destruct (unicode_decode_utf8 false r) as [e|[o p]]; simpl; intros ->; [done|].
    by rewrite prepend_app.
  - cbn [andb]. by rewrite prepend_nil.
  - by rewrite (unicode_decode_utf8_eq f (xs ++ ys)), Ha.
  - pose proof (utf8_step_cont_length _ _ E).
    destruct ys as [|y ys].
    + rewrite app_nil_r. destruct (n =? 1)%nat eqn:Hn, (truncated_surrogate xs) eqn:Ht;
        cbn [negb andb]; rewrite ?prepend_nil, ?app_nil_r; try done;
        rewrite unicode_decode_utf8_eq, E, ?Hn, ?Ht; by destruct f.
    + assert (Hts : truncated_surrogate (xs ++ y :: ys) = false)
        by (destruct xs as [|x1 [|x2 [|x3 xs]]]; cbn in *; [lia|lia|done|done]).
      destruct (n =? 1)%nat eqn:Hn, (truncated_surrogate xs), f; cbn [negb andb];
        rewrite ?prepend_nil; try done;
        rewrite (unicode_decode_utf8_eq _ (xs ++ y :: ys)), Ha, Hts, ?Hn; done.
Qed.

(** The encoding of scalar values decodes to them, in either mode. *)
Lemma decode_encode_app f s p :
  Forall scalar s -> unicode_decode_utf8 f (utf8_encode s ++ p) = prepend s (unicode_decode_utf8 f p).
Proof.
  induction 1 as [|c s Hc _ IH]; [by rewrite prepend_nil|].
  cbn [utf8_encode flat_map]. rewrite <- app_assoc, unicode_decode_utf8_eq, utf8_step_encode by done.
  fold (utf8_encode s). by rewrite IH, prepend_app.
Qed.

Lemma decode_nil f : unicode_decode_utf8 f [] = inr ([], []).
Proof. by destruct f. Qed.

Lemma decode_encode f s : Forall scalar s -> unicode_decode_utf8 f (utf8_encode s) = inr (s, []).
Proof.
  intros Hs. pose proof (decode_encode_app f s [] Hs) as H. rewrite app_nil_r in H.
  rewrite H, decode_nil. cbn [prepend]. by rewrite app_nil_r.
Qed.

(** What the strict decoder accepts is the encoding of its output. *)
Lemma decode_sound bs s p :
  Forall is_byte bs -> unicode_decode_utf8 true bs = inr (s, p) ->
  p = [] /\ Forall scalar s /\ utf8_encode s = bs.
Proof.
  revert s. induction bs as [bs IH] using (induction_ltof1 _ (@List.length Z)); unfold ltof in IH.
  intros s Hb. rewrite unicode_decode_utf8_eq. destruct (utf8_step bs) as [c r| | |n] eqn:E.
  - destruct (utf8_step_sound _ _ _ Hb E) as [Hc ->].
    pose proof (utf8_step_length _ _ _ E). apply Forall_app in Hb as [_ Hb].
    destruct (unicode_decode_utf8 true r) as [e|[o p']] eqn:Er; [done|]. intros [= <- ->].
    destruct (IH r H o Hb Er) as (-> & Ho & <-). split; [done|]. by split; constructor.
  - destruct bs; [intros [= <- <-]; done|done].
  - done.
  - done.
Qed.

(** In final mode nothing is kept. *)
Lemma decode_final_nil bs s p : unicode_decode_utf8 true bs = inr (s, p) -> p = [].
Proof.
  revert s. induction bs as [bs IH] using (induction_ltof1 _ (@List.length Z)); unfold ltof in IH.
  intros s. rewrite unicode_decode_utf8_eq. destruct (utf8_step bs) as [c r| | |n] eqn:E.
  - pose proof (utf8_step_length _ _ _ E).
    destruct (unicode_decode_utf8 true r) as [|[o p']] eqn:Er; [done|]. intros [= _ <-]. by eapply IH.
  - by destruct bs; [intros [= _ <-]|].
  - done.
  - done.
Qed.

(** Every character comes from at least one byte. *)
Lemma decode_length f bs s p :
  unicode_decode_utf8 f bs = inr (s, p) -> (List.length s + List.length p <= List.length bs)%nat.
Proof.
  revert s. induction bs as [bs IH] using (induction_ltof1 _ (@List.length Z)); unfold ltof in IH.
  intros s. rewrite unicode_decode_utf8_eq. destruct (utf8_step bs) as [c r| | |n] eqn:E.
  - pose proof (utf8_step_length _ _ _ E).
    destruct (unicode_decode_utf8 f r) as [|[o p']] eqn:Er; [done|]. intros [= <- <-].
    specialize (IH r H o Er). cbn [List.length]. lia.
  - destruct (f && negb (is_empty bs)); [done|]. intros [= <- <-]. cbn. lia.
  - done.
  - destruct (negb f && (n =? 1)%nat && truncated_surrogate bs); [|done]. intros [= <- <-]. cbn. lia.
Qed.


Lemma encode_length s : (List.length s <= List.length (utf8_encode s))%nat.
Proof.
  induction s as [|c s IH]; [done|]. cbn [utf8_encode flat_map]. rewrite length_app.
  fold (utf8_encode s). unfold encode_char.
  repeat case_match; cbn [List.length]; lia.
Qed.

(** ** Properties *)

(** C18 (round trip): on bytes, the strict decoder succeeds exactly on
    the UTF-8 encodings of strings of scalar values, and gives the
    string back: it rejects every overlong form, every encoded
    surrogate and every code point above U+10FFFF. *)
Theorem utf8_decode_strict_exact bs s :
  Forall is_byte bs -> utf8_decode_strict bs = inr s <-> Forall scalar s /\ utf8_encode s = bs.
Proof.
  intros Hb. unfold utf8_decode_strict. split.
  - destruct (unicode_decode_utf8 true bs) as [e|[s' p]] eqn:E; [done|]. intros [= <-].
    by destruct (decode_sound _ _ _ Hb E) as (_ & ? & ?).
  - intros [Hs <-]. by rewrite decode_encode.
Qed.

Lemma utf8_decode_strict_exact_witness :
  Forall is_byte [0xE2; 0x82; 0xAC] /\
  (utf8_decode_strict [0xE2; 0x82; 0xAC] = inr [0x20AC] <->
   Forall scalar [0x20AC] /\ utf8_encode [0x20AC] = [0xE2; 0x82; 0xAC]).
Proof.
  assert (H : Forall is_byte [0xE2; 0x82; 0xAC]) by (repeat constructor; unfold is_byte; lia).
  split; [exact H|]. exact (utf8_decode_strict_exact _ _ H).
Defined.

End Utf8.
