(* ===== verification/Labels.v ===== *)
(** * Label normaliser: [normalize_labels] (create_issues.py, lines 14-23)

    The raw label column is stripped, split on commas, and every piece is
    stripped; empty pieces and repeated pieces are dropped, and the first
    occurrence keeps its place.  The loop of the source (an [out] list
    with an [append] guarded by [x not in out]) is modelled by a
    [fold_left] of [normalize_step].

    Theorems: the result has no duplicates, its labels are stripped,
    non-empty and comma-free; it equals a reference definition (the
    Standard Library's [nodup] on the reversed pieces); it keeps the order
    of the pieces; normalising the comma-join of a normal list gives it
    back. *)

From S2P Require Import Prelude PyStr.
From Stdlib Require Import Lia.

Local Open Scope Z_scope.

Module Labels.

Definition comma : Z := chr ",".

(** One iteration of [for x in s.split(","): ...]. *)
Definition normalize_step (out : list ustr) (x : ustr) : list ustr :=
  let x := strip x in
  if negb (is_empty x) && negb (list_in x out) then out ++ [x] else out.

(** [normalize_labels(s)]. *)
Definition normalize_labels (s : option ustr) : list ustr :=
  let s := strip (py_or_empty s) in
  if is_empty s then []
  else fold_left normalize_step (split_sep comma s) [].

(** ** Reference definition *)

(** The stripped non-empty pieces, in order. *)
Definition label_pieces (s : option ustr) : list ustr :=
  List.filter (fun x => negb (is_empty x))
    (map strip (split_sep comma (strip (py_or_empty s)))).

(** The first occurrence of every piece, in order: Stdlib's [nodup]
    keeps last occurrences, so it runs on the reversed list. *)
Definition ustr_eq_dec (x y : ustr) : {x = y} + {x <> y} := decide (x = y).

Definition dedup_first (l : list ustr) : list ustr :=
  rev (nodup ustr_eq_dec (rev l)).

(** A well-formed label: non-empty, stripped, without a comma. *)
Definition label_wf (x : ustr) : Prop := x <> [] /\ strip x = x /\ comma ∉ x.

(** ** Lemmas on the loop *)

Definition dedup_step (out : list ustr) (x : ustr) : list ustr :=
  if list_in x out then out else out ++ [x].

Lemma fold_normalize_step l acc :
  fold_left normalize_step l acc =
  fold_left dedup_step (List.filter (fun x => negb (is_empty x)) (map strip l)) acc.
Proof.
  revert acc. induction l as [|x l IH]; intros acc; [done|]. simpl.
  unfold normalize_step at 2. destruct (is_empty (strip x)); simpl; [apply IH|].
  rewrite IH. f_equal. unfold dedup_step. by destruct (list_in (strip x) acc).
Qed.

Lemma fold_dedup_step l : fold_left dedup_step l [] = dedup_first l.
Proof.
  induction l as [|x l IH] using rev_ind; [done|].
  rewrite fold_left_app, IH. simpl. unfold dedup_step, dedup_first.
  rewrite rev_app_distr. simpl.
  destruct (in_dec ustr_eq_dec x (rev l)) as [Hin|Hin];
    destruct (list_in x (rev (nodup ustr_eq_dec (rev l)))) eqn:E; try done.
  - apply not_true_iff_false in E. exfalso. apply E, list_in_spec.
    apply list_elem_of_In. rewrite <- in_rev. by apply nodup_In.
  - apply list_in_spec, list_elem_of_In in E. rewrite <- in_rev, nodup_In in E. done.
Qed.

Lemma dedup_first_NoDup l : NoDup (dedup_first l).
Proof.
  unfold dedup_first. apply NoDup_ListNoDup, NoDup_rev, NoDup_nodup.
Qed.

Lemma elem_of_dedup_first x l : x ∈ dedup_first l <-> x ∈ l.
Proof.
  unfold dedup_first. rewrite !list_elem_of_In, <- in_rev, nodup_In, <- in_rev. done.
Qed.

Lemma nodup_sublist {A} dec (l : list A) : sublist (nodup dec l) l.
Proof.
  induction l as [|x l IH]; simpl; [constructor|].
  destruct (in_dec dec x l); [by constructor|by constructor].
Qed.

Lemma dedup_first_sublist l : sublist (dedup_first l) l.
Proof.
  unfold dedup_first. rewrite <- (rev_involutive l) at 2.
  apply sublist_rev. apply nodup_sublist.
Qed.

Lemma dedup_first_NoDup_id l : NoDup l -> dedup_first l = l.
Proof.
  intros H. unfold dedup_first. rewrite nodup_fixed_point.
  - apply rev_involutive.
  - apply NoDup_rev, NoDup_ListNoDup, H.
Qed.

Lemma label_pieces_wf s : Forall label_wf (label_pieces s).
Proof.
  unfold label_pieces.
  pose proof (split_sep_pieces comma (strip (py_or_empty s))) as Hp.
  induction Hp as [|p ps Hp _ IH]; simpl; [constructor|].
  destruct (is_empty (strip p)) eqn:He; simpl; [done|]. constructor; [|done].
  split; [intros E; rewrite E in He; discriminate|]. split; [auto with py|].
  intros Hc. apply Hp. destruct (strip_shape p) as (a & b & Hab & _).
  rewrite Hab. set_solver.
Qed.

Lemma split_sep_empty sep : split_sep sep [] = [[]].
Proof. done. Qed.

Lemma pieces_of_wf l :
  Forall label_wf l -> List.filter (fun x => negb (is_empty x)) (map strip l) = l.
Proof.
  induction 1 as [|x l (Hne & Hs & _) _ IH]; [done|]. simpl. rewrite Hs.
  destruct x; [done|]. simpl. by rewrite IH.
Qed.

Lemma normalize_join l :
  NoDup l -> Forall label_wf l -> normalize_labels (Some (join [comma] l)) = l.
Proof.
  intros Hnd Hwf. unfold normalize_labels. simpl.
  destruct l as [|x l']; [done|].
  rewrite strip_join; [|done|by eapply Forall_impl; [done|intros ? (? & ? & _)]].
  destruct (is_empty (join [comma] (x :: l'))) eqn:He.
  { apply is_empty_spec in He. inversion Hwf as [|? ? (Hx & _) _]; subst.
    destruct l'; [done|]. rewrite join_cons_cons in He.
    by apply app_eq_nil in He as [? _]. }
  rewrite split_join; [|done|by eapply Forall_impl; [done|intros ? (? & ? & ?)]].
  rewrite fold_normalize_step, fold_dedup_step.
  rewrite pieces_of_wf by done. by apply dedup_first_NoDup_id.
Qed.

Lemma normalize_labels_eq_dedup s : normalize_labels s = dedup_first (label_pieces s).
Proof.
  unfold normalize_labels, label_pieces.
  destruct (is_empty (strip (py_or_empty s))) eqn:He.
  - apply is_empty_spec in He. by rewrite He.
  - by rewrite fold_normalize_step, fold_dedup_step.
Qed.

(** C6: the loop of [normalize_labels] computes the first occurrence of
    every stripped non-empty piece of the comma split, in order: it
    equals [dedup_first] of the pieces. *)
Theorem normalize_labels_ref s : normalize_labels s = dedup_first (label_pieces s).
Proof. intros; apply normalize_labels_eq_dedup; assumption. Qed.

Lemma NoDup_normalize_labels s : NoDup (normalize_labels s).
Proof. rewrite normalize_labels_eq_dedup. apply dedup_first_NoDup. Qed.

(** C3: [normalize_labels] never returns a label twice. *)
Theorem normalize_labels_NoDup s : NoDup (normalize_labels s).
Proof. intros; apply NoDup_normalize_labels; assumption. Qed.

Lemma Forall_wf_normalize_labels s : Forall label_wf (normalize_labels s).
Proof.
  rewrite normalize_labels_eq_dedup. apply Forall_forall. intros x Hx.
  rewrite elem_of_dedup_first in Hx.
  exact (proj1 (Forall_forall _ _) (label_pieces_wf s) x Hx).
Qed.

(** C17: every label [normalize_labels] returns is non-empty, has no
    surrounding whitespace and contains no comma. *)
Theorem normalize_labels_wf s : Forall label_wf (normalize_labels s).
Proof. intros; apply Forall_wf_normalize_labels; assumption. Qed.

(** The labels come out in the order of their first occurrence in the
    input: the result is a sublist of the stripped non-empty pieces, and
    it holds every one of them. *)
Theorem normalize_labels_order s :
  sublist (normalize_labels s) (label_pieces s) /\
  (forall x, x ∈ normalize_labels s <-> x ∈ label_pieces s).
Proof.
  rewrite normalize_labels_eq_dedup. split; [apply dedup_first_sublist|].
  intros x. apply elem_of_dedup_first.
Qed.

(** C11: normalisation is idempotent: normalising the comma-join of a
    normalised label list gives the same list. *)
Theorem normalize_labels_idem s :
  normalize_labels (Some (join ⟪","⟫ (normalize_labels s))) = normalize_labels s.
Proof.
  apply normalize_join; [apply NoDup_normalize_labels|apply Forall_wf_normalize_labels].
Qed.

End Labels.
