(* ===== verification/Kind.v ===== *)
(** * Kind classifier: [kind_from_labels] and [ensure_primary_label]
      (create_issues.py, lines 54-68)

    [kind_from_labels] tests the set of labels for "bug", "db" and "docs"
    in that order and falls back to "feature"; the Python [set] is a
    [gset].  [ensure_primary_label] puts the kind in front of the labels
    when it is not one of them.

    The abstract specification is the closed enumeration [issue_kind]
    with a priority order; [kind_from_labels] refines it.  The theorems
    show the priority (the highest-ranked kind present wins), and that the
    kind label is present, first when inserted, and never duplicated. *)

From S2P Require Import Prelude PyStr Labels.

Module Kind.

(** ** The code *)

Definition kind_from_labels (labels : list ustr) : ustr :=
  let labs : gset ustr := list_to_set labels in
  if bool_decide (⟪"bug"⟫ ∈ labs) then ⟪"bug"⟫
  else if bool_decide (⟪"db"⟫ ∈ labs) then ⟪"db"⟫
  else if bool_decide (⟪"docs"⟫ ∈ labs) then ⟪"docs"⟫
  else ⟪"feature"⟫.

Definition ensure_primary_label (labels : list ustr) (kind : ustr) : list ustr :=
  let labs := labels in
  if negb (list_in kind labs) then kind :: labs else labs.

(** ** The abstract specification *)

Inductive issue_kind := Bug | Db | Docs | Feature.

#[export] Instance issue_kind_eq_dec : EqDecision issue_kind.
Proof. solve_decision. Defined.

Definition kind_name (k : issue_kind) : ustr :=
  match k with
  | Bug => ⟪"bug"⟫
  | Db => ⟪"db"⟫
  | Docs => ⟪"docs"⟫
  | Feature => ⟪"feature"⟫
  end.

(** Rank in the priority order: a lower rank wins. *)
Definition kind_rank (k : issue_kind) : nat :=
  match k with Bug => 0 | Db => 1 | Docs => 2 | Feature => 3 end.

(** The first kind of the priority list whose name is a label;
    [Feature] when there is none. *)
Definition kind_spec (labels : list ustr) : issue_kind :=
  match List.find (fun k => list_in (kind_name k) labels) [Bug; Db; Docs] with
  | Some k => k
  | None => Feature
  end.

(** The labels of an issue: the normalised labels with the kind
    ensured (lines 191-195 of the source). *)
Definition primary_labels (raw : option ustr) : list ustr :=
  let labels := Labels.normalize_labels raw in
  ensure_primary_label labels (kind_from_labels labels).

(** ** Lemmas *)

Lemma kind_name_inj k1 k2 : kind_name k1 = kind_name k2 -> k1 = k2.
Proof. destruct k1, k2; vm_compute; congruence. Qed.

Lemma elem_of_labs (x : ustr) (l : list ustr) :
  x ∈ (list_to_set l : gset ustr) <-> x ∈ l.
Proof. apply elem_of_list_to_set. Qed.

Lemma kind_name_wf k : Labels.label_wf (kind_name k).
Proof.
  unfold Labels.label_wf. destruct k; vm_compute;
    (split; [discriminate|split; [reflexivity|]]); set_solver.
Qed.

(** ** Properties *)

Lemma kind_from_labels_eq labels :
  kind_from_labels labels = kind_name (kind_spec labels).
Proof.
  unfold kind_from_labels, kind_spec, list_in. simpl.
  repeat case_bool_decide; set_solver.
Qed.

(** C4: the classification is total and respects the priority
    bug > db > docs > feature: the result is the kind [k] exactly when
    [k]'s label is present (or [k] is feature) and no label of a kind of
    higher priority is. *)
Theorem kind_from_labels_priority labels k :
  kind_from_labels labels = kind_name k <->
  (kind_name k ∈ labels \/ k = Feature) /\
  (forall k', kind_rank k' < kind_rank k -> kind_name k' ∉ labels).
Proof.
  rewrite kind_from_labels_eq. unfold kind_spec, list_in. simpl.
  split.
  - intros Hk%kind_name_inj. subst k.
    repeat case_bool_decide; simpl;
      (split; [tauto|intros []; simpl; intros; try lia; done]).
  - intros [Hin Hhi]. f_equal.
    assert (HB : k <> Bug -> kind_name Bug ∉ labels)
      by (intros; apply Hhi; destruct k; simpl; try lia; done).
    assert (HD : k <> Bug -> k <> Db -> kind_name Db ∉ labels)
      by (intros; apply Hhi; destruct k; simpl; try lia; done).
    assert (HO : k = Feature -> kind_name Docs ∉ labels)
      by (intros ->; apply Hhi; simpl; lia).
    destruct k; repeat case_bool_decide; simpl in *; naive_solver.
Qed.

Lemma ensure_primary_label_elem l k x :
  x ∈ ensure_primary_label l k <-> x = k \/ x ∈ l.
Proof.
  unfold ensure_primary_label, list_in. case_bool_decide; simpl; set_solver.
Qed.

Lemma ensure_primary_label_NoDup l k : NoDup l -> NoDup (ensure_primary_label l k).
Proof.
  unfold ensure_primary_label, list_in. case_bool_decide; simpl; [done|].
  intros. by constructor.
Qed.

Lemma ensure_primary_label_sublist l k : sublist l (ensure_primary_label l k).
Proof.
  unfold ensure_primary_label, list_in. case_bool_decide; simpl; [done|].
  by apply sublist_cons.
Qed.

Lemma primary_labels_props raw :
  let labels := Labels.normalize_labels raw in
  let kind := kind_from_labels labels in
  let r := primary_labels raw in
  NoDup r /\ Forall Labels.label_wf r /\ kind ∈ r /\ sublist labels r /\
  (kind ∉ labels -> head r = Some kind).
Proof.
  intros labels kind r. unfold r, primary_labels. fold labels kind.
  split; [apply ensure_primary_label_NoDup, Labels.NoDup_normalize_labels|].
  split.
  { apply Forall_forall. intros x [->|Hx]%ensure_primary_label_elem.
    - unfold kind. rewrite kind_from_labels_eq. apply kind_name_wf.
    - exact (proj1 (Forall_forall _ _) (Labels.Forall_wf_normalize_labels raw) x Hx). }
  split; [apply ensure_primary_label_elem; by left|].
  split; [apply ensure_primary_label_sublist|].
  intros Hk. unfold ensure_primary_label, list_in. by rewrite bool_decide_false.
Qed.

(** C5: the final label list of a row has no duplicates, only
    well-formed labels, contains the kind label, keeps the normalised
    labels in their order, and starts with the kind label whenever the
    kind label had to be inserted. *)
Theorem primary_labels_spec raw :
  let labels := Labels.normalize_labels raw in
  let kind := kind_from_labels labels in
  let r := primary_labels raw in
  NoDup r /\ Forall Labels.label_wf r /\ kind ∈ r /\ sublist labels r /\
  (kind ∉ labels -> head r = Some kind).
Proof. intros; apply primary_labels_props; assumption. Qed.

(** Witness: with labels "db" and "docs", db wins over docs. *)
Lemma kind_from_labels_priority_witness :
  ((kind_name Db ∈ [⟪"docs"⟫; ⟪"db"⟫] \/ Db = Feature) /\
   (forall k', kind_rank k' < kind_rank Db -> kind_name k' ∉ [⟪"docs"⟫; ⟪"db"⟫])) /\
  kind_from_labels [⟪"docs"⟫; ⟪"db"⟫] = kind_name Db.
Proof.
  assert (H : (kind_name Db ∈ [⟪"docs"⟫; ⟪"db"⟫] \/ Db = Feature) /\
              (forall k', kind_rank k' < kind_rank Db -> kind_name k' ∉ [⟪"docs"⟫; ⟪"db"⟫])).
  { split; [left; decide_vm|].
    intros [] Hk; simpl in Hk; try lia. decide_vm. }
  split; [exact H|]. apply (proj2 (kind_from_labels_priority _ Db)). exact H.
Defined.

(** Witness: the labels "vendor, ,vendor" normalise to "vendor"; the kind
    feature is not among them, so it is inserted first. *)
Lemma primary_labels_spec_witness :
  let labels := Labels.normalize_labels (Some ⟪"vendor, ,vendor"⟫) in
  (kind_from_labels labels ∉ labels) /\
  head (primary_labels (Some ⟪"vendor, ,vendor"⟫)) = Some ⟪"feature"⟫.
Proof.
  intros labels.
  assert (Hk : kind_from_labels labels ∉ labels) by decide_vm.
  split; [exact Hk|].
  destruct (primary_labels_spec (Some ⟪"vendor, ,vendor"⟫)) as (_ & _ & _ & _ & H).
  rewrite (H Hk). vm_compute. reflexivity.
Defined.

End Kind.
