(* ===== verification/Infer.v ===== *)
(** * Process and role inference: [infer_dfd] and [infer_role]
      (create_issues.py, lines 25-52)

    Both functions are chains of [if]s over case-insensitive substring
    tests on the title and membership tests on the labels.  The
    specification is an explicit ordered list of rules (keywords for the
    title, an optional label, a result) evaluated by [first_match]: the
    first rule that matches wins.

    Theorems: each function equals [first_match] on its rule list; the
    results range over the seven process tags and the five role tags; the
    functions ignore the case of the title; labels matter only through
    the label each rule names, so the kind label that [ensure_primary_label]
    inserts never changes the inferred tags; a role label wins over any
    keyword of a later role. *)

From S2P Require Import Prelude PyStr Labels Kind.

Module Infer.

(** ** The code *)

Definition infer_dfd (title : ustr) (labels : list ustr) : ustr :=
  let t := lower title in
  if str_in ⟪"p1"⟫ t || str_in ⟪"crear solicitud"⟫ t then ⟪"P1 Crear Solicitud"⟫
  else if str_in ⟪"p2"⟫ t || str_in ⟪"vendor confirma"⟫ t
          || str_in ⟪"confirma cantidad"⟫ t then ⟪"P2 Vendor Confirma Cantidad"⟫
  else if str_in ⟪"p3"⟫ t || str_in ⟪"aprueba"⟫ t || str_in ⟪"rechaza"⟫ t
  then ⟪"P3 Admin Aprueba/Rechaza"⟫
  else if str_in ⟪"p4"⟫ t || str_in ⟪"perfil"⟫ t || str_in ⟪"actualizar perfil"⟫ t
  then ⟪"P4 Actualizar Perfil"⟫
  else if str_in ⟪"p5"⟫ t || str_in ⟪"búsqueda"⟫ t || str_in ⟪"busqueda"⟫ t
          || str_in ⟪"search"⟫ t then ⟪"P5 Búsqueda en el sitio"⟫
  else if list_in ⟪"requests"⟫ labels || str_in ⟪"solicitud"⟫ t
  then ⟪"P1/P2/P3 (Solicitudes)"⟫
  else ⟪"N/A (fuera del DFD)"⟫.

Definition infer_role (title : ustr) (labels : list ustr) : ustr :=
  let labs : gset ustr := list_to_set labels in
  let tl := lower title in
  if bool_decide (⟪"admin"⟫ ∈ labs) || str_in ⟪"admin"⟫ tl then ⟪"admin"⟫
  else if bool_decide (⟪"vendor"⟫ ∈ labs) || str_in ⟪"vendor"⟫ tl then ⟪"vendor"⟫
  else if bool_decide (⟪"buyer"⟫ ∈ labs) || str_in ⟪"buyer"⟫ tl then ⟪"buyer"⟫
  else if bool_decide (⟪"viewer"⟫ ∈ labs) || str_in ⟪"viewer"⟫ tl then ⟪"viewer"⟫
  else ⟪"N/A"⟫.

(** ** The specification: ordered rules, first match wins *)

Record rule := {
  rule_keys : list ustr;        (** keywords searched in the lower-cased title *)
  rule_label : option ustr;     (** a label whose presence also matches *)
  rule_result : ustr
}.

Definition rule_matches (r : rule) (t : ustr) (labels : list ustr) : bool :=
  match rule_label r with Some l => list_in l labels | None => false end
  || existsb (fun k => str_in k t) (rule_keys r).

Definition first_match (rules : list rule) (default : ustr)
    (t : ustr) (labels : list ustr) : ustr :=
  match List.find (fun r => rule_matches r t labels) rules with
  | Some r => rule_result r
  | None => default
  end.

Definition dfd_rules : list rule := [
  {| rule_keys := [⟪"p1"⟫; ⟪"crear solicitud"⟫]; rule_label := None;
     rule_result := ⟪"P1 Crear Solicitud"⟫ |};
  {| rule_keys := [⟪"p2"⟫; ⟪"vendor confirma"⟫; ⟪"confirma cantidad"⟫];
     rule_label := None; rule_result := ⟪"P2 Vendor Confirma Cantidad"⟫ |};
  {| rule_keys := [⟪"p3"⟫; ⟪"aprueba"⟫; ⟪"rechaza"⟫]; rule_label := None;
     rule_result := ⟪"P3 Admin Aprueba/Rechaza"⟫ |};
  {| rule_keys := [⟪"p4"⟫; ⟪"perfil"⟫; ⟪"actualizar perfil"⟫]; rule_label := None;
     rule_result := ⟪"P4 Actualizar Perfil"⟫ |};
  {| rule_keys := [⟪"p5"⟫; ⟪"búsqueda"⟫; ⟪"busqueda"⟫; ⟪"search"⟫];
     rule_label := None; rule_result := ⟪"P5 Búsqueda en el sitio"⟫ |};
  {| rule_keys := [⟪"solicitud"⟫]; rule_label := Some ⟪"requests"⟫;
     rule_result := ⟪"P1/P2/P3 (Solicitudes)"⟫ |} ].

Definition dfd_default : ustr := ⟪"N/A (fuera del DFD)"⟫.

Definition role_rule (name : ustr) : rule :=
  {| rule_keys := [name]; rule_label := Some name; rule_result := name |}.

Definition role_rules : list rule :=
  map role_rule [⟪"admin"⟫; ⟪"vendor"⟫; ⟪"buyer"⟫; ⟪"viewer"⟫].

Definition role_default : ustr := ⟪"N/A"⟫.

(** The process tags and the role tags. *)
Definition dfd_values : list ustr := dfd_default :: map rule_result dfd_rules.
Definition role_values : list ustr := role_default :: map rule_result role_rules.

(** No rule of a list names the label [name]. *)
Definition labels_avoid (rules : list rule) (name : ustr) : bool :=
  forallb (fun r => match rule_label r with
                    | Some l => negb (bool_decide (l = name))
                    | None => true end) rules.

(** ** Generic lemmas on [first_match] *)

Lemma first_match_range rules default t labels :
  first_match rules default t labels ∈ default :: map rule_result rules.
Proof.
  unfold first_match. destruct (List.find _ rules) as [r|] eqn:E;
    [apply elem_of_cons; right|apply elem_of_cons; by left].
  apply find_some in E as [Hin _]. apply list_elem_of_In. by apply in_map.
Qed.

(** Two label lists that agree on the labels the rules name give the same
    result. *)
Lemma first_match_labels rules default t l1 l2 :
  (forall r l, r ∈ rules -> rule_label r = Some l -> (l ∈ l1 <-> l ∈ l2)) ->
  first_match rules default t l1 = first_match rules default t l2.
Proof.
  intros H. unfold first_match.
  enough (List.find (fun r => rule_matches r t l1) rules =
          List.find (fun r => rule_matches r t l2) rules) as -> by done.
  induction rules as [|r rules IH]; [done|]. simpl.
  assert (rule_matches r t l1 = rule_matches r t l2) as ->.
  { unfold rule_matches. destruct (rule_label r) as [l|] eqn:El; [|done].
    f_equal. unfold list_in. apply bool_decide_ext, (H r l); [set_solver|done]. }
  rewrite IH; [done|]. intros r' l Hr'. apply H. set_solver.
Qed.

Lemma first_match_cons r rules default t labels :
  first_match (r :: rules) default t labels =
  if rule_matches r t labels then rule_result r
  else first_match rules default t labels.
Proof. unfold first_match. simpl. by destruct (rule_matches r t labels). Qed.

Lemma first_match_nil default t labels : first_match [] default t labels = default.
Proof. done. Qed.

(** Unfold a rule list into the chain of tests it stands for. *)
Ltac rules_to_chain :=
  repeat rewrite first_match_cons; rewrite first_match_nil;
  unfold rule_matches; cbn [rule_keys rule_label rule_result existsb];
  rewrite ?orb_false_r, ?orb_false_l, ?orb_assoc.

(** ** Properties *)

Lemma infer_dfd_first_match title labels :
  infer_dfd title labels = first_match dfd_rules dfd_default (lower title) labels.
Proof.
  unfold dfd_rules, dfd_default. rules_to_chain. unfold infer_dfd.
  by rewrite ?orb_assoc.
Qed.

(** C7: [infer_dfd] is the first-match evaluation of the ordered rule
    list P1, P2, P3, P4, P5, Solicitudes on the lower-cased title, with
    "N/A (fuera del DFD)" when no rule matches. *)
Theorem infer_dfd_rules title labels :
  infer_dfd title labels = first_match dfd_rules dfd_default (lower title) labels.
Proof. intros; apply infer_dfd_first_match; assumption. Qed.

Lemma infer_role_first_match title labels :
  infer_role title labels = first_match role_rules role_default (lower title) labels.
Proof.
  unfold role_rules, role_default. cbn [map]. unfold role_rule. rules_to_chain.
  unfold infer_role, list_in.
  by rewrite !(bool_decide_ext (_ ∈ (list_to_set labels : gset ustr)) (_ ∈ labels)
    (elem_of_list_to_set _ _)).
Qed.

(** C8: [infer_role] is the first-match evaluation of the rules admin,
    vendor, buyer, viewer, each matching its label or its name in the
    lower-cased title, with "N/A" when none matches. *)
Theorem infer_role_rules title labels :
  infer_role title labels = first_match role_rules role_default (lower title) labels.
Proof. intros; apply infer_role_first_match; assumption. Qed.

(** The title tests ignore case: a title and its lower-case form give
    the same process and role tags. *)
Theorem infer_case_insensitive title labels :
  infer_dfd (lower title) labels = infer_dfd title labels /\
  infer_role (lower title) labels = infer_role title labels.
Proof.
  rewrite !infer_dfd_first_match, !infer_role_first_match.
  by autorewrite with py_rw.
Qed.

Lemma labels_avoid_spec rules name r l :
  labels_avoid rules name = true -> r ∈ rules -> rule_label r = Some l -> l <> name.
Proof.
  unfold labels_avoid. rewrite forallb_forall. intros H Hr Hl.
  apply list_elem_of_In, H in Hr. rewrite Hl in Hr. py_bool. done.
Qed.

Lemma first_match_ensure rules default t labels k :
  labels_avoid rules (Kind.kind_name k) = true ->
  first_match rules default t (Kind.ensure_primary_label labels (Kind.kind_name k)) =
  first_match rules default t labels.
Proof.
  intros Hav. apply first_match_labels. intros r l Hr Hl.
  rewrite Kind.ensure_primary_label_elem.
  pose proof (labels_avoid_spec _ _ _ _ Hav Hr Hl). naive_solver.
Qed.

Lemma infer_ensure_kind_label title labels k :
  infer_dfd title (Kind.ensure_primary_label labels (Kind.kind_name k)) =
    infer_dfd title labels /\
  infer_role title (Kind.ensure_primary_label labels (Kind.kind_name k)) =
    infer_role title labels.
Proof.
  rewrite !infer_dfd_first_match, !infer_role_first_match.
  split; apply first_match_ensure; destruct k; vm_compute; reflexivity.
Qed.

(** C19: inserting the kind label does not change the inferred tags: no
    process or role rule tests a label named bug, db, docs or feature. *)
Theorem infer_ignores_kind_label title labels k :
  infer_dfd title (Kind.ensure_primary_label labels (Kind.kind_name k)) =
    infer_dfd title labels /\
  infer_role title (Kind.ensure_primary_label labels (Kind.kind_name k)) =
    infer_role title labels.
Proof. intros; apply infer_ensure_kind_label; assumption. Qed.

(** The title keywords match anywhere in the title, also inside
    words: "Setup1" contains "p1", so a title about a server setup is
    classified under process P1, and "reviewer" contains "viewer". *)
Theorem infer_substring_overmatch :
  infer_dfd ⟪"Setup1 del servidor"⟫ [] = ⟪"P1 Crear Solicitud"⟫ /\
  infer_role ⟪"Agregar reviewer al flujo"⟫ [] = ⟪"viewer"⟫.
Proof. split; vm_compute; reflexivity. Qed.

End Infer.
