(* ===== verification/Body.v ===== *)
(** * Body template engine: [body_feature], [body_docs], [body_db],
      [body_bug] and [build_body] (create_issues.py, lines 70-163)

    Each template is an f-string: fixed text with the description (and,
    for a feature, the process tag and the role, the role twice)
    interpolated verbatim.  The fixed pieces [<kind>_t<i>] are the
    f-string's literal segments, in order.  [build_body] dispatches on
    the kind string, with the feature template as the default.

    The specification is a view of a body ([body_view]): which template,
    with which interpolated values.  [parse_body] reads a body back into
    its view.  Theorems: parsing a rendered body gives back its view
    when the tags are ones [infer_dfd] and [infer_role] can produce (the
    round trip); no two kinds share a template shape; [build_body]
    renders the view its kind selects, on every branch. *)

From S2P Require Import Prelude PyStr Labels Kind Infer.

Module Body.

(** ** The templates *)

Definition feature_t0 : ustr := ⟪"## Resumen corto
"⟫.
Definition feature_t1 : ustr := ⟪"

## Proceso DFD relacionado
"⟫.
Definition feature_t2 : ustr := ⟪"

## Rol principal
"⟫.
Definition feature_t3 : ustr := ⟪"

## Historia de usuario
Como "⟫.
Definition feature_t4 : ustr := ⟪" quiero ______ para ______.

## Criterios de aceptación
- [ ] Validación server-side aplicada
- [ ] Control de acceso por rol verificado
- [ ] Se registra en audit_logs cuando corresponde
- [ ] UI/flujo probado en local

## UI / Mockup (si aplica)
Link o captura: ______

## Impacto en DB (si aplica)
Tablas/acciones: ______

## Definition of Done
- [ ] Funciona según criterios
- [ ] Sin accesos indebidos por rol
- [ ] Evidencia/captura si aplica
"⟫.

Definition body_feature (desc dfd role : ustr) : ustr :=
  feature_t0 ++ desc ++ feature_t1 ++ dfd ++ feature_t2 ++ role ++ feature_t3 ++ role ++ feature_t4.

Definition docs_t0 : ustr := ⟪"## Entregable / Documento
"⟫.
Definition docs_t1 : ustr := ⟪"

## Qué se va a agregar o actualizar
- ______

## Ubicación en el repositorio
- ______ (ej. docs/dfd/, docs/mockups/, README.md)

## Checklist
- [ ] Link o captura verificable incluida
- [ ] Formato y subtítulos correctos
"⟫.

Definition body_docs (desc : ustr) : ustr :=
  docs_t0 ++ desc ++ docs_t1.

Definition db_t0 : ustr := ⟪"## Objetivo del cambio
"⟫.
Definition db_t1 : ustr := ⟪"

## Tablas/objetos afectados
- users
- requests
- request_events
- audit_logs

## Migración / Script
- Archivo: ______
- Pasos: ______

## Rollback
- ______
"⟫.

Definition body_db (desc : ustr) : ustr :=
  db_t0 ++ desc ++ db_t1.

Definition bug_t0 : ustr := ⟪"## Resumen del bug
"⟫.
Definition bug_t1 : ustr := ⟪"

## Pasos para reproducir
1. ______
2. ______
3. ______

## Comportamiento esperado
______

## Comportamiento actual
______

## Logs / Capturas
______

## Entorno
- Local (MAMP) / Staging / Producción: ______
"⟫.

Definition body_bug (desc : ustr) : ustr :=
  bug_t0 ++ desc ++ bug_t1.

Definition build_body (kind desc dfd role : ustr) : ustr :=
  if bool_decide (kind = ⟪"docs"⟫) then body_docs desc
  else if bool_decide (kind = ⟪"db"⟫) then body_db desc
  else if bool_decide (kind = ⟪"bug"⟫) then body_bug desc
  else body_feature desc dfd role.

(** ** The specification: views of a body, and their parser *)

Inductive body_view :=
| FeatureBody (desc dfd role : ustr)
| DocsBody (desc : ustr)
| DbBody (desc : ustr)
| BugBody (desc : ustr).

Definition render (v : body_view) : ustr :=
  match v with
  | FeatureBody d p r => body_feature d p r
  | DocsBody d => body_docs d
  | DbBody d => body_db d
  | BugBody d => body_bug d
  end.

(** The view [build_body] selects for a kind string. *)
Definition view_of_kind (kind desc dfd role : ustr) : body_view :=
  if bool_decide (kind = Kind.kind_name Kind.Docs) then DocsBody desc
  else if bool_decide (kind = Kind.kind_name Kind.Db) then DbBody desc
  else if bool_decide (kind = Kind.kind_name Kind.Bug) then BugBody desc
  else FeatureBody desc dfd role.

Fixpoint strip_prefix (p s : ustr) : option ustr :=
  match p, s with
  | [], _ => Some s
  | a :: p', b :: s' => if Z.eqb a b then strip_prefix p' s' else None
  | _ :: _, [] => None
  end.

(** Reversal in linear time ([rev_append]), as the parser runs on every
    candidate tail. *)
Definition strip_suffix (x s : ustr) : option ustr :=
  match strip_prefix (rev_append x []) (rev_append s []) with
  | Some r => Some (rev_append r [])
  | None => None
  end.

(** What follows the description in a feature body. *)
Definition feature_tail (dfd role : ustr) : ustr :=
  feature_t1 ++ dfd ++ feature_t2 ++ role ++ feature_t3 ++ role ++ feature_t4.

Definition tag_pairs : list (ustr * ustr) := list_prod Infer.dfd_values Infer.role_values.

Fixpoint parse_feature_tail (cands : list (ustr * ustr)) (rest : ustr) : option body_view :=
  match cands with
  | [] => None
  | (p, r) :: cs =>
      match strip_suffix (feature_tail p r) rest with
      | Some d => Some (FeatureBody d p r)
      | None => parse_feature_tail cs rest
      end
  end.

Definition parse_body (b : ustr) : option body_view :=
  match strip_prefix bug_t0 b with
  | Some rest => option_map BugBody (strip_suffix bug_t1 rest)
  | None =>
    match strip_prefix db_t0 b with
    | Some rest => option_map DbBody (strip_suffix db_t1 rest)
    | None =>
      match strip_prefix docs_t0 b with
      | Some rest => option_map DocsBody (strip_suffix docs_t1 rest)
      | None =>
        match strip_prefix feature_t0 b with
        | Some rest => parse_feature_tail tag_pairs rest
        | None => None
        end
      end
    end
  end.

(** The views [infer_dfd] and [infer_role] can lead to. *)
Definition view_ok (v : body_view) : Prop :=
  match v with
  | FeatureBody _ p r => p ∈ Infer.dfd_values /\ r ∈ Infer.role_values
  | _ => True
  end.

Definition kind_head (k : Kind.issue_kind) : ustr :=
  match k with
  | Kind.Bug => bug_t0 | Kind.Db => db_t0 | Kind.Docs => docs_t0 | Kind.Feature => feature_t0
  end.

Definition separated (a b : ustr * ustr) : bool :=
  bool_decide (a = b) ||
  (negb (opt_is_some (strip_suffix (feature_tail a.1 a.2) (feature_tail b.1 b.2))) &&
   negb (opt_is_some (strip_suffix (feature_tail b.1 b.2) (feature_tail a.1 a.2)))).

(** The kind of template of a view, and what follows its first line. *)
Definition view_kind (v : body_view) : Kind.issue_kind :=
  match v with
  | FeatureBody _ _ _ => Kind.Feature | DocsBody _ => Kind.Docs
  | DbBody _ => Kind.Db | BugBody _ => Kind.Bug
  end.

Definition view_rest (v : body_view) : ustr :=
  match v with
  | FeatureBody d p r => d ++ feature_tail p r
  | DocsBody d => d ++ docs_t1 | DbBody d => d ++ db_t1 | BugBody d => d ++ bug_t1
  end.

(** ** Lemmas on prefixes and suffixes *)

Lemma strip_prefix_spec p s r : strip_prefix p s = Some r <-> s = p ++ r.
Proof.
  revert s. induction p as [|a p IH]; intros [|b s]; simpl.
  - split; congruence.
  - split; congruence.
  - split; [done|discriminate].
  - destruct (Z.eqb_spec a b) as [->|Hne]; [rewrite IH; split; congruence|].
    split; [done|congruence].
Qed.

Lemma strip_prefix_app p s : strip_prefix p (p ++ s) = Some s.
Proof. by apply strip_prefix_spec. Qed.

Lemma strip_prefix_None p s : ~ p `prefix_of` s -> strip_prefix p s = None.
Proof.
  intros H. destruct (strip_prefix p s) as [r|] eqn:E; [|done].
  apply strip_prefix_spec in E. exfalso. apply H. by exists r.
Qed.

Lemma strip_suffix_spec x s r : strip_suffix x s = Some r <-> s = r ++ x.
Proof.
  unfold strip_suffix. rewrite <- !rev_alt. split.
  - destruct (strip_prefix (rev x) (rev s)) as [r'|] eqn:E; [|done].
    intros [= <-]. rewrite <- rev_alt. apply strip_prefix_spec in E.
    apply (f_equal (@rev Z)) in E. rewrite rev_involutive, rev_app_distr in E.
    by rewrite rev_involutive in E.
  - intros ->. rewrite rev_app_distr, strip_prefix_app, <- rev_alt. by rewrite rev_involutive.
Qed.

Lemma strip_suffix_app x s : strip_suffix x (s ++ x) = Some s.
Proof. by apply strip_suffix_spec. Qed.

Lemma strip_suffix_None x s : ~ x `suffix_of` s -> strip_suffix x s = None.
Proof.
  intros H. destruct (strip_suffix x s) as [r|] eqn:E; [|done].
  apply strip_suffix_spec in E. exfalso. apply H. by exists r.
Qed.

(** Two strings neither of which is a prefix of the other are not both
    prefixes of one string. *)
Lemma prefix_incomparable (h1 h2 x : ustr) :
  ~ h1 `prefix_of` h2 -> ~ h2 `prefix_of` h1 -> ~ h1 `prefix_of` h2 ++ x.
Proof.
  intros H1 H2 H. destruct (prefix_weak_total h1 h2 (h2 ++ x)); [done|by exists x|done|done].
Qed.

Lemma suffix_incomparable (t1 t2 x : ustr) :
  ~ t1 `suffix_of` t2 -> ~ t2 `suffix_of` t1 -> ~ t1 `suffix_of` x ++ t2.
Proof.
  intros H1 H2 H. destruct (suffix_weak_total t1 t2 (x ++ t2)); [done|by exists x|done|done].
Qed.

Lemma strip_prefix_None_iff p s : strip_prefix p s = None <-> ~ p `prefix_of` s.
Proof.
  split; [|apply strip_prefix_None]. intros H [r Hr].
  apply strip_prefix_spec in Hr. congruence.
Qed.

Lemma strip_suffix_None_iff x s : strip_suffix x s = None <-> ~ x `suffix_of` s.
Proof.
  split; [|apply strip_suffix_None]. intros H [r Hr].
  apply strip_suffix_spec in Hr. congruence.
Qed.

(** A head that is incomparable with another cannot start a string that
    starts with the other. *)
Lemma strip_prefix_other h1 h2 x :
  strip_prefix h1 h2 = None -> strip_prefix h2 h1 = None ->
  strip_prefix h1 (h2 ++ x) = None.
Proof.
  rewrite !strip_prefix_None_iff. apply prefix_incomparable.
Qed.

Lemma strip_suffix_other t1 t2 x :
  strip_suffix t1 t2 = None -> strip_suffix t2 t1 = None ->
  strip_suffix t1 (x ++ t2) = None.
Proof.
  rewrite !strip_suffix_None_iff. apply suffix_incomparable.
Qed.

(** ** The finite facts the parser relies on, checked by evaluation *)

Lemma heads_incomparable k1 k2 :
  k1 <> k2 -> strip_prefix (kind_head k1) (kind_head k2) = None.
Proof. destruct k1, k2; intros; (done || vm_compute; reflexivity). Qed.

(** No feature tail of one pair of tags ends another. *)
Lemma tails_separated :
  forallb (fun a => forallb (fun b => separated a b) tag_pairs) tag_pairs = true.
Proof. vm_compute. reflexivity. Qed.

Lemma tag_pairs_separated a b : a ∈ tag_pairs -> b ∈ tag_pairs -> separated a b = true.
Proof.
  intros Ha Hb. pose proof tails_separated as H.
  apply forallb_forall with (x := a) in H; [|by apply list_elem_of_In].
  apply forallb_forall with (x := b) in H; [done|by apply list_elem_of_In].
Qed.

Lemma strip_suffix_self x : strip_suffix x x = Some [].
Proof. by apply strip_suffix_spec. Qed.

Lemma parse_feature_tail_correct cands d p r :
  (p, r) ∈ cands -> (forall c, c ∈ cands -> separated c (p, r) = true) ->
  parse_feature_tail cands (d ++ feature_tail p r) = Some (FeatureBody d p r).
Proof.
  induction cands as [|[p' r'] cs IH]; intros Hin Hsep;
    [by apply not_elem_of_nil in Hin|]. cbn [parse_feature_tail].
  pose proof (Hsep (p', r') (list_elem_of_here _ _)) as Hs.
  unfold separated in Hs. cbn [fst snd] in Hs.
  apply orb_true_iff in Hs as [Heq|Hs].
  - apply bool_decide_eq_true in Heq. injection Heq as -> ->.
    by rewrite strip_suffix_app.
  - apply andb_true_iff in Hs as [H1 H2].
    destruct (strip_suffix (feature_tail p' r') (feature_tail p r)) eqn:E1; [done|].
    destruct (strip_suffix (feature_tail p r) (feature_tail p' r')) eqn:E2; [done|].
    rewrite strip_suffix_other by done. apply IH.
    + apply elem_of_cons in Hin as [Heq|]; [|done].
      injection Heq as -> ->. by rewrite strip_suffix_self in E2.
    + intros c Hc. apply Hsep. by apply list_elem_of_further.
Qed.

Lemma render_head k d p r :
  render (view_of_kind (Kind.kind_name k) d p r) =
  kind_head k ++ match k with Kind.Feature => d ++ feature_tail p r
                | Kind.Bug => d ++ bug_t1 | Kind.Db => d ++ db_t1
                | Kind.Docs => d ++ docs_t1 end.
Proof.
  unfold view_of_kind. destruct k; repeat case_bool_decide;
    try match goal with
      | H : Kind.kind_name _ = Kind.kind_name _ |- _ =>
          apply Kind.kind_name_inj in H; discriminate
      | H : ?a ≠ ?a |- _ => by destruct H
      end;
    cbn [render kind_head];
    unfold body_bug, body_db, body_docs, body_feature, feature_tail; reflexivity.
Qed.

Lemma render_split v : render v = kind_head (view_kind v) ++ view_rest v.
Proof.
  destruct v; cbn [render view_kind view_rest kind_head];
    unfold body_bug, body_db, body_docs, body_feature, feature_tail; reflexivity.
Qed.

Lemma strip_prefix_head k k' x :
  k <> k' -> strip_prefix (kind_head k) (kind_head k' ++ x) = None.
Proof.
  intros Hne. apply strip_prefix_other; apply heads_incomparable; congruence.
Qed.

Lemma tag_pair_ok p r :
  p ∈ Infer.dfd_values -> r ∈ Infer.role_values -> (p, r) ∈ tag_pairs.
Proof.
  intros Hp Hr. apply list_elem_of_In, in_prod; by apply list_elem_of_In.
Qed.

(** ** Properties *)

Lemma build_body_render kind desc dfd role :
  build_body kind desc dfd role = render (view_of_kind kind desc dfd role).
Proof.
  unfold build_body, view_of_kind, Kind.kind_name.
  destruct (bool_decide (kind = ⟪"docs"⟫)); [reflexivity|].
  destruct (bool_decide (kind = ⟪"db"⟫)); [reflexivity|].
  destruct (bool_decide (kind = ⟪"bug"⟫)); reflexivity.
Qed.

(** C21: [build_body] renders the view its kind selects: the docs, db and
    bug templates for those kind strings and the feature template for
    every other string. *)
Theorem build_body_view kind desc dfd role :
  build_body kind desc dfd role = render (view_of_kind kind desc dfd role).
Proof. intros; apply build_body_render; assumption. Qed.

(** C9: round trip: the parser reads back the template, the description
    and (for a feature) the process and role tags from any rendered
    body whose tags are ones the inference can produce. *)
Theorem parse_render v : view_ok v -> parse_body (render v) = Some v.
Proof.
  intros Hok. unfold parse_body. rewrite render_split.
  change bug_t0 with (kind_head Kind.Bug). change db_t0 with (kind_head Kind.Db).
  change docs_t0 with (kind_head Kind.Docs).
  change feature_t0 with (kind_head Kind.Feature).
  destruct v as [d p r|d|d|d]; cbn [view_kind view_rest].
  - rewrite (strip_prefix_head Kind.Bug), (strip_prefix_head Kind.Db),
      (strip_prefix_head Kind.Docs), strip_prefix_app by discriminate.
    destruct Hok as [Hp Hr]. apply parse_feature_tail_correct; [by apply tag_pair_ok|].
    intros c Hc. by apply tag_pairs_separated, tag_pair_ok.
  - rewrite (strip_prefix_head Kind.Bug), (strip_prefix_head Kind.Db),
      strip_prefix_app by discriminate. by rewrite strip_suffix_app.
  - rewrite (strip_prefix_head Kind.Bug), strip_prefix_app by discriminate.
    by rewrite strip_suffix_app.
  - by rewrite strip_prefix_app, strip_suffix_app.
Qed.

(** C10: no two kinds share a template shape: bodies built for two
    different kinds differ, whatever the description and tags. *)
Theorem build_body_kinds_distinct k1 k2 d1 d2 p1 p2 r1 r2 :
  k1 <> k2 ->
  build_body (Kind.kind_name k1) d1 p1 r1 <> build_body (Kind.kind_name k2) d2 p2 r2.
Proof.
  intros Hne H. rewrite !build_body_render, !render_head in H.
  apply (f_equal (strip_prefix (kind_head k1))) in H.
  rewrite strip_prefix_app, strip_prefix_head in H by done. discriminate.
Qed.

(** Witness: a feature body for process P4 and role buyer reads back. *)
Lemma parse_render_witness :
  view_ok (FeatureBody ⟪"Editar datos"⟫ ⟪"P4 Actualizar Perfil"⟫ ⟪"buyer"⟫) /\
  parse_body (render (FeatureBody ⟪"Editar datos"⟫ ⟪"P4 Actualizar Perfil"⟫ ⟪"buyer"⟫)) =
    Some (FeatureBody ⟪"Editar datos"⟫ ⟪"P4 Actualizar Perfil"⟫ ⟪"buyer"⟫).
Proof.
  assert (H : view_ok (FeatureBody ⟪"Editar datos"⟫ ⟪"P4 Actualizar Perfil"⟫ ⟪"buyer"⟫))
    by (split; decide_vm).
  split; [exact H|]. exact (parse_render _ H).
Defined.

(** Witness: a bug body and a docs body always differ. *)
Lemma build_body_kinds_distinct_witness :
  Kind.Bug <> Kind.Docs /\
  build_body (Kind.kind_name Kind.Bug) ⟪"x"⟫ [] [] <>
    build_body (Kind.kind_name Kind.Docs) ⟪"x"⟫ [] [].
Proof.
  split; [discriminate|].
  exact (build_body_kinds_distinct Kind.Bug Kind.Docs _ _ _ _ _ _ ltac:(discriminate)).
Defined.

End Body.
