(* ===== verification/Tracker.v ===== *)
(** * The external tracker CLI, [run], and the process exit status
      (create_issues.py, lines 1-12 and 165-166)

    The script shells out to [gh] through [subprocess.run(cmd,
    capture_output=True, text=True)].  The tracker is an interface: a
    typeclass [Tracker] with a state (the remote repository) and an
    [exec] that answers a command line with a [proc_result].  Its one law
    is the range of a POSIX return code: an exit status (0 to 255) or
    minus a signal number.

    The script's effects are a state-and-exit monad [M] over a [world]:
    the tracker's state and the log of observable events (lines printed
    to stdout and stderr, and processes run with their return codes).  A
    computation ends normally, with [raise SystemExit(code)], or with an
    uncaught exception.  [run] is the script's wrapper: on a non-zero
    return code it echoes the captured output and raises [SystemExit].

    Theorems: [run]'s two outcomes, and the exit status of the process,
    which keeps the low 8 bits of the [SystemExit] code: a failing [gh]
    always makes the script fail, with the same status when [gh] exited
    normally and with [256 + rc] when [gh] was killed by a signal. *)

From S2P Require Import Prelude PyStr.
From Stdlib Require Import Lia.

Local Open Scope Z_scope.

(** [subprocess.CompletedProcess] with captured text output. *)
Record proc_result := {
  returncode : Z;
  stdout : ustr;
  stderr : ustr
}.

(** What the script needs from the issue tracker's CLI. *)
Class Tracker := {
  tr_state : Type;
  tr_exec : list ustr -> tr_state -> proc_result * tr_state;
  tr_rc_range : forall cmd st, -255 <= returncode (tr_exec cmd st).1 <= 255
}.

Inductive event :=
| Stdout (line : ustr)                  (** [print(line)] *)
| Stderr (line : ustr)                  (** [print(line, file=sys.stderr)] *)
| Exec (argv : list ustr) (rc : Z).     (** a process run and its return code *)

Inductive outcome (A : Type) :=
| Ok (a : A)
| SysExit (code : Z)                    (** [raise SystemExit(code)] *)
| Uncaught (exn : ustr).                (** an uncaught exception, by class name *)
Arguments Ok {A} a.
Arguments SysExit {A} code.
Arguments Uncaught {A} exn.

Section Monad.
Context `{T : Tracker}.

Record world := { w_tracker : tr_state; w_log : list event }.

Definition M (A : Type) : Type := world -> outcome A * world.

Definition ret {A} (a : A) : M A := fun w => (Ok a, w).

Definition bind {A B} (m : M A) (k : A -> M B) : M B :=
  fun w => match m w with
           | (Ok a, w') => k a w'
           | (SysExit c, w') => (SysExit c, w')
           | (Uncaught e, w') => (Uncaught e, w')
           end.

Definition emit (e : event) : M unit :=
  fun w => (Ok tt, {| w_tracker := w_tracker w; w_log := w_log w ++ [e] |}).

Definition py_print (s : ustr) : M unit := emit (Stdout s).
Definition py_eprint (s : ustr) : M unit := emit (Stderr s).

Definition raise_exit {A} (code : Z) : M A := fun w => (SysExit code, w).
Definition raise_uncaught {A} (exn : ustr) : M A := fun w => (Uncaught exn, w).

(** [subprocess.run(cmd, capture_output=True, text=True)]. *)
Definition exec (cmd : list ustr) : M proc_result :=
  fun w => let (p, st') := tr_exec cmd (w_tracker w) in
           (Ok p, {| w_tracker := st';
                     w_log := w_log w ++ [Exec cmd (returncode p)] |}).
End Monad.

Declare Scope py_monad_scope.
Delimit Scope py_monad_scope with pym.
Notation "x <- m ;; k" := (bind m (fun x => k))
  (at level 100, m at level 99, right associativity) : py_monad_scope.
Notation "m ;;; k" := (bind m (fun _ => k))
  (at level 100, right associativity) : py_monad_scope.
Open Scope py_monad_scope.

Section Run.
Context `{T : Tracker}.

(** [run(cmd)]. *)
Definition run (cmd : list ustr) : M ustr :=
  p <- exec cmd ;;
  if negb (returncode p =? 0) then
    (if negb (is_empty (strip (stdout p))) then py_print (strip (stdout p)) else ret tt) ;;;
    (if negb (is_empty (strip (stderr p))) then py_eprint (strip (stderr p)) else ret tt) ;;;
    raise_exit (returncode p)
  else ret (strip (stdout p)).

(** [gh_repo_from_cwd()]. *)
Definition gh_repo_from_cwd : M ustr :=
  run [⟪"gh"⟫; ⟪"repo"⟫; ⟪"view"⟫; ⟪"--json"⟫; ⟪"nameWithOwner"⟫; ⟪"-q"⟫;
       ⟪".nameWithOwner"⟫].

(** The echo of a failed command's output: the stripped stdout on
    stdout and the stripped stderr on stderr, each when non-empty. *)
Definition echo (p : proc_result) : list event :=
  (if is_empty (strip (stdout p)) then [] else [Stdout (strip (stdout p))]) ++
  (if is_empty (strip (stderr p)) then [] else [Stderr (strip (stderr p))]).
End Run.

(** The status of the Python process: [SystemExit(code)] exits with the
    low 8 bits of [code] (C's [exit]); an uncaught exception exits with 1. *)
Definition exit_status {A} (o : outcome A) : Z :=
  match o with
  | Ok _ => 0
  | SysExit c => Z.land c 255
  | Uncaught _ => 1
  end.

Section RunSpec.
Context `{T : Tracker}.

(** The world after [run] of [cmd] answered by [p]. *)
Definition after (w : world) (cmd : list ustr) (p : proc_result) (st' : tr_state)
    (extra : list event) : world :=
  {| w_tracker := st'; w_log := w_log w ++ [Exec cmd (returncode p)] ++ extra |}.

Lemma run_eq cmd w :
  let (p, st') := tr_exec cmd (w_tracker w) in
  run cmd w =
    if returncode p =? 0 then (Ok (strip (stdout p)), after w cmd p st' [])
    else (SysExit (returncode p), after w cmd p st' (echo p)).
Proof.
  unfold run, bind, exec. destruct (tr_exec cmd (w_tracker w)) as [p st'].
  unfold after, echo. destruct (returncode p =? 0); simpl; [by rewrite ?app_nil_r|].
  destruct (is_empty (strip (stdout p))), (is_empty (strip (stderr p)));
    simpl; unfold py_print, py_eprint, emit, raise_exit; simpl;
    by rewrite <- ?app_assoc.
Qed.

(** C14: [run] on both branches: a zero return code gives the stripped
    stdout and logs only the process; a non-zero one logs the process,
    echoes its stripped output (each stream only when non-empty) and
    raises [SystemExit] with the return code. *)
Theorem run_spec cmd w :
  let (p, st') := tr_exec cmd (w_tracker w) in
  run cmd w =
    if returncode p =? 0 then (Ok (strip (stdout p)), after w cmd p st' [])
    else (SysExit (returncode p), after w cmd p st' (echo p)).
Proof. intros; apply run_eq; assumption. Qed.

Lemma land_255_mod z : Z.land z 255 = z mod 256.
Proof. change 255 with (Z.ones 8). rewrite Z.land_ones by lia. reflexivity. Qed.

Lemma exit_status_nonzero rc :
  -255 <= rc <= 255 -> rc <> 0 ->
  1 <= exit_status (@SysExit unit rc) <= 255 /\
  (0 < rc -> exit_status (@SysExit unit rc) = rc) /\
  (rc < 0 -> exit_status (@SysExit unit rc) = 256 + rc).
Proof.
  intros Hr Hne. unfold exit_status. rewrite land_255_mod.
  split; [|split]; intros.
  - destruct (Z.lt_total rc 0) as [Hlt|[->|Hgt]]; [|done|].
    + rewrite <- (Z.mod_add rc 1 256), Z.mod_small; lia.
    + rewrite Z.mod_small; lia.
  - rewrite Z.mod_small; lia.
  - rewrite <- (Z.mod_add rc 1 256), Z.mod_small; lia.
Qed.

End RunSpec.
