(* ===== verification/Csv.v ===== *)
(** * The seed-file reader: [csv.DictReader] over a file opened with
      [newline=''] (create_issues.py, lines 179-183)

    The script reads its seed file with
    [open(args.seed, 'r', encoding='utf-8', newline='')] and iterates
    [csv.DictReader(f)].  This file models that pipeline after CPython
    3.12 (the [excel] dialect: delimiter [,], quote character the double quote (code 34),
    doubled quotes, no escape character, not strict):
    - [py_lines]: the lines of a text file with [newline=''] (universal
      newlines, line terminators kept);
    - [process_char]: the character automaton [parse_process_char] of
      [Modules/_csv.c], with its states, its field buffer and its
      [field_len] counter checked against [field_size_limit()]
      (131072);
    - [iternext]: one call of [Reader_iternext], feeding whole lines
      until a record is complete, and [reader_rows] the iteration of
      the reader until [StopIteration];
    - [make_dict] and [dict_reader]: [csv.DictReader] (header row, blank
      rows skipped, short rows padded with [None], surplus fields under
      the key [None]);
    - [read_seed]: the file, as the script sees it, as [seed_row]s or an
      exception.
    The escape-character states of the automaton are left out: the
    [excel] dialect has no escape character, so they are unreachable. *)

From S2P Require Import Prelude PyStr.
From Stdlib Require Import Lia.

Local Open Scope Z_scope.

Module Csv.

(** ** Characters and limits *)

Definition LF : Z := 10.
Definition CR : Z := 13.
Definition delimiter : Z := 44.
Definition quotechar : Z := 34.

(** [csv.field_size_limit()], its default value. *)
Definition field_limit : Z := 131072.

Definition is_nl (c : Z) : bool := (c =? LF) || (c =? CR).

(** ** Lines of a file opened with [newline='']

    Universal newlines: a line ends after LF, after CR LF, or after a CR
    not followed by LF; the terminator stays in the line.  [cur_rev] is
    the line read so far, reversed; a CR at its head waits for the next
    character to decide whether the line is over. *)
Definition pending_cr (cur_rev : ustr) : bool :=
  match cur_rev with d :: _ => d =? CR | [] => false end.

Fixpoint lines_from (cur_rev : ustr) (s : ustr) : list ustr :=
  match s with
  | [] => if is_empty cur_rev then [] else [reverse cur_rev]
  | c :: r =>
      if pending_cr cur_rev && negb (c =? LF) then reverse cur_rev :: lines_from [c] r
      else if c =? LF then reverse (c :: cur_rev) :: lines_from [] r
      else lines_from (c :: cur_rev) r
  end.

Definition py_lines (text : ustr) : list ustr := lines_from [] text.

(** ** The reader automaton ([_csv.c]) *)

Inductive pstate :=
| START_RECORD | START_FIELD | IN_FIELD | IN_QUOTED_FIELD
| QUOTE_IN_QUOTED_FIELD | EAT_CRNL.

#[export] Instance pstate_eq_dec : EqDecision pstate.
Proof. solve_decision. Defined.

(** A character of a line, or the end-of-line mark [EOL] the reader
    feeds after every line. *)
Inductive pinput := Ch (c : Z) | EOL.

(** The reader's parse state: the automaton state, the fields of the
    record so far, and the field buffer (kept reversed) with its length
    [field_len]. *)
Record reader := {
  state : pstate;
  fields : list ustr;
  field_rev : ustr;
  field_len : Z
}.

Inductive csv_error :=
| FieldTooLarge          (** "field larger than field limit (131072)" *)
| NewlineInUnquoted.     (** "new-line character seen in unquoted field" *)

(** [parse_reset]. *)
Definition reset : reader :=
  {| state := START_RECORD; fields := []; field_rev := []; field_len := 0 |}.

Definition set_state (s : pstate) (rd : reader) : reader :=
  {| state := s; fields := fields rd; field_rev := field_rev rd; field_len := field_len rd |}.

(** [parse_save_field]. *)
Definition save_field (rd : reader) : reader :=
  {| state := state rd; fields := fields rd ++ [reverse (field_rev rd)];
     field_rev := []; field_len := 0 |}.

(** [parse_add_char]: fails once the field holds [field_limit]
    characters. *)
Definition add_char (rd : reader) (c : Z) : csv_error + reader :=
  if field_limit <=? field_len rd then inl FieldTooLarge
  else inr {| state := state rd; fields := fields rd; field_rev := c :: field_rev rd;
              field_len := field_len rd + 1 |}.

Definition add_char_to (s : pstate) (rd : reader) (c : Z) : csv_error + reader :=
  match add_char rd c with inl e => inl e | inr rd' => inr (set_state s rd') end.

(** The [START_FIELD] case, also entered from [START_RECORD]. *)
Definition start_field (rd : reader) (i : pinput) : csv_error + reader :=
  match i with
  | EOL => inr (set_state START_RECORD (save_field rd))
  | Ch c =>
      if is_nl c then inr (set_state EAT_CRNL (save_field rd))
      else if c =? quotechar then inr (set_state IN_QUOTED_FIELD rd)
      else if c =? delimiter then inr (save_field rd)
      else add_char_to IN_FIELD rd c
  end.

(** [parse_process_char]. *)
Definition process_char (rd : reader) (i : pinput) : csv_error + reader :=
  match state rd with
  | START_RECORD =>
      match i with
      | EOL => inr rd
      | Ch c => if is_nl c then inr (set_state EAT_CRNL rd)
                else start_field (set_state START_FIELD rd) i
      end
  | START_FIELD => start_field rd i
  | IN_FIELD =>
      match i with
      | EOL => inr (set_state START_RECORD (save_field rd))
      | Ch c =>
          if is_nl c then inr (set_state EAT_CRNL (save_field rd))
          else if c =? delimiter then inr (set_state START_FIELD (save_field rd))
          else add_char rd c
      end
  | IN_QUOTED_FIELD =>
      match i with
      | EOL => inr rd
      | Ch c => if c =? quotechar then inr (set_state QUOTE_IN_QUOTED_FIELD rd)
                else add_char rd c
      end
  | QUOTE_IN_QUOTED_FIELD =>
      match i with
      | EOL => inr (set_state START_RECORD (save_field rd))
      | Ch c =>
          if c =? quotechar then add_char_to IN_QUOTED_FIELD rd c
          else if c =? delimiter then inr (set_state START_FIELD (save_field rd))
          else if is_nl c then inr (set_state EAT_CRNL (save_field rd))
          else add_char_to IN_FIELD rd c
      end
  | EAT_CRNL =>
      match i with
      | EOL => inr (set_state START_RECORD rd)
      | Ch c => if is_nl c then inr rd else inl NewlineInUnquoted
      end
  end.

(** The body of [Reader_iternext]'s loop for one line: its characters,
    then [EOL]. *)
Fixpoint feed (rd : reader) (line : ustr) : csv_error + reader :=
  match line with
  | [] => process_char rd EOL
  | c :: cs => match process_char rd (Ch c) with
               | inl e => inl e
               | inr rd' => feed rd' cs
               end
  end.

(** [Reader_iternext] from the parse state [rd]: lines are fed until the
    automaton is back in [START_RECORD]; at the end of the file a
    pending field (or an open quoted field) is saved and the record
    returned, and otherwise the iteration stops ([None]).  The result
    carries the lines left. *)
Fixpoint iternext (rd : reader) (lines : list ustr)
    : csv_error + option (list ustr * list ustr) :=
  match lines with
  | [] =>
      if negb (field_len rd =? 0) || bool_decide (state rd = IN_QUOTED_FIELD)
      then inr (Some (fields (save_field rd), []))
      else inr None
  | l :: ls =>
      match feed rd l with
      | inl e => inl e
      | inr rd' => if bool_decide (state rd' = START_RECORD)
                   then inr (Some (fields rd', ls)) else iternext rd' ls
      end
  end.

(** Iterating the reader: [next(reader)] until [StopIteration], with
    [fuel] calls at most ([None] when the fuel runs out). *)
Fixpoint reader_rows (fuel : nat) (lines : list ustr)
    : option (csv_error + list (list ustr)) :=
  match fuel with
  | O => None
  | S f =>
      match iternext reset lines with
      | inl e => Some (inl e)
      | inr None => Some (inr [])
      | inr (Some (row, rest)) =>
          match reader_rows f rest with
          | Some (inr rows) => Some (inr (row :: rows))
          | r => r
          end
      end
  end.

(** Every call consumes a line, so one more call than there are lines
    is enough ([reader_rows_terminates]). *)
Definition read_csv (text : ustr) : csv_error + list (list ustr) :=
  let lines := py_lines text in
  match reader_rows (S (List.length lines)) lines with
  | Some r => r
  | None => inr []
  end.

(** ** Specification: the file as one stream of reader inputs

    [tokenize] is the input the reader sees, as one stream: every
    character, with [EOL] after every line terminator (and after a last
    line without one).  [scan] runs the automaton over such a stream and
    cuts a record wherever it is back in [START_RECORD]. *)
Definition line_toks (l : ustr) : list pinput := map Ch l ++ [EOL].

Definition ends_line (c : Z) (r : ustr) : bool :=
  (c =? LF) || ((c =? CR) && negb (match r with d :: _ => d =? LF | [] => false end)).

Fixpoint tokp (s : ustr) : list pinput :=
  match s with
  | [] => []
  | c :: r => Ch c :: (if ends_line c r then EOL :: tokp r else tokp r)
  end.

Definition final_eol (s : ustr) : list pinput :=
  match last s with Some c => if is_nl c then [] else [EOL] | None => [] end.

Definition tokenize (s : ustr) : list pinput := tokp s ++ final_eol s.

Fixpoint scan (rd : reader) (ts : list pinput) : csv_error + list (list ustr) :=
  match ts with
  | [] =>
      if negb (field_len rd =? 0) || bool_decide (state rd = IN_QUOTED_FIELD)
      then inr [fields (save_field rd)] else inr []
  | t :: ts' =>
      match process_char rd t with
      | inl e => inl e
      | inr rd' =>
          if bool_decide (state rd' = START_RECORD) then
            match scan reset ts' with inl e => inl e | inr rows => inr (fields rd' :: rows) end
          else scan rd' ts'
      end
  end.

(** The automaton over a stream inside one record: [None] if a record
    ends on the way. *)
Fixpoint run_toks (rd : reader) (ts : list pinput) : option (csv_error + reader) :=
  match ts with
  | [] => Some (inr rd)
  | t :: ts' =>
      match process_char rd t with
      | inl e => Some (inl e)
      | inr rd' => if bool_decide (state rd' = START_RECORD) then None else run_toks rd' ts'
      end
  end.

(** A reference writer in the manner of [csv.writer] with
    [QUOTE_MINIMAL]: a field is quoted when it holds a delimiter, a
    quote or a line break, quotes are doubled, a record that is one
    empty field is written as two quotes, and records end with CR LF. *)
Definition needs_quotes (f : ustr) : bool :=
  existsb (fun c => (c =? delimiter) || (c =? quotechar) || is_nl c) f.

Definition escape (f : ustr) : ustr :=
  flat_map (fun c => if c =? quotechar then [quotechar; quotechar] else [c]) f.

Definition quote_field (f : ustr) : ustr :=
  if needs_quotes f then quotechar :: escape f ++ [quotechar] else f.

Definition write_row (row : list ustr) : ustr :=
  match row with
  | [[]] => [quotechar; quotechar; CR; LF]
  | _ => join [delimiter] (map quote_field row) ++ [CR; LF]
  end.

Definition write_rows (rows : list (list ustr)) : ustr := flat_map write_row rows.

Definition field_ok (f : ustr) : Prop := (Z.of_nat (List.length f) <= field_limit)%Z.

(** ** [csv.DictReader] *)

(** The values of a row dictionary: a field, the [restval] [None] of a
    missing field, or the list of surplus fields under [restkey]. *)
Inductive dval := DStr (s : ustr) | DNone | DList (l : list ustr).

(** [dict(zip(fieldnames, row))], then the surplus fields under the key
    [None] or the missing keys set to [None]. *)
Definition make_dict (fieldnames row : list ustr) : gmap (option ustr) dval :=
  let d := fold_left (fun d kv => <[Some kv.1 := DStr kv.2]> d) (zip fieldnames row) ∅ in
  let lf := List.length fieldnames in
  let lr := List.length row in
  if Nat.ltb lf lr then <[None := DList (drop lf row)]> d
  else if Nat.ltb lr lf then fold_left (fun d k => <[Some k := DNone]> d) (drop lr fieldnames) d
  else d.

Definition is_empty_row (r : list ustr) : bool := match r with [] => true | _ => false end.

(** [DictReader]: the first row is the header; blank rows are
    skipped. *)
Definition dict_reader (rows : list (list ustr)) : list (gmap (option ustr) dval) :=
  match rows with
  | [] => []
  | fieldnames :: rest =>
      map (make_dict fieldnames) (List.filter (fun r => negb (is_empty_row r)) rest)
  end.

(** [r.get(key)] for a column name: the field, or [None] when the key is
    missing or holds the [restval] [None]. *)
Definition py_get (d : gmap (option ustr) dval) (k : ustr) : option ustr :=
  match d !! Some k with Some (DStr s) => Some s | _ => None end.

(** ** The rows as the script reads them *)

(** A row of [csv.DictReader]: the columns the script reads. *)
Record seed_row := {
  row_title : option ustr;
  row_body : option ustr;
  row_labels : option ustr;
  row_milestone : option ustr
}.

Definition seed_row_of (d : gmap (option ustr) dval) : seed_row :=
  {| row_title := py_get d ⟪"title"⟫; row_body := py_get d ⟪"body"⟫;
     row_labels := py_get d ⟪"labels"⟫; row_milestone := py_get d ⟪"milestone"⟫ |}.

(** Reading the seed file: its rows, or the exception that ends the
    script (the file cannot be opened, or the reader fails). *)
Inductive seed_read := SeedRows (rows : list seed_row) | SeedError (exn : ustr).

(** [with open(args.seed, ..., newline='') as f: for r in
    csv.DictReader(f): ...], given the file's text ([None] when it cannot
    be opened). *)
Definition read_seed (file : option ustr) : seed_read :=
  match file with
  | None => SeedError ⟪"OSError"⟫
  | Some text =>
      match read_csv text with
      | inl _ => SeedError ⟪"_csv.Error"⟫
      | inr rows => SeedRows (map seed_row_of (dict_reader rows))
      end
  end.

(** The header of the seed file, and a seed row given by its fields in
    header order (a short row leaves the last columns missing). *)
Definition seed_header : list ustr := [⟪"title"⟫; ⟪"body"⟫; ⟪"labels"⟫; ⟪"milestone"⟫].

Definition row_of_fields (fs : list ustr) : seed_row :=
  {| row_title := fs !! 0%nat; row_body := fs !! 1%nat;
     row_labels := fs !! 2%nat; row_milestone := fs !! 3%nat |}.

(** ** Auxiliary definitions of the proofs *)

(** What [lines_from] keeps as the current line: no line break, but a
    CR at its end. *)
Definition line_inv (cur_rev : ustr) : Prop :=
  match cur_rev with
  | [] => True
  | d :: t => d <> LF /\ Forall (fun c => is_nl c = false) t
  end.

(** The reader after a field [g] has been taken in, in state [s]. *)
Definition took (s : pstate) (rd : reader) (g : ustr) : reader :=
  {| state := s; fields := fields rd; field_rev := reverse g ++ field_rev rd;
     field_len := field_len rd + Z.of_nat (List.length g) |}.

(** The reader after the field [f] and its delimiter [d]. *)
Definition after_field (d : Z) (rd : reader) (f : ustr) : reader :=
  {| state := if d =? delimiter then START_FIELD else EAT_CRNL;
     fields := fields rd ++ [f]; field_rev := []; field_len := 0 |}.

(** The reader at the end of a record's fields [r], before its line
    break is eaten. *)
Definition after_row (rd : reader) (r : list ustr) : reader :=
  {| state := EAT_CRNL; fields := fields rd ++ r; field_rev := []; field_len := 0 |}.

(** In the stream of a file, a line break is followed by the end of its
    line (or, for CR, by the LF of a CR LF). *)
Fixpoint toks_ok (ts : list pinput) : Prop :=
  match ts with
  | [] => True
  | Ch c :: ts' =>
      (c = LF -> head ts' = Some EOL) /\
      (c = CR -> head ts' = Some EOL \/ head ts' = Some (Ch LF)) /\ toks_ok ts'
  | EOL :: ts' => toks_ok ts'
  end.

(** When the automaton waits for the end of a line, the next input is a
    line break or the end of the line. *)
Definition eat_ok (rd : reader) (ts : list pinput) : Prop :=
  state rd = EAT_CRNL -> match ts with Ch c :: _ => is_nl c = true | _ => True end.

(** The field buffer and [field_len] agree, and no field outgrows the
    limit. *)
Definition rd_inv (rd : reader) : Prop :=
  field_len rd = Z.of_nat (List.length (field_rev rd)) /\
  (field_len rd <= field_limit)%Z /\ Forall field_ok (fields rd).

(** ** The automaton *)

Ltac pc_cases :=
  unfold process_char, start_field, add_char_to, add_char in *;
  repeat (case_match; simplify_eq/=); try done; try congruence.

(** Only [EOL] brings the automaton back to [START_RECORD]. *)
Lemma process_char_Ch_not_start rd c rd' :
  process_char rd (Ch c) = inr rd' -> state rd' <> START_RECORD.
Proof. intros H. pc_cases. Qed.

(** ** The line-by-line reader is the stream reader *)

Lemma feed_scan rd l ts :
  scan rd (line_toks l ++ ts) =
    match feed rd l with
    | inl e => inl e
    | inr rd' =>
        if bool_decide (state rd' = START_RECORD) then
          match scan reset ts with inl e => inl e | inr rows => inr (fields rd' :: rows) end
        else scan rd' ts
    end.
Proof.
  unfold line_toks. revert rd. induction l as [|c l IH]; intros rd; [done|].
  cbn [map app scan feed]. destruct (process_char rd (Ch c)) as [e|rd'] eqn:E; [done|].
  rewrite bool_decide_false by (eapply process_char_Ch_not_start; eauto). apply IH.
Qed.

Lemma iternext_scan rd lines :
  scan rd (flat_map line_toks lines) =
    match iternext rd lines with
    | inl e => inl e
    | inr None => inr []
    | inr (Some (row, rest)) =>
        match scan reset (flat_map line_toks rest) with
        | inl e => inl e | inr rows => inr (row :: rows)
        end
    end.
Proof.
  revert rd. induction lines as [|l ls IH]; intros rd; cbn [flat_map iternext].
  - cbn [scan]. by case_match.
  - rewrite feed_scan. destruct (feed rd l) as [e|rd']; [done|]. by case_bool_decide.
Qed.

(** Each call of [Reader_iternext] that returns a record consumes a line. *)
Lemma iternext_rest rd lines row rest :
  iternext rd lines = inr (Some (row, rest)) ->
  (List.length rest <= List.length lines /\
   (lines <> [] -> List.length rest < List.length lines))%nat.
Proof.
  revert rd. induction lines as [|l ls IH]; intros rd; cbn [iternext].
  - case_match; intros Hs; simplify_eq/=; split; [lia|done].
  - destruct (feed rd l) as [e|rd']; [done|]. case_bool_decide.
    + intros; simplify_eq/=; lia.
    + intros Hn. destruct (IH _ Hn). simpl. lia.
Qed.

Lemma reader_rows_scan fuel lines :
  (List.length lines < fuel)%nat ->
  reader_rows fuel lines = Some (scan reset (flat_map line_toks lines)).
Proof.
  revert lines. induction fuel as [|f IH]; intros lines Hl; [lia|].
  cbn [reader_rows]. rewrite iternext_scan.
  destruct (iternext reset lines) as [e|[[row rest]|]] eqn:E; [done| |done].
  destruct lines as [|l ls]; [discriminate E|].
  destruct (iternext_rest _ _ _ _ E) as [_ Hr].
  rewrite IH by (simpl in *; specialize (Hr ltac:(done)); lia).
  by destruct (scan reset _).
Qed.

(** ** Lines and the input stream *)

Lemma is_nl_false c : is_nl c = false <-> c <> LF /\ c <> CR.
Proof. unfold is_nl. rewrite orb_false_iff, !Z.eqb_neq. done. Qed.

Lemma tokp_nonl xs ys :
  Forall (fun c => is_nl c = false) xs -> tokp (xs ++ ys) = map Ch xs ++ tokp ys.
Proof.
  induction 1 as [|c xs Hc _ IH]; [done|]. cbn [app tokp map].
  apply is_nl_false in Hc as [H1 H2]. unfold ends_line.
  rewrite (proj2 (Z.eqb_neq c LF) H1), (proj2 (Z.eqb_neq c CR) H2). simpl. by rewrite IH.
Qed.

Lemma tokp_cr c r : c <> LF -> tokp (CR :: c :: r) = Ch CR :: EOL :: tokp (c :: r).
Proof. intros Hc. cbn [tokp]. unfold ends_line. by rewrite (proj2 (Z.eqb_neq c LF) Hc). Qed.

Lemma tokp_crlf r : tokp (CR :: LF :: r) = Ch CR :: Ch LF :: EOL :: tokp r.
Proof. reflexivity. Qed.

Lemma tokp_lf r : tokp (LF :: r) = Ch LF :: EOL :: tokp r.
Proof. reflexivity. Qed.

Lemma final_eol_app x y : y <> [] -> final_eol (x ++ y) = final_eol y.
Proof. destruct y as [|c y]; [done|]. intros _. unfold final_eol. by rewrite last_app_cons. Qed.

Lemma final_eol_lf r : final_eol (LF :: r) = final_eol r.
Proof.
  destruct r as [|c r]; [reflexivity|].
  change (LF :: c :: r) with ([LF] ++ c :: r). by rewrite final_eol_app.
Qed.

Lemma nonl_reverse (t : ustr) :
  Forall (fun c => is_nl c = false) t -> Forall (fun c => is_nl c = false) (reverse t).
Proof. intros H. by apply Forall_reverse. Qed.

Lemma lines_from_tokenize cur s :
  line_inv cur -> flat_map line_toks (lines_from cur s) = tokenize (reverse cur ++ s).
Proof.
  revert cur. induction s as [|c r IH]; intros cur Hinv.
  - rewrite app_nil_r. destruct cur as [|d t]; [done|]. destruct Hinv as [Hd Ht].
    cbn [lines_from is_empty]. simpl flat_map. rewrite app_nil_r.
    unfold tokenize, line_toks. rewrite reverse_cons, tokp_nonl by by apply nonl_reverse.
    rewrite map_app, <- !app_assoc. f_equal. unfold final_eol. rewrite last_snoc.
    cbn [tokp]. unfold ends_line, is_nl.
    rewrite (proj2 (Z.eqb_neq d LF) Hd). destruct (Z.eqb_spec d CR); reflexivity.
  - cbn [lines_from]. destruct (pending_cr cur && negb (c =? LF)) eqn:Hp.
    + apply andb_true_iff in Hp as [Hp Hc]. apply negb_true_iff, Z.eqb_neq in Hc.
      destruct cur as [|d t]; [done|]. simpl in Hp. apply Z.eqb_eq in Hp as ->.
      destruct Hinv as [_ Ht]. cbn [flat_map]. rewrite IH by (split; [done|constructor]).
      unfold tokenize, line_toks. rewrite reverse_cons, <- !app_assoc. cbn [app].
      change (reverse [c] ++ r) with (c :: r).
      rewrite (tokp_nonl (reverse t)) by by apply nonl_reverse. rewrite tokp_cr by done.
      rewrite final_eol_app by done. rewrite map_app, <- !app_assoc. reflexivity.
    + destruct (Z.eqb_spec c LF) as [->|Hc].
      * cbn [flat_map]. rewrite IH by done. unfold tokenize, line_toks.
        change (reverse [] ++ r) with r.
        rewrite reverse_cons, (final_eol_app (reverse cur)) by done. rewrite final_eol_lf.
        destruct cur as [|d t].
        -- change (reverse [] ++ LF :: r) with (LF :: r). rewrite tokp_lf. reflexivity.
        -- destruct Hinv as [Hd Ht]. rewrite reverse_cons, <- !app_assoc.
           rewrite (tokp_nonl (reverse t)) by by apply nonl_reverse. cbn [app].
           destruct (Z.eqb_spec d CR) as [->|HdCR].
           ++ rewrite tokp_crlf, map_app, <- !app_assoc. reflexivity.
           ++ change (tokp (d :: LF :: r)) with (tokp ([d] ++ LF :: r)).
              rewrite (tokp_nonl [d]) by (constructor; [by apply is_nl_false|constructor]).
              rewrite tokp_lf, !map_app, <- !app_assoc. reflexivity.
      * rewrite IH.
        -- by rewrite reverse_cons, <- app_assoc.
        -- split; [done|]. destruct cur as [|d t]; [constructor|].
           destruct Hinv as [Hd Ht]. cbn [pending_cr negb] in Hp. rewrite andb_true_r in Hp.
           constructor; [|done]. apply is_nl_false. split; [done|].
           by apply Z.eqb_neq.
Qed.

Lemma py_lines_tokenize text : flat_map line_toks (py_lines text) = tokenize text.
Proof. apply (lines_from_tokenize [] text). done. Qed.

Lemma read_csv_scan text : read_csv text = scan reset (tokenize text).
Proof.
  unfold read_csv. rewrite reader_rows_scan by lia. by rewrite py_lines_tokenize.
Qed.

(** ** Running the automaton inside a record *)

Lemma tokp_app x y :
  last x <> Some CR \/ head y <> Some LF -> tokp (x ++ y) = tokp x ++ tokp y.
Proof.
  induction x as [|c x IH]; intros Hxy; [done|].
  destruct x as [|c' x].
  - cbn [app tokp]. unfold ends_line. destruct y as [|d y]; [by rewrite app_nil_r|].
    destruct (Z.eqb_spec c CR) as [->|Hc].
    + destruct Hxy as [H|H]; [done|]. cbn [head] in H.
      rewrite (proj2 (Z.eqb_neq d LF)) by congruence. reflexivity.
    + rewrite !andb_false_l, !orb_false_r.
      by destruct (c =? LF).
  - cbn [app] in *. change (tokp (c :: c' :: x ++ y)) with
      (Ch c :: (if ends_line c (c' :: x ++ y) then EOL :: tokp (c' :: x ++ y)
                else tokp (c' :: x ++ y))).
    change (tokp (c :: c' :: x)) with
      (Ch c :: (if ends_line c (c' :: x) then EOL :: tokp (c' :: x) else tokp (c' :: x))).
    rewrite IH by (destruct Hxy as [H|H]; [left; by rewrite last_cons_cons in H|by right]).
    change (ends_line c (c' :: x ++ y)) with (ends_line c (c' :: x)).
    by destruct (ends_line c (c' :: x)).
Qed.

Lemma run_app rd ts1 ts2 :
  run_toks rd (ts1 ++ ts2) =
    match run_toks rd ts1 with Some (inr rd') => run_toks rd' ts2 | r => r end.
Proof.
  revert rd. induction ts1 as [|t ts1 IH]; intros rd; [done|]. cbn [app run_toks].
  destruct (process_char rd t); [done|]. by case_bool_decide.
Qed.

Lemma scan_run rd ts ts2 rd' :
  run_toks rd ts = Some (inr rd') -> scan rd (ts ++ ts2) = scan rd' ts2.
Proof.
  revert rd. induction ts as [|t ts IH]; intros rd; cbn [run_toks app scan]; [congruence|].
  destruct (process_char rd t); [done|]. case_bool_decide; [done|]. apply IH.
Qed.

(** A character that is not a line break starts a field from
    [START_RECORD] as from [START_FIELD]. *)
Lemma run_start_record rd c ts :
  state rd = START_RECORD -> is_nl c = false ->
  run_toks rd (Ch c :: ts) = run_toks (set_state START_FIELD rd) (Ch c :: ts).
Proof. intros Hs Hc. cbn [run_toks]. unfold process_char at 1. by rewrite Hs, Hc. Qed.

Lemma add_char_ok rd c :
  (field_len rd < field_limit)%Z ->
  add_char rd c = inr {| state := state rd; fields := fields rd; field_rev := c :: field_rev rd;
                         field_len := field_len rd + 1 |}.
Proof. intros H. unfold add_char. by rewrite (proj2 (Z.leb_gt _ _) H). Qed.

Lemma took_cons s rd c g :
  took s {| state := s; fields := fields rd; field_rev := c :: field_rev rd;
            field_len := field_len rd + 1 |} g = took s rd (c :: g).
Proof.
  unfold took. cbn [fields field_rev field_len List.length]. f_equal.
  - by rewrite reverse_cons, <- app_assoc.
  - lia.
Qed.

(** An unquoted field's characters, inside [IN_FIELD]. *)
Lemma run_unquoted rd g :
  state rd = IN_FIELD ->
  Forall (fun c => is_nl c = false /\ c <> delimiter) g ->
  (field_len rd + Z.of_nat (List.length g) <= field_limit)%Z ->
  run_toks rd (map Ch g) = Some (inr (took IN_FIELD rd g)).
Proof.
  revert rd. induction g as [|c g IH]; intros rd Hs Hg Hl.
  - cbn. unfold took. destruct rd; simpl in *. subst. by rewrite Z.add_0_r.
  - inversion Hg as [|? ? [Hc Hd] Hg']; subst. cbn [map run_toks].
    unfold process_char. rewrite Hs, Hc, (proj2 (Z.eqb_neq c delimiter) Hd).
    rewrite add_char_ok by (simpl in Hl; lia). rewrite Hs, bool_decide_false by done.
    rewrite <- took_cons. apply IH; simpl; [done|done|simpl in Hl; lia].
Qed.

(** A quoted field's escaped characters, inside [IN_QUOTED_FIELD]: the
    doubled quotes and the line breaks (with the [EOL] that follows a
    line) are taken in. *)
Lemma run_quoted rd g :
  state rd = IN_QUOTED_FIELD ->
  (field_len rd + Z.of_nat (List.length g) <= field_limit)%Z ->
  run_toks rd (tokp (escape g)) = Some (inr (took IN_QUOTED_FIELD rd g)).
Proof.
  revert rd. induction g as [|c g IH]; intros rd Hs Hl.
  - cbn. unfold took. destruct rd; simpl in *. subst. by rewrite Z.add_0_r.
  - unfold escape. cbn [flat_map]. fold (escape g).
    destruct (Z.eqb_spec c quotechar) as [->|Hq].
    + change (tokp ([quotechar; quotechar] ++ escape g))
        with (Ch quotechar :: Ch quotechar :: tokp (escape g)).
      cbn [run_toks]. unfold process_char at 1. rewrite Hs. cbn.
      rewrite bool_decide_false by done. unfold add_char_to.
      rewrite add_char_ok by (cbn; simpl in Hl; lia).
      cbn [set_state state fields field_rev field_len]. rewrite bool_decide_false by done.
      rewrite <- took_cons. apply IH; simpl; [done|simpl in Hl; lia].
    + change (tokp ([c] ++ escape g)) with
        (Ch c :: (if ends_line c (escape g) then EOL :: tokp (escape g) else tokp (escape g))).
      cbn [run_toks]. unfold process_char at 1. rewrite Hs, (proj2 (Z.eqb_neq c quotechar) Hq).
      rewrite add_char_ok by (simpl in Hl; lia). rewrite Hs, bool_decide_false by done.
      rewrite <- took_cons.
      destruct (ends_line c (escape g)); [cbn [run_toks]; unfold process_char at 1; simpl|];
        apply IH; simpl; try done; simpl in Hl; lia.
Qed.

(** ** Round trip: a field, a record, a table *)

Lemma needs_quotes_false f :
  needs_quotes f = false ->
  Forall (fun c => is_nl c = false /\ c <> delimiter /\ c <> quotechar) f.
Proof.
  unfold needs_quotes. intros H. apply Forall_forall. intros c Hc.
  apply list_elem_of_In in Hc.
  assert (Hc' : (c =? delimiter) || (c =? quotechar) || is_nl c = false).
  { apply not_true_iff_false. intros E. apply not_true_iff_false in H.
    apply H, existsb_exists. eauto. }
  apply orb_false_iff in Hc' as [Hc' Hnl]. apply orb_false_iff in Hc' as [Hd Hq].
  apply Z.eqb_neq in Hd, Hq. done.
Qed.

Lemma tokp_single c : is_nl c = false -> tokp [c] = [Ch c].
Proof. intros Hc. apply is_nl_false in Hc as [H1 H2]. cbn. unfold ends_line.
  by rewrite (proj2 (Z.eqb_neq _ _) H1), (proj2 (Z.eqb_neq _ _) H2). Qed.

Lemma end_field rd d :
  (d = delimiter \/ d = CR) ->
  (state rd = IN_FIELD \/ state rd = QUOTE_IN_QUOTED_FIELD) ->
  process_char rd (Ch d) =
    inr {| state := if d =? delimiter then START_FIELD else EAT_CRNL;
           fields := fields (save_field rd); field_rev := []; field_len := 0 |}.
Proof.
  intros Hd Hs. unfold process_char.
  destruct Hd as [->| ->], Hs as [-> | ->]; reflexivity.
Qed.

Lemma run_field rd f d :
  state rd = START_FIELD -> field_rev rd = [] -> field_len rd = 0%Z ->
  field_ok f -> (d = delimiter \/ d = CR) ->
  run_toks rd (tokp (quote_field f) ++ [Ch d]) = Some (inr (after_field d rd f)).
Proof.
  intros Hs Hr Hl Hf Hd. unfold quote_field. rewrite run_app.
  destruct (needs_quotes f) eqn:Hq.
  - change (tokp (quotechar :: escape f ++ [quotechar]))
      with (Ch quotechar :: tokp (escape f ++ [quotechar])).
    rewrite tokp_app by (right; done). rewrite tokp_single by done.
    cbn [run_toks]. unfold process_char at 1. rewrite Hs. cbn.
    rewrite bool_decide_false by done. rewrite run_app.
    rewrite run_quoted by (cbn [set_state state field_len]; try done;
                           unfold field_ok in Hf; rewrite Hl; lia).
    cbn [run_toks]. unfold process_char at 1. simpl.
    rewrite end_field by (simpl; auto).
    rewrite bool_decide_false by (destruct Hd as [-> | ->]; done).
    unfold after_field, save_field, took, set_state. simpl.
    by rewrite Hr, app_nil_r, reverse_involutive.
  - apply needs_quotes_false in Hq.
    assert (Ht : tokp f = map Ch f).
    { rewrite <- (app_nil_r f) at 1.
      rewrite tokp_nonl by (eapply Forall_impl; [exact Hq|]; naive_solver).
      apply app_nil_r. }
    rewrite Ht. destruct f as [|c g].
    + cbn [map run_toks]. unfold process_char at 1. rewrite Hs. unfold start_field.
      destruct Hd as [-> | ->]; cbn; rewrite ?Hs, bool_decide_false by done;
        unfold after_field, save_field, set_state; rewrite ?Hs, Hr; reflexivity.
    + inversion Hq as [|? ? (Hc & Hcd & Hcq) Hg]; subst. cbn [map run_toks].
      unfold process_char at 1. rewrite Hs. unfold start_field.
      rewrite Hc, (proj2 (Z.eqb_neq _ _) Hcq), (proj2 (Z.eqb_neq _ _) Hcd).
      unfold add_char_to. rewrite add_char_ok by (rewrite Hl; done).
      cbn [set_state state]. rewrite bool_decide_false by done.
      rewrite run_unquoted.
      * cbn [run_toks]. rewrite end_field by (simpl; auto).
        rewrite bool_decide_false by (destruct Hd as [-> | ->]; done).
        unfold after_field, save_field, took, set_state. simpl.
        by rewrite Hr, reverse_app, reverse_involutive.
      * done.
      * eapply Forall_impl; [exact Hg|]. naive_solver.
      * unfold field_ok in Hf. simpl in *. rewrite Hl. lia.
Qed.

Lemma tokp_delim J : tokp (delimiter :: J) = Ch delimiter :: tokp J.
Proof. reflexivity. Qed.

Lemma run_fields fs f rd :
  state rd = START_FIELD -> field_rev rd = [] -> field_len rd = 0%Z ->
  Forall field_ok (f :: fs) ->
  run_toks rd (tokp (join [delimiter] (map quote_field (f :: fs))) ++ [Ch CR]) =
    Some (inr (after_row rd (f :: fs))).
Proof.
  revert f rd. induction fs as [|g gs IH]; intros f rd Hs Hr Hl Hok.
  - cbn [map join]. inversion Hok. rewrite run_field by auto. reflexivity.
  - inversion Hok as [|? ? Hf Hgs]; subst. cbn [map]. rewrite join_cons_cons.
    rewrite tokp_app by (right; done). cbn [app]. rewrite tokp_delim.
    change (Ch delimiter :: ?t) with ([Ch delimiter] ++ t).
    rewrite <- !app_assoc, (app_assoc (tokp (quote_field f))), run_app.
    rewrite run_field by auto. cbn [map] in IH. rewrite IH by (simpl; auto).
    unfold after_row, after_field. simpl. by rewrite <- app_assoc.
Qed.

Lemma quote_field_head f :
  exists c q, quote_field f = c :: q /\ is_nl c = false \/ f = [] /\ quote_field f = [].
Proof.
  unfold quote_field. destruct (needs_quotes f) eqn:Hq.
  - exists quotechar, (escape f ++ [quotechar]). by left.
  - destruct f as [|c f].
    + exists 0%Z, []. by right.
    + apply needs_quotes_false in Hq. inversion Hq as [|? ? (Hc & _) _]; subst.
      exists c, f. by left.
Qed.

(** A record other than [[]] and [[""]] starts with a character that
    is not a line break. *)
Lemma row_head f fs :
  (f :: fs) <> [[]] ->
  exists c J, join [delimiter] (map quote_field (f :: fs)) = c :: J /\ is_nl c = false.
Proof.
  intros Hne. destruct (quote_field_head f) as (c & q & [[Hf Hc]|[-> Hf]]).
  - destruct fs as [|g gs].
    + exists c, q. simpl map. by rewrite Hf.
    + simpl map. rewrite join_cons_cons, Hf. exists c, (q ++ [delimiter] ++ join [delimiter] (map quote_field (g :: gs))).
      done.
  - destruct fs as [|g gs]; [done|]. simpl map. rewrite join_cons_cons, Hf.
    by exists delimiter, (join [delimiter] (map quote_field (g :: gs))).
Qed.

Lemma tokp_crlf_end J : tokp (J ++ [CR; LF]) = tokp J ++ [Ch CR; Ch LF; EOL].
Proof. rewrite tokp_app by (right; done). reflexivity. Qed.

Lemma scan_row r ts :
  Forall field_ok r ->
  scan reset (tokp (write_row r) ++ ts) =
    match scan reset ts with inl e => inl e | inr rows => inr (r :: rows) end.
Proof.
  intros Hok. destruct (decide (r = [])) as [->|Hnil]; [reflexivity|].
  destruct (decide (r = [[]])) as [->|Hee]; [reflexivity|].
  destruct r as [|f fs]; [done|].
  assert (Hw : write_row (f :: fs) = join [delimiter] (map quote_field (f :: fs)) ++ [CR; LF]).
  { unfold write_row. destruct f as [|c f]; [destruct fs; [done|reflexivity]|reflexivity]. }
  rewrite Hw, tokp_crlf_end.
  destruct (row_head f fs Hee) as (c & J & HJ & Hc). rewrite HJ.
  change [Ch CR; Ch LF; EOL] with ([Ch CR] ++ [Ch LF; EOL]).
  rewrite <- !app_assoc, (app_assoc (tokp (c :: J))).
  assert (Ht : tokp (c :: J) = Ch c :: tokp J).
  { apply is_nl_false in Hc as [H1 H2]. cbn [tokp]. unfold ends_line.
    by rewrite (proj2 (Z.eqb_neq _ _) H1), (proj2 (Z.eqb_neq _ _) H2). }
  assert (Hrun : run_toks reset (tokp (c :: J) ++ [Ch CR]) =
                 Some (inr (after_row (set_state START_FIELD reset) (f :: fs)))).
  { rewrite Ht. cbn [app]. rewrite run_start_record by done.
    rewrite app_comm_cons, <- Ht, <- HJ. apply run_fields; done. }
  rewrite (scan_run _ _ _ _ Hrun). reflexivity.
Qed.

Lemma last_write_row r : last (write_row r) = Some LF.
Proof.
  unfold write_row. repeat case_match; try reflexivity;
    change [CR; LF] with ([CR] ++ [LF]); by rewrite app_assoc, last_snoc.
Qed.

Lemma scan_write_rows rows :
  Forall (Forall field_ok) rows -> scan reset (tokp (write_rows rows)) = inr rows.
Proof.
  induction 1 as [|r rs Hr _ IH]; [reflexivity|].
  unfold write_rows. cbn [flat_map]. fold (write_rows rs).
  rewrite tokp_app by (left; by rewrite last_write_row). rewrite scan_row by done.
  by rewrite IH.
Qed.

Lemma last_write_rows rows : last (write_rows rows) = None \/ last (write_rows rows) = Some LF.
Proof.
  induction rows as [|r rs IH]; [by left|]. unfold write_rows. cbn [flat_map].
  fold (write_rows rs). rewrite last_app, last_write_row.
  destruct IH as [-> | ->]; by right.
Qed.

Lemma final_eol_write_rows rows : final_eol (write_rows rows) = [].
Proof. unfold final_eol. by destruct (last_write_rows rows) as [-> | ->]. Qed.

(** ** Invariants of the automaton *)

Lemma toks_ok_tokp s e : toks_ok e -> toks_ok (tokp s ++ e).
Proof.
  intros He. induction s as [|c r IH]; [done|]. cbn [tokp app].
  destruct (ends_line c r) eqn:Hend; cbn [toks_ok]; (split; [|split]); try done.
  - intros ->. by left.
  - intros ->. by compute in Hend.
  - intros ->. right. unfold ends_line in Hend. cbn in Hend.
    destruct r as [|d r]; [done|]. apply negb_false_iff, Z.eqb_eq in Hend as ->. done.
Qed.

Lemma toks_ok_tokenize s : toks_ok (tokenize s).
Proof.
  apply toks_ok_tokp. unfold final_eol. by repeat case_match.
Qed.

Lemma process_char_newline_err rd t :
  process_char rd t = inl NewlineInUnquoted ->
  state rd = EAT_CRNL /\ exists c, t = Ch c /\ is_nl c = false.
Proof. intros H. pc_cases; eauto. Qed.

Lemma process_char_eat rd t rd' :
  process_char rd t = inr rd' -> state rd' = EAT_CRNL ->
  exists c, t = Ch c /\ is_nl c = true.
Proof. intros H Hs. pc_cases; eauto. Qed.

Lemma scan_no_newline_error rd ts :
  toks_ok ts -> eat_ok rd ts -> scan rd ts <> inl NewlineInUnquoted.
Proof.
  revert rd. induction ts as [|t ts IH]; intros rd Hok Heat; cbn [scan]; [by case_match|].
  destruct (process_char rd t) as [e|rd'] eqn:E.
  - intros [= ->]. destruct (process_char_newline_err _ _ E) as (Hs & c & -> & Hc).
    specialize (Heat Hs). simpl in Heat. congruence.
  - assert (Hts : toks_ok ts) by (destruct t; [apply Hok|exact Hok]).
    case_bool_decide.
    + destruct (scan reset ts) eqn:E2; [|done].
      intros [= ->]. apply (IH reset); [done| |done]. by intros Hr.
    + apply IH; [done|]. intros Hs.
      destruct (process_char_eat _ _ _ E Hs) as (c & -> & Hc).
      destruct Hok as (Hlf & Hcr & _).
      apply orb_true_iff in Hc as [Hc|Hc]; apply Z.eqb_eq in Hc as ->.
      * specialize (Hlf eq_refl). destruct ts as [|[d|] ts]; simplify_eq/=; done.
      * destruct (Hcr eq_refl) as [Hh|Hh]; destruct ts as [|[d|] ts]; simplify_eq/=; done.
Qed.

Lemma rd_inv_reset : rd_inv reset.
Proof. repeat split; try done. Qed.

Lemma rd_inv_set_state s rd : rd_inv rd -> rd_inv (set_state s rd).
Proof. done. Qed.

Lemma rd_inv_save rd : rd_inv rd -> rd_inv (save_field rd).
Proof.
  intros (Hl & Hb & Hf). repeat split; cbn; try lia.
  apply Forall_app. split; [done|]. constructor; [|constructor].
  unfold field_ok. rewrite length_reverse. lia.
Qed.

Lemma rd_inv_add rd c rd' : rd_inv rd -> add_char rd c = inr rd' -> rd_inv rd'.
Proof.
  intros (Hl & Hb & Hf). unfold add_char.
  destruct (Z.leb_spec field_limit (field_len rd)); [done|].
  intros [= <-]. repeat split; cbn; [|lia|done]. rewrite Hl. lia.
Qed.

#[local] Hint Resolve rd_inv_set_state rd_inv_save rd_inv_add : core.

Lemma process_char_inv rd t rd' : rd_inv rd -> process_char rd t = inr rd' -> rd_inv rd'.
Proof.
  intros Hi. unfold process_char, start_field, add_char_to.
  repeat case_match; intros; simplify_eq; eauto.
Qed.

Lemma scan_fields_ok rd ts rows :
  rd_inv rd -> scan rd ts = inr rows -> Forall (Forall field_ok) rows.
Proof.
  revert rd rows. induction ts as [|t ts IH]; intros rd rows Hi; cbn [scan].
  - case_match; intros [= <-]; [|constructor].
    constructor; [|constructor]. by apply rd_inv_save in Hi as (_ & _ & ?).
  - destruct (process_char rd t) as [e|rd'] eqn:E; [done|].
    pose proof (process_char_inv _ _ _ Hi E) as Hi'. case_bool_decide.
    + destruct (scan reset ts) as [|rows'] eqn:E2; [done|]. intros [= <-].
      constructor; [apply Hi'|]. exact (IH _ _ rd_inv_reset E2).
    + by apply IH.
Qed.

Lemma scan_run_err rd ts ts2 e :
  run_toks rd ts = Some (inl e) -> scan rd (ts ++ ts2) = inl e.
Proof.
  revert rd. induction ts as [|t ts IH]; intros rd; cbn [run_toks app scan]; [congruence|].
  destruct (process_char rd t); [congruence|]. case_bool_decide; [done|]. apply IH.
Qed.

(** ** Lookups in a [DictReader] row *)

Lemma fold_fields_notin (fns row : list ustr) (d : gmap (option ustr) dval) k :
  k ∉ fns ->
  fold_left (fun d kv => <[Some kv.1 := DStr kv.2]> d) (zip fns row) d !! Some k = d !! Some k.
Proof.
  revert row d. induction fns as [|f fns IH]; intros [|v row] d Hk; try done.
  apply not_elem_of_cons in Hk as [Hkf Hk]. cbn [zip_with fold_left].
  rewrite IH by done. apply lookup_insert_ne. simpl. congruence.
Qed.

Lemma fold_fields_at (fns row : list ustr) (d : gmap (option ustr) dval) i k :
  NoDup fns -> fns !! i = Some k ->
  fold_left (fun d kv => <[Some kv.1 := DStr kv.2]> d) (zip fns row) d !! Some k =
    match row !! i with Some v => Some (DStr v) | None => d !! Some k end.
Proof.
  revert row d i. induction fns as [|f fns IH]; intros row d i Hnd Hi; [done|].
  apply NoDup_cons in Hnd as [Hf Hnd]. destruct row as [|v row]; [done|].
  cbn [zip_with fold_left]. destruct i as [|i]; simpl in Hi |- *.
  - simplify_eq. rewrite fold_fields_notin by done. apply lookup_insert_eq.
  - rewrite (IH row _ i) by done. destruct (row !! i); [done|].
    apply lookup_insert_ne. intros [= ->]. by eapply Hf, list_elem_of_lookup_2.
Qed.

Lemma fold_restval_notin (ks : list ustr) (d : gmap (option ustr) dval) k :
  k ∉ ks -> fold_left (fun d k => <[Some k := DNone]> d) ks d !! Some k = d !! Some k.
Proof.
  revert d. induction ks as [|k' ks IH]; intros d Hk; [done|].
  apply not_elem_of_cons in Hk as [Hk' Hk]. cbn [fold_left]. rewrite IH by done.
  apply lookup_insert_ne. simpl. congruence.
Qed.

Lemma fold_restval_in (ks : list ustr) (d : gmap (option ustr) dval) k :
  k ∈ ks -> fold_left (fun d k => <[Some k := DNone]> d) ks d !! Some k = Some DNone.
Proof.
  revert d. induction ks as [|k' ks IH]; intros d Hk; [by apply elem_of_nil in Hk|].
  cbn [fold_left]. destruct (decide (k ∈ ks)) as [Hin|Hin]; [by apply IH|].
  apply elem_of_cons in Hk as [->|]; [|done]. rewrite fold_restval_notin by done.
  apply lookup_insert_eq.
Qed.

(** [r.get(k)] for the [i]-th column name [k] of a header without
    duplicates is the [i]-th field of the row, and [None] past its
    end. *)
Lemma py_get_make_dict (fns row : list ustr) i k :
  NoDup fns -> fns !! i = Some k -> py_get (make_dict fns row) k = row !! i.
Proof.
  intros Hnd Hi. unfold py_get, make_dict.
  assert (Hlt : (i < List.length fns)%nat) by (apply lookup_lt_is_Some; eauto).
  assert (Hat : forall d : gmap (option ustr) dval, (i < List.length row)%nat ->
            fold_left (fun d kv => <[Some kv.1 := DStr kv.2]> d) (zip fns row) d !! Some k =
              from_option (fun v => Some (DStr v)) None (row !! i)).
  { intros d Hr. rewrite (fold_fields_at _ _ _ i k) by done.
    by destruct (lookup_lt_is_Some_2 row i) as [v ->]. }
  destruct (Nat.ltb_spec (List.length fns) (List.length row)).
  - rewrite lookup_insert_ne, Hat by (done || lia).
    by destruct (lookup_lt_is_Some_2 row i) as [v ->]; [lia|].
  - destruct (Nat.ltb_spec (List.length row) (List.length fns)).
    + destruct (decide (i < List.length row)%nat).
      * rewrite fold_restval_notin.
        -- rewrite Hat by lia. by destruct (lookup_lt_is_Some_2 row i) as [v ->].
        -- intros Hin. apply list_elem_of_lookup_1 in Hin as [j Hj].
           rewrite lookup_drop in Hj. pose proof (NoDup_lookup _ _ _ _ Hnd Hi Hj). lia.
      * rewrite (lookup_ge_None_2 row i) by lia. rewrite fold_restval_in; [done|].
        apply list_elem_of_lookup. exists (i - List.length row)%nat. rewrite lookup_drop.
        by replace (List.length row + (i - List.length row))%nat with i by lia.
    + rewrite Hat by lia. by destruct (lookup_lt_is_Some_2 row i) as [v ->]; [lia|].
Qed.

Lemma py_get_make_dict_notin (fns row : list ustr) k : k ∉ fns -> py_get (make_dict fns row) k = None.
Proof.
  intros Hk. unfold py_get, make_dict.
  assert (Hd : forall n, k ∉ drop n fns).
  { intros n Hin. apply list_elem_of_lookup_1 in Hin as [j Hj].
    rewrite lookup_drop in Hj. by eapply Hk, list_elem_of_lookup_2. }
  repeat case_match; simplify_eq;
    rewrite ?lookup_insert_ne, ?fold_restval_notin, ?fold_fields_notin in * by done;
    rewrite ?lookup_empty in *; done.
Qed.

(** ** Records after records, and an over-long field *)

Lemma scan_write_rows_app rows ts :
  Forall (Forall field_ok) rows ->
  scan reset (tokp (write_rows rows) ++ ts) =
    match scan reset ts with inl e => inl e | inr rs => inr (rows ++ rs) end.
Proof.
  induction 1 as [|r rs Hr _ IH]; [cbn [write_rows flat_map tokp app]; by destruct (scan reset ts)|].
  unfold write_rows. cbn [flat_map]. fold (write_rows rs).
  rewrite tokp_app by (left; by rewrite last_write_row).
  rewrite <- app_assoc, scan_row, IH by done. by destruct (scan reset ts).
Qed.

(** The first field of a record, unquoted and within the limit. *)
Lemma run_first_field c g :
  Forall (fun c => is_nl c = false /\ c <> delimiter /\ c <> quotechar) (c :: g) ->
  (Z.of_nat (List.length (c :: g)) <= field_limit)%Z ->
  run_toks reset (map Ch (c :: g)) = Some (inr (took IN_FIELD reset (c :: g))).
Proof.
  intros Hf Hl. inversion Hf as [|? ? (Hc & Hcd & Hcq) Hg]; subst. cbn [map run_toks].
  unfold process_char at 1. cbn [state reset]. rewrite Hc. unfold start_field.
  rewrite Hc, (proj2 (Z.eqb_neq _ _) Hcq), (proj2 (Z.eqb_neq _ _) Hcd).
  unfold add_char_to. rewrite add_char_ok by done.
  cbn [set_state state]. rewrite bool_decide_false by done.
  rewrite run_unquoted.
  - by rewrite <- took_cons.
  - done.
  - eapply Forall_impl; [exact Hg|]. naive_solver.
  - cbn [set_state field_len reset]. cbn [List.length] in Hl. lia.
Qed.

(** A record that starts with [field_limit] plain characters and one
    more fails with [FieldTooLarge]. *)
Lemma scan_field_too_large f c ts :
  Forall (fun c => is_nl c = false /\ c <> delimiter /\ c <> quotechar) (f ++ [c]) ->
  Z.of_nat (List.length f) = field_limit ->
  scan reset (map Ch (f ++ [c]) ++ ts) = inl FieldTooLarge.
Proof.
  intros Hf Hl. destruct f as [|c0 g]; [done|].
  apply Forall_app in Hf as [Hf1 Hf2]. inversion Hf2 as [|? ? (Hc & Hcd & _) _]; subst.
  rewrite map_app, <- app_assoc, (scan_run _ _ _ _ (run_first_field c0 g Hf1 ltac:(lia))).
  cbn [map app scan]. unfold process_char at 1. cbn [took state].
  rewrite Hc, (proj2 (Z.eqb_neq _ _) Hcd). unfold add_char. cbn [took field_len reset].
  by rewrite Z.add_0_l, Hl, Z.leb_refl.
Qed.

(** ** The seed file through [DictReader] *)

Lemma seed_header_NoDup : NoDup seed_header.
Proof. decide_vm. Qed.

Lemma seed_header_ok : Forall field_ok seed_header.
Proof. decide_vm. Qed.

Lemma seed_row_of_header r : seed_row_of (make_dict seed_header r) = row_of_fields r.
Proof.
  unfold seed_row_of, row_of_fields.
  rewrite (py_get_make_dict _ _ 0 _ seed_header_NoDup eq_refl),
    (py_get_make_dict _ _ 1 _ seed_header_NoDup eq_refl),
    (py_get_make_dict _ _ 2 _ seed_header_NoDup eq_refl),
    (py_get_make_dict _ _ 3 _ seed_header_NoDup eq_refl).
  reflexivity.
Qed.

(** A seed file written with the header [header]: its non-blank rows as
    dictionaries. *)
Lemma read_seed_written header rows :
  Forall field_ok header -> Forall (Forall field_ok) rows ->
  read_seed (Some (write_rows (header :: rows))) =
    SeedRows (map (fun r => seed_row_of (make_dict header r))
                  (List.filter (fun r => negb (is_empty_row r)) rows)).
Proof.
  intros Hh Hr. unfold read_seed. rewrite read_csv_scan. unfold tokenize.
  rewrite final_eol_write_rows, app_nil_r, scan_write_rows by by constructor.
  cbn [dict_reader]. by rewrite map_map.
Qed.

(** A seed file that starts with a UTF-8 byte order mark (U+FEFF, a
    character under [encoding='utf-8']) has the header [U+FEFF title]:
    its rows have no [title] column. *)
Lemma read_seed_bom rows :
  Forall (Forall field_ok) rows ->
  read_seed (Some (65279 :: write_rows (seed_header :: rows))) =
    SeedRows (map (fun r => {| row_title := None; row_body := r !! 1%nat;
                               row_labels := r !! 2%nat; row_milestone := r !! 3%nat |})
                  (List.filter (fun r => negb (is_empty_row r)) rows)).
Proof.
  intros Hr.
  assert (Hw : 65279 :: write_rows (seed_header :: rows) =
               write_rows (((65279 :: ⟪"title"⟫) :: List.tail seed_header) :: rows))
    by reflexivity.
  assert (Hnd : NoDup ((65279 :: ⟪"title"⟫) :: List.tail seed_header)) by decide_vm.
  rewrite Hw, read_seed_written; [|decide_vm|done].
  f_equal. apply map_ext. intros r. unfold seed_row_of.
  rewrite py_get_make_dict_notin by decide_vm.
  rewrite (py_get_make_dict _ _ 1 _ Hnd eq_refl), (py_get_make_dict _ _ 2 _ Hnd eq_refl),
    (py_get_make_dict _ _ 3 _ Hnd eq_refl).
  reflexivity.
Qed.

(** ** Properties of the reader *)

(** C27 (round trip): a table written as [csv.writer] writes it (fields
    with commas, quotes, CR and LF quoted, quotes doubled, records ended
    by CR LF) is read back as the same table by the line-based reader,
    provided no field is longer than [field_limit]. *)
Theorem read_csv_write_rows rows :
  Forall (Forall field_ok) rows -> read_csv (write_rows rows) = inr rows.
Proof.
  intros Hr. rewrite read_csv_scan. unfold tokenize.
  by rewrite final_eol_write_rows, app_nil_r, scan_write_rows.
Qed.

Example read_csv_write_rows_witness :
  read_csv (write_rows [[[104; 105]; [97; 44; 98]; [34; 113; 34]; [108; 13; 10; 109]];
                        []; [[]]; [[]; []]]) =
    inr [[[104; 105]; [97; 44; 98]; [34; 113; 34]; [108; 13; 10; 109]]; []; [[]]; [[]; []]].
Proof. apply read_csv_write_rows. decide_vm. Defined.

(** C28 (DictReader): for a seed file with the header
    [title,body,labels,milestone] followed by records, the script's
    reader yields one row per non-blank record, its columns taken by
    position, a column past the end of a short record being [None]. *)
Theorem read_seed_rows rows :
  Forall (Forall field_ok) rows ->
  read_seed (Some (write_rows (seed_header :: rows))) =
    SeedRows (map row_of_fields (List.filter (fun r => negb (is_empty_row r)) rows)).
Proof.
  intros Hr. rewrite read_seed_written by (apply seed_header_ok || done).
  f_equal. apply map_ext. apply seed_row_of_header.
Qed.

Example read_seed_rows_witness :
  read_seed (Some (write_rows (seed_header ::
     [[⟪"Fix login"⟫; ⟪"Users, admins"⟫; ⟪"bug"⟫]; []; [⟪"Docs"⟫]]))) =
    SeedRows [row_of_fields [⟪"Fix login"⟫; ⟪"Users, admins"⟫; ⟪"bug"⟫];
              row_of_fields [⟪"Docs"⟫]].
Proof. apply read_seed_rows. decide_vm. Defined.

(** C29 (error): after any records, a record whose first field is an
    unquoted run_toks of more than [field_limit] (131072) characters makes
    the reader fail with [FieldTooLarge] ([_csv.Error]), whatever
    follows. *)
Theorem read_csv_field_too_large rows f c s :
  Forall (Forall field_ok) rows ->
  Forall (fun c => is_nl c = false /\ c <> delimiter /\ c <> quotechar) (f ++ [c]) ->
  Z.of_nat (List.length f) = field_limit ->
  read_csv (write_rows rows ++ f ++ c :: s) = inl FieldTooLarge.
Proof.
  intros Hr Hf Hl. rewrite read_csv_scan. unfold tokenize.
  change (c :: s) with ([c] ++ s). rewrite (app_assoc f).
  rewrite tokp_app by (destruct (last_write_rows rows) as [-> | ->]; by left).
  rewrite tokp_nonl by (eapply Forall_impl; [exact Hf|]; naive_solver).
  rewrite <- !app_assoc, scan_write_rows_app, scan_field_too_large by done. done.
Qed.

Example read_csv_field_too_large_witness :
  read_csv (write_rows [[[104; 105]]] ++ replicate (Z.to_nat field_limit) 97 ++ [97]) =
    inl FieldTooLarge.
Proof.
  apply read_csv_field_too_large.
  - decide_vm.
  - apply Forall_app. split; [apply Forall_replicate|]; decide_vm.
  - rewrite length_replicate. unfold field_limit. lia.
Defined.

(** C30 (safety): reading a file never fails with
    [NewlineInUnquoted]: the text-mode file hands the reader whole
    lines, so a line break is always followed by the end of its line
    (or by the LF of a CR LF). *)
Theorem read_csv_no_newline_error text : read_csv text <> inl NewlineInUnquoted.
Proof.
  rewrite read_csv_scan. apply scan_no_newline_error; [apply toks_ok_tokenize|].
  by intros Hs.
Qed.

(** C31 (bounds): every field the reader returns has at most
    [field_limit] characters. *)
Theorem read_csv_fields_bounded text rows :
  read_csv text = inr rows -> Forall (Forall field_ok) rows.
Proof. rewrite read_csv_scan. apply scan_fields_ok, rd_inv_reset. Qed.

Example read_csv_fields_bounded_witness :
  Forall (Forall field_ok) [[⟪"x"⟫; ⟪"y"⟫]].
Proof. apply (read_csv_fields_bounded ⟪"x,y"⟫). vm_compute. reflexivity. Defined.

(** Iterating the reader stops: with more calls than
    the file has lines, [reader_rows] returns, and its result is the
    one [read_csv] computes. *)
Lemma read_csv_terminates text fuel :
  (List.length (py_lines text) < fuel)%nat ->
  reader_rows fuel (py_lines text) = Some (read_csv text).
Proof. intros Hf. unfold read_csv. by rewrite !reader_rows_scan by lia. Qed.

Example read_csv_terminates_witness :
  reader_rows 5 (py_lines (⟪"a,b"⟫ ++ [LF] ++ ⟪"c"⟫)) = Some (read_csv (⟪"a,b"⟫ ++ [LF] ++ ⟪"c"⟫)).
Proof. apply read_csv_terminates. decide_vm. Defined.


End Csv.
