(* ===== verification/TextIO.v ===== *)
(** * The seed file as lines of text: [TextIOWrapper] over the UTF-8
      incremental decoder (create_issues.py, lines 180-181)

    [open(args.seed, 'r', encoding='utf-8', newline='')] gives a
    [TextIOWrapper] over the file's bytes, and [csv.reader] asks it for
    one line at a time.  This file models that object after the
    reference implementation [Lib/_pyio.py] (which the C [_io] module
    follows):
    - [nl_decode]: [IncrementalNewlineDecoder.decode] with
      [translate=False] over the UTF-8 incremental decoder: a CR at the
      end of a decoded piece is held back until the next piece, so that
      a CR LF is never split;
    - [read_chunk]: [_read_chunk], which reads [_CHUNK_SIZE] (8192)
      bytes and decodes them, as the final piece when none are left;
    - [readline_loop] and [readline]: [readline()] with the universal
      newline search of [newline=''] (a line ends after LF, CR LF, or a
      CR that no LF follows), reading more chunks until a line end is
      found or the file is over;
    - [lines_of]: the iteration of the file until the empty line (end of
      file) or the [UnicodeDecodeError] of a chunk;
    - [read_seed_file]: the script's loop over [csv.DictReader(f)]: the
      reader takes the lines one by one, so an error of the CSV reader
      in a line the file gave comes before the decoding error of a later
      chunk.
    The decoding of the file is the whole-file decoding, cut into lines
    by [Csv.py_lines], whenever the file is valid UTF-8
    ([lines_of_valid]); otherwise reading it raises.  *)

From S2P Require Import Prelude PyStr Utf8 Csv.
From Stdlib Require Import Lia.

Local Open Scope Z_scope.

Module TextIO.
Import Utf8.
Import Csv(seed_read(..), LF, CR).

(** [TextIOWrapper._CHUNK_SIZE]. *)
Definition CHUNK_SIZE : nat := Z.to_nat 8192.

(** The state of the text file: the decoded characters not yet returned
    ([_decoded_chars] after [_decoded_chars_used]), the CR held back by
    the newline decoder ([pendingcr]), the bytes the UTF-8 incremental
    decoder keeps ([buffer]), and the bytes of the file not yet read. *)
Record textio := {
  decoded_chars : ustr;
  pendingcr : bool;
  dec_buffer : list Z;
  raw : list Z
}.

Definition open_file (bs : list Z) : textio :=
  {| decoded_chars := []; pendingcr := false; dec_buffer := []; raw := bs |}.

Definition set_decoded (d : ustr) (st : textio) : textio :=
  {| decoded_chars := d; pendingcr := pendingcr st; dec_buffer := dec_buffer st;
     raw := raw st |}.

(** [if self.pendingcr and (output or final): output = "\r" + output;
    self.pendingcr = False]. *)
Definition prepend_cr (pcr : bool) (output : ustr) (final : bool) : ustr * bool :=
  if pcr && (negb (is_empty output) || final) then (CR :: output, false) else (output, pcr).

(** [if output.endswith("\r") and not final: output = output[:-1];
    self.pendingcr = True]. *)
Definition hold_cr (output : ustr) (pcr : bool) (final : bool) : ustr * bool :=
  if bool_decide (last output = Some CR) && negb final then (removelast output, true)
  else (output, pcr).

(** [IncrementalNewlineDecoder.decode(input, final)] with
    [translate=False], over [codecs.BufferedIncrementalDecoder] for
    UTF-8 (its buffer is [buf]): the decoded output, the new [pendingcr]
    and the new buffer. *)
Definition nl_decode (pcr : bool) (buf input : list Z) (final : bool)
    : u8_error + (ustr * bool * list Z) :=
  match unicode_decode_utf8 final (buf ++ input) with
  | inl e => inl e
  | inr (output, buf') =>
      let '(output, pcr) := prepend_cr pcr output final in
      let '(output, pcr) := hold_cr output pcr final in
      inr (output, pcr, buf')
  end.

(** [_read_chunk()]: whether the file is not over, and the new state
    (the decoded characters replaced by the chunk's). *)
Definition read_chunk (st : textio) : u8_error + (bool * textio) :=
  let input_chunk := take CHUNK_SIZE (raw st) in
  let eof := is_empty input_chunk in
  match nl_decode (pendingcr st) (dec_buffer st) input_chunk eof with
  | inl e => inl e
  | inr (decoded, pcr, buf) =>
      inr (negb eof, {| decoded_chars := decoded; pendingcr := pcr; dec_buffer := buf;
                        raw := drop CHUNK_SIZE (raw st) |})
  end.

(** [str.find(c, start)]. *)
Fixpoint index_of (c : Z) (s : ustr) : option nat :=
  match s with
  | [] => None
  | d :: s' => if d =? c then Some 0%nat else option_map S (index_of c s')
  end.

Definition py_find (c : Z) (s : ustr) (start : nat) : option nat :=
  option_map (fun k => start + k)%nat (index_of c (drop start s)).

(** The universal newline search of [readline]: [inr endpos] for the
    end of the line, [inl start] when there is none (the next search
    starts at [start]). *)
Definition find_line_ending (line : ustr) (start : nat) : nat + nat :=
  match py_find CR line start, py_find LF line start with
  | None, None => inl (List.length line)
  | None, Some nlpos => inr (S nlpos)
  | Some crpos, None => inr (S crpos)
  | Some crpos, Some nlpos =>
      if (nlpos <? crpos)%nat then inr (S nlpos)
      else if (nlpos =? S crpos)%nat then inr (S (S crpos))
      else inr (S crpos)
  end.

(** [while self._read_chunk(): if self._decoded_chars: break], with
    [fuel] chunks at most. *)
Fixpoint read_more (fuel : nat) (st : textio) : option (u8_error + textio) :=
  match fuel with
  | O => None
  | S f =>
      match read_chunk st with
      | inl e => Some (inl e)
      | inr (true, st') => if is_empty (decoded_chars st') then read_more f st' else Some (inr st')
      | inr (false, st') => Some (inr st')
      end
  end.

(** The loop of [readline()]: [line] holds the characters taken so far,
    with no line end before [start]. *)
Fixpoint readline_loop (fuel : nat) (line : ustr) (start : nat) (st : textio)
    : option (u8_error + (ustr * textio)) :=
  match fuel with
  | O => None
  | S f =>
      match find_line_ending line start with
      | inr endpos => Some (inr (take endpos line, set_decoded (drop endpos line) st))
      | inl start' =>
          match read_more f st with
          | None => None
          | Some (inl e) => Some (inl e)
          | Some (inr st') =>
              if is_empty (decoded_chars st') then Some (inr (line, st'))
              else readline_loop f (line ++ decoded_chars st') start' (set_decoded [] st')
          end
      end
  end.

(** The bytes and the held CR not yet decoded: every turn of the loop
    that reads on takes some of them ([readline_loop_total]). *)
Definition undecoded (st : textio) : nat :=
  List.length (raw st) + List.length (dec_buffer st) + (if pendingcr st then 1 else 0).

(** [readline()]: it starts from all the decoded characters not yet
    used ([_get_decoded_chars()]). *)
Definition readline (st : textio) : option (u8_error + (ustr * textio)) :=
  readline_loop (S (S (undecoded st))) (decoded_chars st) 0 (set_decoded [] st).

(** Iterating the file ([__next__]): the lines until [readline()]
    returns the empty string, and the decoding error that ends the
    iteration, if any; [fuel] lines at most. *)
Fixpoint lines_of (fuel : nat) (st : textio) : option (list ustr * option u8_error) :=
  match fuel with
  | O => None
  | S f =>
      match readline st with
      | None => None
      | Some (inl e) => Some ([], Some e)
      | Some (inr (line, st')) =>
          if is_empty line then Some ([], None)
          else option_map (fun '(ls, e) => (line :: ls, e)) (lines_of f st')
      end
  end.

(** Every line takes a character, and there are no more characters than
    bytes ([lines_of_total]). *)
Definition file_lines (bs : list Z) : option (list ustr * option u8_error) :=
  lines_of (S (List.length bs)) (open_file bs).

(** [with open(args.seed, 'r', encoding='utf-8', newline='') as f: for r
    in csv.DictReader(f): ...], given the file's bytes ([None] when it
    cannot be opened).  The reader takes the lines one at a time: an
    error of the reader in a line the file gave ends the loop first;
    when the reader gets through them, its next request meets the
    decoding error, if there is one. *)
Definition read_seed_file (file : option (list Z)) : seed_read :=
  match file with
  | None => SeedError ⟪"OSError"⟫
  | Some bs =>
      match file_lines bs with
      | None => SeedRows []
      | Some (lines, err) =>
          match Csv.reader_rows (S (List.length lines)) lines with
          | None => SeedRows []
          | Some (inl _) => SeedError ⟪"_csv.Error"⟫
          | Some (inr rows) =>
              match err with
              | Some _ => SeedError ⟪"UnicodeDecodeError"⟫
              | None => SeedRows (map Csv.seed_row_of (Csv.dict_reader rows))
              end
          end
      end
  end.

(** ** Auxiliary definitions of the proofs *)

Import Csv(is_nl, is_nl_false, py_lines, lines_from, pending_cr).

(** A piece of text without line breaks. *)
Definition nonl (t : ustr) : Prop := Forall (fun c => is_nl c = false) t.

Definition cr_if (b : bool) : ustr := if b then [CR] else [].

(** A text, or the decoding error met on the way. *)
Definition tprepend (l : ustr) (t : u8_error + ustr) : u8_error + ustr :=
  match t with inl e => inl e | inr s => inr (l ++ s) end.

(** The text the file still holds beyond the decoded characters: the
    held CR, then the decoding of the kept and the unread bytes. *)
Definition pending_text (st : textio) : u8_error + ustr :=
  match unicode_decode_utf8 true (dec_buffer st ++ raw st) with
  | inl e => inl e
  | inr (t, _) => inr (cr_if (pendingcr st) ++ t)
  end.

Definition text_of (st : textio) : u8_error + ustr := tprepend (decoded_chars st) (pending_text st).

(** A CR at the end of [l] is not the first half of a CR LF. *)
Definition tail_ok (l : ustr) (t : u8_error + ustr) : Prop :=
  last l = Some CR -> match t with inr R => hd_error R <> Some LF | inl _ => True end.

(** ** Lemmas *)

Lemma CR_LF : CR <> LF.
Proof. unfold CR, LF. lia. Qed.

Lemma nonl_notin t : CR ∉ t -> LF ∉ t -> nonl t.
Proof.
  intros HC HL. apply Forall_forall. intros c Hc. apply is_nl_false.
  split; intros ->; contradiction.
Qed.

Lemma notin_nonl t : nonl t -> (CR ∉ t) /\ (LF ∉ t).
Proof.
  unfold nonl. rewrite Forall_forall. intros H.
  split; intros Hin; specialize (H _ Hin); apply is_nl_false in H as [H1 H2]; done.
Qed.

(** How [py_lines] cuts the first line off. *)
Lemma lines_from_nonl cur pre s :
  nonl pre -> pending_cr cur = false ->
  lines_from cur (pre ++ s) = lines_from (reverse pre ++ cur) s.
Proof.
  intros Hp. revert cur. induction Hp as [|c pre Hc _ IH]; intros cur Hcur; [done|].
  apply is_nl_false in Hc as [HL HC].
  cbn [app lines_from]. rewrite Hcur, (proj2 (Z.eqb_neq c LF) HL). cbn [andb].
  rewrite IH by (cbn; by apply Z.eqb_neq). by rewrite reverse_cons, <- app_assoc.
Qed.

Lemma pending_cr_reverse pre : nonl pre -> pending_cr (reverse pre) = false.
Proof.
  intros Hp. destruct pre as [|c pre _] using rev_ind; [done|].
  rewrite reverse_snoc. apply Forall_app in Hp as [_ Hc%Forall_inv].
  apply is_nl_false in Hc as [_ HC]. cbn. by apply Z.eqb_neq.
Qed.

Lemma py_lines_pre pre s : nonl pre -> py_lines (pre ++ s) = lines_from (reverse pre) s.
Proof. intros Hp. unfold py_lines. rewrite lines_from_nonl by done. by rewrite app_nil_r. Qed.

Lemma py_lines_lf pre R : nonl pre -> py_lines (pre ++ LF :: R) = (pre ++ [LF]) :: py_lines R.
Proof.
  intros Hp. rewrite py_lines_pre by done. cbn [lines_from].
  rewrite pending_cr_reverse, Z.eqb_refl by done. cbn [andb].
  by rewrite reverse_cons, reverse_involutive.
Qed.

Lemma py_lines_crlf pre R :
  nonl pre -> py_lines (pre ++ CR :: LF :: R) = (pre ++ [CR; LF]) :: py_lines R.
Proof.
  intros Hp. rewrite py_lines_pre by done. cbn [lines_from pending_cr].
  rewrite pending_cr_reverse, (proj2 (Z.eqb_neq CR LF) CR_LF), !Z.eqb_refl by done.
  cbn [andb negb]. by rewrite !reverse_cons, reverse_involutive, <- app_assoc.
Qed.

Lemma py_lines_cr pre R :
  nonl pre -> hd_error R <> Some LF -> py_lines (pre ++ CR :: R) = (pre ++ [CR]) :: py_lines R.
Proof.
  intros Hp Hr. rewrite py_lines_pre by done. cbn [lines_from].
  rewrite pending_cr_reverse, (proj2 (Z.eqb_neq CR LF) CR_LF) by done. cbn [andb].
  destruct R as [|c R]; cbn [lines_from is_empty pending_cr].
  - by rewrite reverse_cons, reverse_involutive.
  - assert (Hc : (c =? LF) = false) by (apply Z.eqb_neq; intros ->; by apply Hr).
    rewrite Z.eqb_refl, Hc. cbn [andb negb]. rewrite reverse_cons, reverse_involutive.
    unfold py_lines. cbn [lines_from pending_cr andb]. by rewrite Hc.
Qed.

Lemma py_lines_last pre : nonl pre -> pre <> [] -> py_lines pre = [pre].
Proof.
  intros Hp Hne. rewrite <- (app_nil_r pre), py_lines_pre, app_nil_r by done.
  cbn [lines_from]. destruct (reverse pre) eqn:E; cbn [is_empty].
  - apply (f_equal reverse) in E. by rewrite reverse_involutive in E.
  - by rewrite <- E, reverse_involutive.
Qed.

(** [str.find]. *)
Lemma index_of_spec c s :
  match index_of c s with
  | Some k => s !! k = Some c /\ c ∉ take k s
  | None => c ∉ s
  end.
Proof.
  induction s as [|d s IH]; cbn [index_of]; [apply not_elem_of_nil|].
  destruct (Z.eqb_spec d c) as [->|Hne]; [split; [done|apply not_elem_of_nil]|].
  destruct (index_of c s) as [k|]; cbn [option_map].
  - destruct IH as [Hk Hn]. split; [done|]. cbn [take]. rewrite elem_of_cons. by intros [->|].
  - rewrite elem_of_cons. by intros [->|].
Qed.

Lemma py_find_index c s start : c ∉ take start s -> py_find c s start = index_of c s.
Proof.
  unfold py_find. revert s. induction start as [|n IH]; intros s H.
  - rewrite drop_0. by destruct (index_of c s).
  - destruct s as [|d s]; [done|]. cbn [take] in H. rewrite elem_of_cons in H.
    cbn [skipn index_of]. rewrite (proj2 (Z.eqb_neq d c)) by (intros ->; apply H; by left).
    rewrite <- (IH s) by (intros Hin; apply H; by right). by destruct (index_of c (drop n s)).
Qed.

Lemma take_mono (x : Z) l n m : (n <= m)%nat -> x ∈ take n l -> x ∈ take m l.
Proof. intros Hnm. rewrite !elem_of_take. intros (i & Hi & Hlt). exists i. split; [done|lia]. Qed.

Lemma notin_take (x : Z) l n : x ∉ l -> x ∉ take n l.
Proof. intros Hx Hin. apply elem_of_take in Hin as (i & Hi & _). apply Hx. by eapply list_elem_of_lookup_2. Qed.

Lemma snoc_not_nil (l : ustr) x : l ++ [x] <> [].
Proof. intros H. apply (f_equal (@List.length Z)) in H. rewrite length_app in H. cbn in H. lia. Qed.

(** The three ways a line ends. *)
Lemma line_end_lf line n R :
  line !! n = Some LF -> nonl (take n line) ->
  take (S n) line <> [] /\ py_lines (line ++ R) = take (S n) line :: py_lines (drop (S n) line ++ R).
Proof.
  intros Hn Hp. rewrite (take_S_r _ _ _ Hn). split; [apply snoc_not_nil|].
  transitivity (py_lines ((take n line ++ LF :: drop (S n) line) ++ R)); [by rewrite take_drop_middle|].
  rewrite <- app_assoc. cbn [app]. by apply py_lines_lf.
Qed.

Lemma line_end_crlf line c R :
  line !! c = Some CR -> line !! S c = Some LF -> nonl (take c line) ->
  take (S (S c)) line <> [] /\
  py_lines (line ++ R) = take (S (S c)) line :: py_lines (drop (S (S c)) line ++ R).
Proof.
  intros Hc Hn Hp. rewrite (take_S_r _ _ _ Hn). split; [apply snoc_not_nil|].
  rewrite (take_S_r _ _ _ Hc).
  transitivity (py_lines ((take c line ++ CR :: LF :: drop (S (S c)) line) ++ R)).
  { by rewrite <- (drop_S _ _ _ Hn), take_drop_middle. }
  rewrite <- !app_assoc. cbn [app]. by apply py_lines_crlf.
Qed.

Lemma line_end_cr line c R :
  line !! c = Some CR -> nonl (take c line) -> hd_error (drop (S c) line ++ R) <> Some LF ->
  take (S c) line <> [] /\ py_lines (line ++ R) = take (S c) line :: py_lines (drop (S c) line ++ R).
Proof.
  intros Hc Hp Hh. rewrite (take_S_r _ _ _ Hc). split; [apply snoc_not_nil|].
  transitivity (py_lines ((take c line ++ CR :: drop (S c) line) ++ R)); [by rewrite take_drop_middle|].
  rewrite <- app_assoc. cbn [app]. by apply py_lines_cr.
Qed.

(** The line end [readline] finds is where [py_lines] ends the first
    line of the text, when no line break comes before [start] and,
    if [line] ends with CR, the text after it does not start with LF. *)
Lemma find_line_ending_spec line start R :
  nonl (take start line) ->
  (last line = Some CR -> hd_error R <> Some LF) ->
  match find_line_ending line start with
  | inr endpos => take endpos line <> [] /\
      py_lines (line ++ R) = take endpos line :: py_lines (drop endpos line ++ R)
  | inl start' => start' = List.length line /\ nonl line
  end.
Proof.
  intros Hs Hlast. destruct (notin_nonl _ Hs) as [HsC HsL].
  unfold find_line_ending. rewrite !py_find_index by done.
  pose proof (index_of_spec CR line) as HC. pose proof (index_of_spec LF line) as HL.
  destruct (index_of CR line) as [c|], (index_of LF line) as [n|].
  - destruct HC as [Hc HCc], HL as [Hn HLn].
    destruct (Nat.ltb_spec n c).
    + apply line_end_lf; [done|]. apply nonl_notin; [|done]. intros Hin.
      apply HCc. apply (take_mono _ _ n); [lia|done].
    + assert (Hpre : nonl (take c line)).
      { apply nonl_notin; [done|]. intros Hin. apply HLn. apply (take_mono _ _ c); [lia|done]. }
      destruct (Nat.eqb_spec n (S c)) as [->|Hne]; [by apply line_end_crlf|].
      apply line_end_cr; [done|done|].
      assert (Hnc : n <> c) by (intros ->; rewrite Hc in Hn; discriminate).
      destruct (lookup_lt_is_Some_2 line (S c)) as [d Hd].
      { apply lookup_lt_Some in Hn. lia. }
      rewrite (drop_S _ _ _ Hd). cbn. intros [= ->]. apply HLn. apply elem_of_take.
      exists (S c). split; [done|lia].
  - destruct HC as [Hc HCc].
    apply line_end_cr; [done|apply nonl_notin; [done|by apply notin_take]|].
    destruct (drop (S c) line) as [|d t] eqn:E.
    + apply Hlast. rewrite <- (take_drop_middle line c CR Hc), E. apply last_snoc.
    + cbn. intros [= ->]. apply HL. assert (Hin : LF ∈ drop (S c) line) by (rewrite E; left).
      apply list_elem_of_lookup in Hin as [i Hi]. rewrite lookup_drop in Hi.
      by eapply list_elem_of_lookup_2.
  - destruct HL as [Hn HLn]. apply line_end_lf; [done|]. apply nonl_notin; [by apply notin_take|done].
  - split; [done|]. by apply nonl_notin.
Qed.

(** ** The decoder's state *)

Lemma removelast_last (l : ustr) x : last l = Some x -> l = removelast l ++ [x].
Proof.
  induction l as [|y l IH]; [done|]. destruct l as [|z l]; cbn; [by intros [= ->]|].
  intros H. cbn in IH. by rewrite <- IH.
Qed.

Lemma removelast_last_length (l : ustr) x : last l = Some x -> List.length l = S (List.length (removelast l)).
Proof. intros H. rewrite (removelast_last l x H) at 1. rewrite length_app. cbn. lia. Qed.

Lemma prepend_cr_spec pcr out final o1 p1 :
  prepend_cr pcr out final = (o1, p1) ->
  cr_if pcr ++ out = o1 ++ cr_if p1 /\ (final = true -> p1 = false) /\ (p1 = true -> o1 = []).
Proof.
  unfold prepend_cr. destruct pcr, out, final; cbn; intros [= <- <-]; rewrite ?app_nil_r;
    repeat split; done.
Qed.

Lemma hold_cr_spec o1 p1 final o p :
  (p1 = true -> o1 = []) -> hold_cr o1 p1 final = (o, p) ->
  o1 ++ cr_if p1 = o ++ cr_if p /\ (final = true -> p = p1) /\
  (last o = Some CR -> final = true \/ p = true).
Proof.
  unfold hold_cr. intros Hp. case_bool_decide as Hl; destruct final; cbn [andb negb];
    intros [= <- <-]; repeat split; try done; try (intros; by left).
  - destruct p1; [by rewrite Hp in Hl|]. cbn. rewrite app_nil_r. by apply removelast_last.
  - intros; by right.
Qed.

(** The newline decoder moves the CR between its output and its flag,
    and nothing else. *)
Lemma nl_decode_spec pcr buf input final o p buf' :
  nl_decode pcr buf input final = inr (o, p, buf') ->
  exists out, unicode_decode_utf8 final (buf ++ input) = inr (out, buf') /\
    cr_if pcr ++ out = o ++ cr_if p /\ (final = true -> p = false) /\
    (last o = Some CR -> final = true \/ p = true).
Proof.
  unfold nl_decode. destruct (unicode_decode_utf8 final (buf ++ input)) as [e|[out b]]; [discriminate|].
  destruct (prepend_cr pcr out final) as [o1 p1] eqn:E1. destruct (hold_cr o1 p1 final) as [o2 p2] eqn:E2.
  intros [= <- <- <-]. exists out. split; [done|].
  destruct (prepend_cr_spec _ _ _ _ _ E1) as (H1 & H2 & H3).
  destruct (hold_cr_spec _ _ _ _ _ H3 E2) as (H4 & H5 & H6).
  split; [by rewrite H1|]. split; [|done]. intros Hf. rewrite H5 by done. by apply H2.
Qed.


Lemma chunk_size_pos : (0 < CHUNK_SIZE)%nat.
Proof. unfold CHUNK_SIZE. lia. Qed.

Lemma length_cr_if b : List.length (cr_if b) = if b then 1%nat else 0%nat.
Proof. by destruct b. Qed.

(** One chunk: the text the decoder had is the chunk's decoded
    characters followed by the text it has now; a CR at the end of them
    is held or final; the last read leaves no text; a read that is not
    the last takes bytes; and the decoded characters come out of the
    undecoded bytes. *)
Lemma read_chunk_spec st b st' :
  read_chunk st = inr (b, st') ->
  pending_text st = tprepend (decoded_chars st') (pending_text st') /\
  tail_ok (decoded_chars st') (pending_text st') /\
  (b = false -> pending_text st' = inr [] /\ raw st = []) /\
  (b = true -> (List.length (raw st') < List.length (raw st))%nat) /\
  (List.length (decoded_chars st') + undecoded st' <= undecoded st)%nat.
Proof.
  unfold read_chunk. remember (take CHUNK_SIZE (raw st)) as input eqn:Ein.
  set (rest := drop CHUNK_SIZE (raw st)).
  assert (Hsplit : raw st = input ++ rest) by (subst input; symmetry; apply take_drop).
  destruct (nl_decode _ _ _ _) as [e|[[o p] buf']] eqn:E; [discriminate|]. intros [= <- <-].
  destruct (nl_decode_spec _ _ _ _ _ _ _ E) as (out & Hd & Hcr & Hfin & Hlast).
  pose proof (decode_length _ _ _ _ Hd) as Hlen. rewrite length_app in Hlen.
  apply (f_equal (@List.length Z)) in Hcr as Hcrl. rewrite !length_app, !length_cr_if in Hcrl.
  unfold pending_text, undecoded; cbn [decoded_chars pendingcr dec_buffer raw].
  fold rest. rewrite Hsplit, length_app. destruct (is_empty input) eqn:He.
  - destruct input; [|done].
    assert (Hp : p = false) by (by apply Hfin). subst p.
    pose proof (decode_final_nil _ _ _ Hd) as ->.
    assert (Hr : rest = []).
    { destruct (take_nil_inv (raw st) CHUNK_SIZE (eq_sym Ein)) as [H0|H0].
      - pose proof chunk_size_pos. lia.
      - unfold rest. by rewrite H0. }
    rewrite Hr in *. rewrite !app_nil_r in *. rewrite Hd, decode_nil.
    cbn [cr_if app tprepend List.length]. rewrite app_nil_r, Hcr.
    repeat split; try done. destruct (pendingcr st); lia.
  - pose proof (decode_app (dec_buffer st ++ input) rest true) as Ha. rewrite Hd in Ha.
    rewrite app_assoc, Ha. cbn [negb].
    assert (Hin : input <> []) by (by destruct input).
    destruct (unicode_decode_utf8 true (buf' ++ rest)) as [e|[t q]]; cbn [prepend tprepend].
    + repeat split; try done. destruct input; [done|]. cbn. lia.
      destruct (pendingcr st), p; lia.
    + repeat split; try done.
      * by rewrite app_assoc, Hcr, app_assoc.
      * intros Hl. destruct (Hlast Hl) as [Hf | ->]; [done|]. done.
      * destruct input; [done|]. cbn. lia.
      * destruct (pendingcr st), p; lia.
Qed.

Lemma read_chunk_error st e : read_chunk st = inl e -> exists e', pending_text st = inl e'.
Proof.
  unfold read_chunk, nl_decode, pending_text.
  remember (take CHUNK_SIZE (raw st)) as input eqn:Ein.
  assert (Hsplit : raw st = input ++ drop CHUNK_SIZE (raw st)) by (subst input; symmetry; apply take_drop).
  destruct (unicode_decode_utf8 (is_empty input) (dec_buffer st ++ input)) as [e'|[o b]] eqn:Hd.
  - intros _. exists e'. rewrite Hsplit. destruct input as [|c i].
    +
      destruct (take_nil_inv (raw st) CHUNK_SIZE (eq_sym Ein)) as [H0|H0];
        [pose proof chunk_size_pos; lia|]. rewrite H0, drop_nil. cbn [is_empty app] in Hd |- *. by rewrite Hd.
    + pose proof (decode_app (dec_buffer st ++ c :: i) (drop CHUNK_SIZE (raw st)) true) as Ha.
      cbn [is_empty] in Hd. rewrite Hd in Ha. by rewrite app_assoc, Ha.
  - by destruct (prepend_cr _ _ _), (hold_cr _ _ _).
Qed.

(** Reading on until there are decoded characters or the file is
    over. *)
Lemma read_more_spec f st r :
  read_more f st = Some r ->
  match r with
  | inl e => exists e', pending_text st = inl e'
  | inr st' =>
      pending_text st = tprepend (decoded_chars st') (pending_text st') /\
      tail_ok (decoded_chars st') (pending_text st') /\
      (decoded_chars st' = [] -> pending_text st' = inr []) /\
      (List.length (decoded_chars st') + undecoded st' <= undecoded st)%nat
  end.
Proof.
  revert st. induction f as [|f IH]; intros st; cbn [read_more]; [done|].
  destruct (read_chunk st) as [e|[b st1]] eqn:E.
  - intros [= <-]. by eapply read_chunk_error.
  - destruct (read_chunk_spec _ _ _ E) as (Ht & Htail & Hend & Hraw & Hpot).
    destruct b; [destruct (decoded_chars st1) eqn:Hd; cbn [is_empty]|].
    + intros Hr. specialize (IH st1 Hr). destruct r as [e|st'].
      * destruct IH as [e' He]. exists e'. by rewrite Ht, He.
      * destruct IH as (Ht' & Htail' & Hend' & Hpot'). rewrite Ht, Ht'.
        destruct (pending_text st'); cbn; repeat split; try done; lia.
    + intros [= <-]. repeat split; try done; by rewrite Hd.
    + intros [= <-]. destruct (Hend eq_refl) as [Hp _]. by repeat split.
Qed.

Lemma read_more_total f st : (List.length (raw st) < f)%nat -> read_more f st <> None.
Proof.
  revert st. induction f as [|f IH]; intros st Hf; [lia|]. cbn [read_more].
  destruct (read_chunk st) as [e|[b st1]] eqn:E; [done|].
  destruct (read_chunk_spec _ _ _ E) as (_ & _ & _ & Hraw & _).
  destruct b; [|done]. destruct (is_empty (decoded_chars st1)); [|done].
  apply IH. specialize (Hraw eq_refl). lia.
Qed.

Lemma index_of_lt c s k : index_of c s = Some k -> (k < List.length s)%nat.
Proof.
  revert k. induction s as [|d s IH]; intros k; cbn [index_of]; [done|].
  destruct (d =? c); [intros [= <-]; cbn; lia|].
  destruct (index_of c s) as [k'|]; cbn; [intros [= <-]; specialize (IH k' eq_refl); lia|done].
Qed.

Lemma py_find_lt c s start k : py_find c s start = Some k -> (k < List.length s)%nat.
Proof.
  unfold py_find. destruct (index_of c (drop start s)) as [k'|] eqn:E; cbn; [|done].
  intros [= <-]. apply index_of_lt in E. rewrite length_drop in E. lia.
Qed.

(** A line end found is inside the line. *)
Lemma find_line_ending_pos line start endpos :
  find_line_ending line start = inr endpos -> (0 < endpos <= List.length line)%nat.
Proof.
  unfold find_line_ending.
  destruct (py_find CR line start) as [c|] eqn:Hc, (py_find LF line start) as [n|] eqn:Hn;
    try apply py_find_lt in Hc; try apply py_find_lt in Hn.
  - destruct (Nat.ltb_spec n c); [intros [= <-]; lia|].
    destruct (Nat.eqb_spec n (S c)); intros [= <-]; lia.
  - intros [= <-]. lia.
  - intros [= <-]. lia.
  - done.
Qed.

Lemma pending_text_set_decoded d st : pending_text (set_decoded d st) = pending_text st.
Proof. done. Qed.

Lemma decoded_set_decoded d st : decoded_chars (set_decoded d st) = d.
Proof. done. Qed.

Lemma text_of_set_decoded d st : text_of (set_decoded d st) = tprepend d (pending_text st).
Proof. done. Qed.

Lemma undecoded_set_decoded d st : undecoded (set_decoded d st) = undecoded st.
Proof. done. Qed.

Lemma last_drop (l : ustr) n x : last (drop n l) = Some x -> last l = Some x.
Proof.
  intros H. rewrite <- (take_drop n l), last_app. rewrite H. done.
Qed.

Lemma tprepend_app l1 l2 t : tprepend l1 (tprepend l2 t) = tprepend (l1 ++ l2) t.
Proof. destruct t; cbn; by rewrite ?app_assoc. Qed.

(** What [readline] returns is what the text held: the line, then the
    text of the new state; an error is an error of the text; the
    empty line is the end of the text. *)
Lemma readline_loop_sound f line start st r :
  decoded_chars st = [] -> readline_loop f line start st = Some r ->
  match r with
  | inl e => exists e', pending_text st = inl e'
  | inr (l, st') =>
      tprepend line (pending_text st) = tprepend l (text_of st') /\
      (l = [] -> line = [] /\ pending_text st = inr []) /\
      (List.length l + List.length (decoded_chars st') + undecoded st' <=
       List.length line + undecoded st)%nat
  end.
Proof.
  revert line start st. induction f as [|f IH]; intros line start st Hd; cbn [readline_loop]; [done|].
  destruct (find_line_ending line start) as [start'|endpos] eqn:Hfind.
  - destruct (read_more f st) as [[e|st1]|] eqn:Hm; [| |done];
      pose proof (read_more_spec _ _ _ Hm) as Hs.
    + intros [= <-]. done.
    + destruct Hs as (Ht & _ & Hend & Hpot). destruct (decoded_chars st1) as [|c d] eqn:Hd1; cbn [is_empty].
      * intros [= <-]. unfold text_of. rewrite Hd1, Ht. cbn [tprepend].
        rewrite Hend by done.
        repeat split; try done. cbn [List.length] in *. lia.
      * intros Hr. specialize (IH _ _ (set_decoded [] st1) eq_refl Hr). destruct r as [e|[l st']].
        { destruct IH as [e' He]. rewrite pending_text_set_decoded in He. exists e'. by rewrite Ht, He. }
        destruct IH as (IH1 & IH2 & IH3). rewrite pending_text_set_decoded in IH1, IH2.
        rewrite undecoded_set_decoded in IH3. rewrite length_app in IH3. cbn [List.length] in *.
        split; [by rewrite Ht, tprepend_app|]. split; [|lia].
        intros ->. destruct (IH2 eq_refl) as [Hl _]. apply (f_equal (@List.length Z)) in Hl.
        rewrite length_app in Hl. cbn in Hl. lia.
  - intros [= <-]. rewrite text_of_set_decoded, tprepend_app, take_drop.
    split; [done|]. split.
    + intros Hl. apply find_line_ending_pos in Hfind. destruct line; [cbn in Hfind; lia|].
      destruct endpos; [lia|done].
    + apply find_line_ending_pos in Hfind. unfold set_decoded, undecoded; cbn [decoded_chars raw dec_buffer pendingcr].
      rewrite length_take, length_drop. lia.
Qed.

(** On a text that decodes, [readline] cuts the first line of
    [py_lines] off, and keeps the state's CR invariant. *)
Lemma readline_loop_lines f line start st l st' R :
  decoded_chars st = [] -> nonl (take start line) -> tail_ok line (pending_text st) ->
  pending_text st = inr R -> readline_loop f line start st = Some (inr (l, st')) -> l <> [] ->
  exists R', text_of st' = inr R' /\ py_lines (line ++ R) = l :: py_lines R' /\
    tail_ok (decoded_chars st') (pending_text st').
Proof.
  revert line start st R. induction f as [|f IH]; intros line start st R Hd Hs Htl HR;
    cbn [readline_loop]; [done|].
  pose proof (find_line_ending_spec line start R Hs) as Hf. rewrite HR in Htl.
  destruct (find_line_ending line start) as [start'|endpos].
  - destruct (Hf Htl) as [-> Hnl].
    destruct (read_more f st) as [[e|st1]|] eqn:Hm; [done| |done].
    destruct (read_more_spec _ _ _ Hm) as (Ht & Htail & Hend & _).
    destruct (decoded_chars st1) as [|c d] eqn:Hd1; cbn [is_empty].
    + intros [= <- <-] Hne. specialize (Hend eq_refl). rewrite HR, Hend in Ht. cbn in Ht. simplify_eq.
      exists []. unfold text_of. rewrite Hd1, Hend. split; [done|].
      rewrite app_nil_r, py_lines_last by done. split; [done|]. intros Hl; discriminate Hl.
    + intros Hr Hne. rewrite HR in Ht. destruct (pending_text st1) as [e|R1] eqn:HR1; [done|].
      cbn in Ht. simplify_eq.
      destruct (IH (line ++ c :: d) (List.length line) (set_decoded [] st1) R1 eq_refl)
        as (R' & H1 & H2 & H3); try done.
      * by rewrite take_app_length.
      * rewrite pending_text_set_decoded, HR1. intros Hl. apply Htail.
        rewrite last_app in Hl. destruct (last (c :: d)) eqn:E; [congruence|].
        apply last_None in E. discriminate.
      * exists R'. rewrite <- app_assoc in H2. by repeat split.
  - intros [= <- <-] _. exists (drop endpos line ++ R).
    rewrite text_of_set_decoded, HR. destruct (Hf Htl) as [_ H]. split; [done|]. split; [done|].
    rewrite decoded_set_decoded, pending_text_set_decoded, HR. intros Hl. apply Htl.
    by eapply last_drop.
Qed.

Lemma readline_loop_total f line start st :
  decoded_chars st = [] -> (undecoded st + 1 < f)%nat -> readline_loop f line start st <> None.
Proof.
  revert line start st. induction f as [|f IH]; intros line start st Hd Hf; [lia|]. cbn [readline_loop].
  destruct (find_line_ending line start) as [start'|endpos]; [|done].
  destruct (read_more f st) as [[e|st1]|] eqn:Hm; [done| |].
  - destruct (read_more_spec _ _ _ Hm) as (_ & _ & _ & Hpot).
    destruct (decoded_chars st1) as [|c d] eqn:Hd1; cbn [is_empty]; [done|].
    apply IH; [done|]. rewrite undecoded_set_decoded. cbn [List.length] in Hpot. lia.
  - exfalso. revert Hm. apply read_more_total. unfold undecoded in Hf. lia.
Qed.

(** [readline] from a state. *)
Lemma readline_total st : readline st <> None.
Proof. unfold readline. apply readline_loop_total; [done|]. rewrite undecoded_set_decoded. lia. Qed.

Lemma readline_sound st r :
  readline st = Some r ->
  match r with
  | inl e => exists e', text_of st = inl e'
  | inr (l, st') =>
      text_of st = tprepend l (text_of st') /\ (l = [] -> text_of st = inr []) /\
      (List.length l + List.length (decoded_chars st') + undecoded st' <=
       List.length (decoded_chars st) + undecoded st)%nat
  end.
Proof.
  unfold readline. intros Hr. apply readline_loop_sound in Hr; [|done].
  rewrite pending_text_set_decoded, undecoded_set_decoded in Hr. unfold text_of.
  destruct r as [e|[l st']].
  - destruct Hr as [e' He]. exists e'. by rewrite He.
  - destruct Hr as (H1 & H2 & H3). split; [done|]. split; [|done].
    intros ->. destruct (H2 eq_refl) as [-> ->]. done.
Qed.

Lemma readline_lines st l st' T :
  tail_ok (decoded_chars st) (pending_text st) -> text_of st = inr T ->
  readline st = Some (inr (l, st')) -> l <> [] ->
  exists T', text_of st' = inr T' /\ py_lines T = l :: py_lines T' /\
    tail_ok (decoded_chars st') (pending_text st').
Proof.
  unfold readline. intros Htl HT Hr Hne. unfold text_of in HT.
  destruct (pending_text st) as [e|R] eqn:HR; [done|]. cbn in HT. simplify_eq.
  apply (readline_loop_lines (S (S (undecoded st))) (decoded_chars st) 0 (set_decoded [] st) l st' R);
    try done.
  - by apply Forall_nil.
  - by rewrite pending_text_set_decoded, HR.
Qed.

(** Iterating the file. *)
Lemma lines_of_total fuel st :
  (List.length (decoded_chars st) + undecoded st < fuel)%nat -> lines_of fuel st <> None.
Proof.
  revert st. induction fuel as [|f IH]; intros st Hf; [lia|]. cbn [lines_of].
  pose proof (readline_total st) as Ht.
  destruct (readline st) as [[e|[l st']]|] eqn:Hr; [done| |done].
  destruct (is_empty l) eqn:He; [done|].
  pose proof (readline_sound _ _ Hr) as (_ & _ & Hp). destruct l; [done|].
  cbn [List.length] in Hp. specialize (IH st' ltac:(lia)). by destruct (lines_of f st') as [[]|].
Qed.

Lemma lines_of_sound fuel st ls err :
  lines_of fuel st = Some (ls, err) ->
  match err with
  | None => text_of st = inr (List.concat ls)
  | Some _ => exists e', text_of st = inl e'
  end.
Proof.
  revert st ls. induction fuel as [|f IH]; intros st ls; cbn [lines_of]; [done|].
  destruct (readline st) as [[e|[l st']]|] eqn:Hr; [| |done]; pose proof (readline_sound _ _ Hr) as Hs.
  - intros [= <- <-]. done.
  - destruct (is_empty l) eqn:He.
    + intros [= <- <-]. destruct l; [|done]. destruct Hs as (_ & H & _). by apply H.
    + destruct (lines_of f st') as [[ls' err']|] eqn:Hl; [|done]. intros [= <- <-].
      specialize (IH _ _ Hl). destruct Hs as (Ht & _). rewrite Ht.
      destruct err'; [destruct IH as [e' He']; exists e'; by rewrite He'|]. by rewrite IH.
Qed.

Lemma lines_of_valid fuel st T :
  tail_ok (decoded_chars st) (pending_text st) -> text_of st = inr T ->
  (List.length T < fuel)%nat -> lines_of fuel st = Some (py_lines T, None).
Proof.
  revert st T. induction fuel as [|f IH]; intros st T Htl HT Hf; [lia|]. cbn [lines_of].
  pose proof (readline_total st) as Htot.
  destruct (readline st) as [[e|[l st']]|] eqn:Hr; [|  |done]; pose proof (readline_sound _ _ Hr) as Hs.
  - destruct Hs as [e' He]. congruence.
  - destruct l as [|c l].
    + cbn [is_empty]. destruct Hs as (_ & H & _). rewrite (H eq_refl) in HT. by simplify_eq.
    + cbn [is_empty]. destruct (readline_lines _ _ _ _ Htl HT Hr ltac:(done)) as (T' & HT' & Hp & Htl').
      destruct Hs as (Ht & _). rewrite HT, HT' in Ht. cbn in Ht. simplify_eq.
      rewrite (IH st' T') by (try done; cbn [List.length] in Hf; rewrite ?length_app in Hf; lia).
      cbn [option_map]. by rewrite Hp.
Qed.

(** The file as opened. *)
Lemma text_of_open bs : text_of (open_file bs) = utf8_decode_strict bs.
Proof.
  unfold text_of, pending_text, utf8_decode_strict, open_file.
  cbn [decoded_chars dec_buffer raw pendingcr app cr_if].
  by destruct (unicode_decode_utf8 true bs) as [|[]].
Qed.

Lemma concat_lines_from cur s : List.concat (lines_from cur s) = reverse cur ++ s.
Proof.
  revert cur. induction s as [|c s IH]; intros cur; cbn [lines_from].
  - destruct cur as [|d cur]; [done|]. cbn. by rewrite app_nil_r.
  - destruct (pending_cr cur && negb (c =? LF)); [|destruct (c =? LF)]; cbn [List.concat];
      rewrite IH, ?reverse_cons; cbn; by rewrite <- ?app_assoc.
Qed.

Lemma concat_py_lines t : List.concat (py_lines t) = t.
Proof. apply concat_lines_from. Qed.

Lemma file_lines_total bs : file_lines bs <> None.
Proof. unfold file_lines. apply lines_of_total. cbn. lia. Qed.

(** Whatever the file holds, the iteration ends: with all the lines of
    its text when it decodes, with the decoding error otherwise. *)
Lemma file_lines_sound bs ls err :
  file_lines bs = Some (ls, err) ->
  match err with
  | None => utf8_decode_strict bs = inr (List.concat ls)
  | Some _ => exists e, utf8_decode_strict bs = inl e
  end.
Proof. unfold file_lines. intros H. apply lines_of_sound in H. by rewrite text_of_open in H. Qed.

(** A valid UTF-8 file gives, chunk by chunk, exactly the lines of its
    decoded text. *)
Lemma file_lines_valid t :
  Forall scalar t -> file_lines (utf8_encode t) = Some (py_lines t, None).
Proof.
  intros Ht. unfold file_lines. apply lines_of_valid.
  - intros Hl. discriminate Hl.
  - rewrite text_of_open. unfold utf8_decode_strict. by rewrite decode_encode.
  - pose proof (encode_length t). lia.
Qed.

(** Every character [csv.writer] writes is a character of a field, a
    quote, a comma or a line break. *)
Lemma join_Forall (P : Z -> Prop) sep l :
  Forall P sep -> Forall (Forall P) l -> Forall P (join sep l).
Proof.
  intros Hs. induction 1 as [|x l Hx Hl IH]; [constructor|].
  destruct l as [|y l]; [done|]. rewrite join_cons_cons. apply Forall_app; split; [done|].
  apply Forall_app; split; done.
Qed.

Lemma write_rows_Forall (P : Z -> Prop) rows :
  P Csv.quotechar -> P Csv.delimiter -> P CR -> P LF -> Forall (Forall (Forall P)) rows ->
  Forall P (Csv.write_rows rows).
Proof.
  intros Hq Hd Hcr Hlf Hr. unfold Csv.write_rows. apply Forall_flat_map.
  eapply Forall_impl; [exact Hr|]. intros row Hrow. unfold Csv.write_row.
  assert (Hnl : Forall P [CR; LF]) by (repeat constructor; done).
  assert (Hq' : Forall P (join [Csv.delimiter] (map Csv.quote_field row) ++ [CR; LF])).
  { apply Forall_app; split; [|done]. apply join_Forall; [by repeat constructor|].
    apply Forall_map. eapply Forall_impl; [exact Hrow|]. intros f Hf. unfold Csv.quote_field.
    destruct (Csv.needs_quotes f); [|done]. constructor; [done|]. apply Forall_app; split.
    - unfold Csv.escape. apply Forall_flat_map. eapply Forall_impl; [exact Hf|]. intros c Hc.
      destruct (c =? Csv.quotechar); by repeat constructor.
    - by repeat constructor. }
  destruct row as [|[|c f] [|g row]]; try done. by repeat constructor.
Qed.

Lemma write_rows_scalar rows :
  Forall (Forall (Forall scalar)) rows -> Forall scalar (Csv.write_rows rows).
Proof.
  apply write_rows_Forall; unfold scalar, Csv.quotechar, Csv.delimiter, CR, LF; lia.
Qed.

(** The seed file as the script reads it: a valid UTF-8 file is read
    as its text is ([Csv.read_seed]). *)
Lemma read_seed_file_text t :
  Forall scalar t -> read_seed_file (Some (utf8_encode t)) = Csv.read_seed (Some t).
Proof.
  intros Ht. unfold read_seed_file, Csv.read_seed, Csv.read_csv. rewrite file_lines_valid by done.
  by destruct (Csv.reader_rows _ _) as [[]|].
Qed.

(** A file that is not valid UTF-8 ends the reading with an exception:
    the decoding error, or an error of the CSV reader in the lines read
    before the bad chunk. *)
Lemma read_seed_file_not_utf8 bs e :
  utf8_decode_strict bs = inl e ->
  read_seed_file (Some bs) = SeedError ⟪"UnicodeDecodeError"⟫ \/
  read_seed_file (Some bs) = SeedError ⟪"_csv.Error"⟫.
Proof.
  intros He. unfold read_seed_file. pose proof (file_lines_total bs) as Ht.
  destruct (file_lines bs) as [[ls err]|] eqn:Hf; [|done].
  apply file_lines_sound in Hf. rewrite Csv.reader_rows_scan by lia.
  destruct (Csv.scan _ _); [by right|]. destruct err; [by left|]. congruence.
Qed.

(** ** Properties *)

(** C20 (equivalence): reading a file as [TextIOWrapper] does, in
    8192-byte chunks through the incremental UTF-8 decoder and the
    newline decoder that holds a final CR back, gives exactly the lines
    [py_lines] cuts from the whole file's decoding, without error,
    precisely when the file is valid UTF-8. *)
Theorem file_lines_decode bs s :
  Forall is_byte bs ->
  file_lines bs = Some (py_lines s, None) <-> utf8_decode_strict bs = inr s.
Proof.
  intros Hb. split.
  - intros H. apply file_lines_sound in H. by rewrite concat_py_lines in H.
  - unfold utf8_decode_strict. destruct (unicode_decode_utf8 true bs) as [e|[s' p]] eqn:E; [done|].
    intros [= <-]. destruct (decode_sound _ _ _ Hb E) as (_ & Hs & <-).
    by apply file_lines_valid.
Qed.

Lemma file_lines_decode_witness :
  Forall is_byte [0x61; 0x0D; 0x0A; 0xC3; 0xA9] /\
  (file_lines [0x61; 0x0D; 0x0A; 0xC3; 0xA9] = Some (py_lines [0x61; 0x0D; 0x0A; 0xE9], None) <->
   utf8_decode_strict [0x61; 0x0D; 0x0A; 0xC3; 0xA9] = inr [0x61; 0x0D; 0x0A; 0xE9]).
Proof.
  assert (H : Forall is_byte [0x61; 0x0D; 0x0A; 0xC3; 0xA9])
    by (repeat constructor; unfold is_byte; lia).
  split; [exact H|]. exact (file_lines_decode _ _ H).
Defined.

(** Which exception ends a file that is both too wide for the CSV reader
    and not valid UTF-8 depends on where the 8192-byte chunks fall: a
    field of 131073 characters on line 2, then an invalid byte 0xFF.
    When the bad byte is in the chunk after the one that ends the long
    line, the reader fails first ([_csv.Error]); one byte earlier, it is
    in the same chunk, and decoding that chunk fails before the line is
    returned ([UnicodeDecodeError]). *)
Example read_seed_file_chunk_order :
  read_seed_file (Some ([116; 105; 116; 108; 101; 10] ++ replicate (Z.to_nat 131073) 97 ++ [10] ++
                        replicate (Z.to_nat 8184) 121 ++ [255])) = SeedError ⟪"_csv.Error"⟫ /\
  read_seed_file (Some ([116; 105; 116; 108; 101; 10] ++ replicate (Z.to_nat 131073) 97 ++ [10] ++
                        replicate (Z.to_nat 8183) 121 ++ [255])) = SeedError ⟪"UnicodeDecodeError"⟫.
Proof. split; vm_compute; reflexivity. Qed.

End TextIO.
