(* ===== verification/Main.v ===== *)
(** * Row orchestration: [main] (create_issues.py, lines 168-217)

    [main] resolves the repository (the [--repo] argument, or [gh repo
    view] when it is blank), reads the seed rows, keeps the rows with a
    non-empty title, truncates them to [--limit] when it is positive,
    and for each row builds the [gh issue create] command line
    ([issue_cmd]) and either prints it (dry run) or runs it.  The final
    line reports the number of rows.

    The arguments are the record [args] ([Args] parses them from the
    command line).  The file system is a function from a path to the
    bytes of the file, [None] when it cannot be opened; the rows are read
    from them by [TextIO.read_seed_file] (UTF-8 decoding, line reading and
    the CSV reader), and an exception of the reading ends the script
    before any issue is created.

    Theorems: the selected rows; the log of a real run (the commands in
    file order, each answered with 0, up to the first failure, which ends
    the run with its status and suppresses the summary line); a dry run
    executes nothing; a failing repository lookup stops the run before
    the seed file is read; the count of the summary line reads back as
    the number of rows; the dry-run line does not determine the
    request; a run against a tracker that accepts every command reaches
    the summary line; a seed file with a byte order mark creates
    nothing; a seed file that is not valid UTF-8 ends the run with
    status 1 before any issue is created. *)

From S2P Require Import Prelude PyStr Labels Kind Infer Body Tracker Csv Utf8 TextIO.
From Stdlib Require Import DecimalString DecimalNat Lia.

Module Main.
Import Csv(seed_row(..), row_title, row_body, row_labels, row_milestone, seed_read(..)).

(** The parsed command line. *)
Record args := {
  arg_repo : ustr;
  arg_seed : ustr;
  arg_project : ustr;
  arg_limit : Z;
  arg_dry_run : bool
}.

(** [str(n)] for a natural number. *)
Definition py_str_nat (n : nat) : ustr :=
  lit (NilEmpty.string_of_uint (Nat.to_uint n)).

(** [int(s)] on a string of decimal digits: [None] when [s] is empty or
    holds anything but the digits 0-9. *)
Definition parse_count (u : ustr) : option nat :=
  option_map Nat.of_uint (NilZero.uint_of_string (string_of_ustr u)).

(** [if (r.get('title') or '').strip()]. *)
Definition has_title (r : seed_row) : bool :=
  negb (is_empty (strip (py_or_empty (row_title r)))).

(** [if args.limit and args.limit > 0: rows = rows[:args.limit]]. *)
Definition limit_rows (limit : Z) (rows : list seed_row) : list seed_row :=
  if (0 <? limit)%Z then firstn (Z.to_nat limit) rows else rows.

(** The rows [main] processes. *)
Definition selected (a : args) (all : list seed_row) : list seed_row :=
  limit_rows (arg_limit a) (List.filter has_title all).

(** The body of the loop, up to the command line it builds. *)
Definition issue_cmd (a : args) (repo : ustr) (r : seed_row) : list ustr :=
  let title := strip (py_or_empty (row_title r)) in
  let desc := strip (py_or_empty (row_body r)) in
  let labels := Labels.normalize_labels (Some (py_or_empty (row_labels r))) in
  let milestone := strip (py_or_empty (row_milestone r)) in
  let kind := Kind.kind_from_labels labels in
  let labels := Kind.ensure_primary_label labels kind in
  let dfd := Infer.infer_dfd title labels in
  let role := Infer.infer_role title labels in
  let body := Body.build_body kind desc dfd role in
  let cmd := [⟪"gh"⟫; ⟪"issue"⟫; ⟪"create"⟫; ⟪"--repo"⟫; repo; ⟪"--title"⟫; title;
              ⟪"--body"⟫; body] in
  let cmd := match labels with
             | [] => cmd
             | _ :: _ => cmd ++ [⟪"--label"⟫; join ⟪","⟫ labels]
             end in
  let cmd := if negb (is_empty milestone) then cmd ++ [⟪"--milestone"⟫; milestone]
             else cmd in
  if negb (is_empty (strip (arg_project a)))
  then cmd ++ [⟪"--project"⟫; strip (arg_project a)] else cmd.

(** [print("DRY:", " ".join(cmd))]. *)
Definition dry_line (cmd : list ustr) : ustr := ⟪"DRY:"⟫ ++ ⟪" "⟫ ++ join ⟪" "⟫ cmd.

Section WithTracker.
Context `{T : Tracker}.

(** [for r in rows: ...]. *)
Fixpoint create_all (a : args) (repo : ustr) (rows : list seed_row) : M unit :=
  match rows with
  | [] => ret tt
  | r :: rs =>
      let cmd := issue_cmd a repo r in
      (if arg_dry_run a then py_print (dry_line cmd) else (run cmd ;;; ret tt)) ;;;
      create_all a repo rs
  end.

(** [print(f"OK: created {len(rows)} issues in {repo}")]. *)
Definition ok_line (n : nat) (repo : ustr) : ustr :=
  ⟪"OK: created "⟫ ++ py_str_nat n ++ ⟪" issues in "⟫ ++ repo.

(** [repo = args.repo.strip() or gh_repo_from_cwd()]. *)
Definition resolve_repo (a : args) : M ustr :=
  let r := strip (arg_repo a) in
  if is_empty r then gh_repo_from_cwd else ret r.

(** [main]: the file system [fs] gives the bytes of a file, [None] when
    it cannot be opened; [TextIO.read_seed_file] reads them into rows or
    the exception that ends the script. *)
Definition main (a : args) (fs : ustr -> option (list Z)) : M unit :=
  repo <- resolve_repo a ;;
  match TextIO.read_seed_file (fs (arg_seed a)) with
  | SeedError e => raise_uncaught e
  | SeedRows all =>
      let rows := selected a all in
      create_all a repo rows ;;;
      py_print (ok_line (List.length rows) repo)
  end.

(** The process: its exit status, its log, and the tracker's final
    state, from an empty log. *)
Definition script (a : args) (fs : ustr -> option (list Z)) (st : tr_state)
    : Z * list event * tr_state :=
  let (o, w) := main a fs {| w_tracker := st; w_log := [] |} in
  (exit_status o, w_log w, w_tracker w).
End WithTracker.

(** A tracker that answers every command with the same result. *)
Definition fixed_tracker (p : proc_result) (H : (-255 <= returncode p <= 255)%Z) : Tracker :=
  {| tr_state := nat;
     tr_exec := fun _ n => (p, S n);
     tr_rc_range := fun _ _ => H |}.

Definition ok_result : proc_result :=
  {| returncode := 0; stdout := ⟪"owner/repo"⟫; stderr := [] |}.

Definition fail_result : proc_result :=
  {| returncode := 1; stdout := []; stderr := ⟪"HTTP 401: Bad credentials"⟫ |}.

(** The two scenario rows of the specification and a row without a
    title. *)
Definition row_p1 : seed_row :=
  {| row_title := Some ⟪"P1 Crear Solicitud"⟫; row_body := Some ⟪"Formulario"⟫;
     row_labels := Some []; row_milestone := None |}.
Definition row_bug : seed_row :=
  {| row_title := Some ⟪"Fix login bug"⟫; row_body := Some ⟪"El login falla"⟫;
     row_labels := Some ⟪"bug,vendor"⟫; row_milestone := Some ⟪"Sprint 1"⟫ |}.
Definition row_blank : seed_row :=
  {| row_title := Some ⟪"   "⟫; row_body := None; row_labels := None;
     row_milestone := None |}.

Definition args_real : args :=
  {| arg_repo := ⟪" owner/repo "⟫; arg_seed := ⟪"kanban/issues_seed.csv"⟫;
     arg_project := ⟪"BaleSupply"⟫; arg_limit := 0; arg_dry_run := false |}.
Definition args_dry : args :=
  {| arg_repo := ⟪"owner/repo"⟫; arg_seed := ⟪"kanban/issues_seed.csv"⟫;
     arg_project := ⟪"BaleSupply"⟫; arg_limit := 2; arg_dry_run := true |}.

(** A seed file holding these rows, as [csv.writer] would write it
    (the description of the bug row holds no comma, the labels cell
    "bug,vendor" is quoted). *)
Definition seed_text : ustr :=
  Csv.write_rows (Csv.seed_header ::
    [[⟪"   "⟫];
     [⟪"P1 Crear Solicitud"⟫; ⟪"Formulario"⟫; []];
     [⟪"Fix login bug"⟫; ⟪"El login falla"⟫; ⟪"bug,vendor"⟫; ⟪"Sprint 1"⟫];
     [⟪"   "⟫];
     [⟪"P1 Crear Solicitud"⟫; ⟪"Formulario"⟫; []]]).

Definition seed_fs (p : ustr) : option (list Z) := Some (Utf8.utf8_encode seed_text).

Definition args_blank : args :=
  {| arg_repo := ⟪"  "⟫; arg_seed := ⟪"missing.csv"⟫;
     arg_project := []; arg_limit := 0; arg_dry_run := false |}.

Definition repo_view_cmd : list ustr :=
  [⟪"gh"⟫; ⟪"repo"⟫; ⟪"view"⟫; ⟪"--json"⟫; ⟪"nameWithOwner"⟫; ⟪"-q"⟫; ⟪".nameWithOwner"⟫].

(** Two dry runs whose requests differ: a milestone that contains a
    flag, without a project, and the plain milestone with a project. *)
Definition args_no_project : args :=
  {| arg_repo := ⟪"owner/repo"⟫; arg_seed := ⟪"kanban/issues_seed.csv"⟫;
     arg_project := []; arg_limit := 0; arg_dry_run := true |}.
Definition row_flag_milestone : seed_row :=
  {| row_title := Some ⟪"Docs"⟫; row_body := None; row_labels := None;
     row_milestone := Some ⟪"Sprint 1 --project BaleSupply"⟫ |}.
Definition row_plain_milestone : seed_row :=
  {| row_title := Some ⟪"Docs"⟫; row_body := None; row_labels := None;
     row_milestone := Some ⟪"Sprint 1"⟫ |}.

Section Loop.
Context `{T : Tracker}.

Lemma create_all_dry a repo rows w :
  arg_dry_run a = true ->
  create_all a repo rows w =
    (Ok tt, {| w_tracker := w_tracker w;
               w_log := w_log w ++ map (fun r => Stdout (dry_line (issue_cmd a repo r))) rows |}).
Proof.
  intros Hd. revert w. induction rows as [|r rs IH]; intros w; cbn [create_all].
  - destruct w as [st log]. unfold ret. simpl. by rewrite app_nil_r.
  - rewrite Hd. unfold bind at 1. unfold py_print, emit. cbn beta iota.
    rewrite IH. simpl. by rewrite <- app_assoc.
Qed.

Lemma create_all_real a repo rows w :
  arg_dry_run a = false ->
  let cmds := map (issue_cmd a repo) rows in
  let (o, w') := create_all a repo rows w in
  exists k rest, w_log w' = w_log w ++ map (fun c => Exec c 0) (take k cmds) ++ rest /\
    ((k = List.length cmds /\ rest = [] /\ o = Ok tt) \/
     (exists c p, cmds !! k = Some c /\ returncode p <> 0%Z /\
        (-255 <= returncode p <= 255)%Z /\
        rest = Exec c (returncode p) :: echo p /\ o = SysExit (returncode p))).
Proof.
  intros Hd. revert w. induction rows as [|r rs IH]; intros w; cbn [create_all map].
  - exists 0, []. simpl. rewrite !app_nil_r. split; [done|]. left. done.
  - rewrite Hd. set (cmd := issue_cmd a repo r).
    pose proof (run_eq cmd w) as Hrun.
    destruct (tr_exec cmd (w_tracker w)) as [p st'] eqn:Hex.
    unfold bind at 1 2. rewrite Hrun.
    destruct (Z.eqb_spec (returncode p) 0) as [H0|H0].
    + cbn beta iota. unfold ret at 1. cbn beta iota.
      specialize (IH (after w cmd p st' [])).
      destruct (create_all a repo rs (after w cmd p st' [])) as [o w'].
      destruct IH as (k & rest & Hlog & Hcase). exists (S k), rest.
      rewrite Hlog. unfold after. simpl. rewrite H0, <- app_assoc.
      split; [done|]. destruct Hcase as [(-> & -> & ->)|(c & q & ? & ? & ? & ? & ?)].
      * left. by rewrite length_map.
      * right. by exists c, q.
    + exists 0, (Exec cmd (returncode p) :: echo p). simpl. split; [done|].
      right. exists cmd, p. repeat split; try done.
      all: pose proof (tr_rc_range cmd (w_tracker w)) as Hr; rewrite Hex in Hr; apply Hr.
Qed.
End Loop.

(** The byte order mark is the encoding of U+FEFF. *)
Lemma bom_encode t : [0xEF; 0xBB; 0xBF]%Z ++ Utf8.utf8_encode t = Utf8.utf8_encode (65279%Z :: t).
Proof. done. Qed.

Section Script.
Context `{T : Tracker}.

Lemma main_given_repo a fs w :
  is_empty (strip (arg_repo a)) = false ->
  main a fs w =
    (match TextIO.read_seed_file (fs (arg_seed a)) with
     | SeedError e => raise_uncaught e
     | SeedRows all =>
         create_all a (strip (arg_repo a)) (selected a all) ;;;
         py_print (ok_line (List.length (selected a all)) (strip (arg_repo a)))
     end) w.
Proof. intros H. unfold main, resolve_repo, bind at 1. rewrite H. reflexivity. Qed.

(** C2: a real run with the repository given: the tracker receives the
    commands of the selected rows in file order, each answered with 0,
    up to the first one that fails; then either every command
    succeeded, the status is 0 and the last line is the summary, or the
    failing command's output is echoed, no summary is printed, and the
    status is the low 8 bits of its return code, between 1 and 255. *)
Theorem script_real a fs st all :
  is_empty (strip (arg_repo a)) = false -> TextIO.read_seed_file (fs (arg_seed a)) = SeedRows all ->
  arg_dry_run a = false ->
  let repo := strip (arg_repo a) in
  let cmds := map (issue_cmd a repo) (selected a all) in
  let '(status, log, _) := script a fs st in
  exists k rest, log = map (fun c => Exec c 0) (take k cmds) ++ rest /\
    ((k = List.length cmds /\ status = 0%Z /\
      rest = [Stdout (ok_line (List.length cmds) repo)]) \/
     (exists c p, cmds !! k = Some c /\ returncode p <> 0%Z /\
        rest = Exec c (returncode p) :: echo p /\
        status = Z.land (returncode p) 255 /\ (1 <= status <= 255)%Z)).
Proof.
  intros Hrepo Hfs Hd repo cmds. unfold script. rewrite main_given_repo, Hfs by done.
  unfold bind at 1.
  pose proof (create_all_real a repo (selected a all)
                {| w_tracker := st; w_log := [] |} Hd) as Hl.
  fold repo. destruct (create_all a repo (selected a all) _) as [o w'].
  destruct Hl as (k & rest & Hlog & [(Hk & -> & ->)|(c & p & Hc & Hne & Hr & -> & ->)]).
  - unfold py_print, emit. simpl in *. exists k, [Stdout (ok_line (List.length cmds) repo)].
    rewrite Hlog, app_nil_r. unfold cmds. rewrite !length_map.
    split; [done|]. left. by rewrite length_map in Hk.
  - simpl in *. exists k, (Exec c (returncode p) :: echo p). split; [done|].
    right. exists c, p.
    destruct (exit_status_nonzero (returncode p) Hr Hne) as [Hb _]. simpl in Hb.
    repeat split; try done; lia.
Qed.

(** C12: a dry run executes nothing: the tracker's state is unchanged,
    the output is one "DRY:" line per selected row, in order, then the
    summary line, and the status is 0. *)
Theorem script_dry a fs st all :
  is_empty (strip (arg_repo a)) = false -> TextIO.read_seed_file (fs (arg_seed a)) = SeedRows all ->
  arg_dry_run a = true ->
  let repo := strip (arg_repo a) in
  script a fs st =
    (0%Z, map (fun r => Stdout (dry_line (issue_cmd a repo r))) (selected a all) ++
          [Stdout (ok_line (List.length (selected a all)) repo)], st).
Proof.
  intros Hrepo Hfs Hd repo. unfold script. rewrite main_given_repo, Hfs by done.
  unfold bind at 1. fold repo. rewrite create_all_dry by done. done.
Qed.

(** C13: the error paths before any issue is created: when the
    repository must be looked up and [gh repo view] fails, the run
    stops with that status before the seed file is read (whatever the
    file holds); when the seed file cannot be opened or the CSV reader
    fails on it ([OSError], [UnicodeDecodeError], [_csv.Error]), the run ends with the
    uncaught exception, status 1, having printed nothing and created
    no issue, even for the rows read before the failure. *)
Theorem script_early_errors a fs st :
  (is_empty (strip (arg_repo a)) = true ->
   let (p, st') := tr_exec repo_view_cmd st in
   returncode p <> 0%Z ->
   script a fs st =
     (Z.land (returncode p) 255, Exec repo_view_cmd (returncode p) :: echo p, st')) /\
  (forall e, is_empty (strip (arg_repo a)) = false ->
   TextIO.read_seed_file (fs (arg_seed a)) = SeedError e ->
   script a fs st = (1%Z, [], st)).
Proof.
  split.
  - intros Hrepo. pose proof (run_eq repo_view_cmd {| w_tracker := st; w_log := [] |}) as Hrun.
    simpl in Hrun. destruct (tr_exec repo_view_cmd st) as [p st'] eqn:E.
    intros Hne. unfold script, main, resolve_repo, bind at 1. rewrite Hrepo.
    unfold gh_repo_from_cwd. fold repo_view_cmd. rewrite Hrun.
    apply Z.eqb_neq in Hne. by rewrite Hne.
  - intros e Hrepo Hfs. unfold script. rewrite main_given_repo, Hfs by done. done.
Qed.
(** A file whose rows have no title is read, nothing is selected. *)
Lemma selected_no_title a rows :
  Forall (fun r => row_title r = None) rows -> selected a rows = [].
Proof.
  intros Hr. unfold selected, limit_rows.
  assert (Hf : List.filter has_title rows = []).
  { induction Hr as [|r rs Hr _ IH]; [done|]. cbn [List.filter].
    unfold has_title at 1. rewrite Hr. exact IH. }
  rewrite Hf. destruct (0 <? arg_limit a)%Z; [apply take_nil|done].
Qed.

(** C32: a seed file saved with a UTF-8 byte order mark (EF BB BF,
    which [encoding='utf-8'] decodes to U+FEFF and keeps as the first
    character of the header) creates no issue, whatever its rows, and
    the run reports success: "OK: created 0 issues", status 0, no [gh]
    call. *)
Theorem script_bom a st rows :
  is_empty (strip (arg_repo a)) = false -> Forall (Forall Csv.field_ok) rows ->
  Forall (Forall (Forall Utf8.scalar)) rows ->
  script a (fun _ => Some ([0xEF; 0xBB; 0xBF]%Z ++
                           Utf8.utf8_encode (Csv.write_rows (Csv.seed_header :: rows)))) st =
    (0%Z, [Stdout (ok_line 0 (strip (arg_repo a)))], st).
Proof.
  intros Hrepo Hr Hs. unfold script. rewrite main_given_repo by done.
  assert (Ht : Forall Utf8.scalar (65279%Z :: Csv.write_rows (Csv.seed_header :: rows))).
  { constructor; [unfold Utf8.scalar; lia|]. apply TextIO.write_rows_scalar.
    constructor; [decide_vm|done]. }
  rewrite bom_encode, TextIO.read_seed_file_text, Csv.read_seed_bom by done.
  rewrite selected_no_title by (apply Forall_map, Forall_true; done). done.
Qed.

End Script.

(** ** A cooperative tracker *)

Section Cooperative.
Context `{T : Tracker}.
Hypothesis exec_ok : forall cmd st, returncode (tr_exec cmd st).1 = 0%Z.

Lemma run_ok cmd w :
  exists p st', tr_exec cmd (w_tracker w) = (p, st') /\ returncode p = 0%Z /\
    run cmd w = (Ok (strip (stdout p)), after w cmd p st' []).
Proof.
  pose proof (run_eq cmd w) as Hrun. pose proof (exec_ok cmd (w_tracker w)) as H0.
  destruct (tr_exec cmd (w_tracker w)) as [p st']. simpl in H0.
  rewrite H0 in Hrun. exists p, st'. by rewrite Hrun.
Qed.

Lemma create_all_ok a repo rows w :
  arg_dry_run a = false ->
  exists st', create_all a repo rows w =
    (Ok tt, {| w_tracker := st';
               w_log := w_log w ++ map (fun r => Exec (issue_cmd a repo r) 0) rows |}).
Proof.
  intros Hd. revert w. induction rows as [|r rs IH]; intros w; cbn [create_all map].
  - exists (w_tracker w). destruct w. unfold ret. by rewrite app_nil_r.
  - rewrite Hd. destruct (run_ok (issue_cmd a repo r) w) as (p & st' & _ & H0 & Hrun).
    unfold bind at 1 2. rewrite Hrun. cbn beta iota. unfold ret at 1. cbn beta iota.
    destruct (IH (after w (issue_cmd a repo r) p st' [])) as [st'' ->].
    exists st''. unfold after. simpl. rewrite H0. by rewrite <- !app_assoc.
Qed.

(** C26: a seed file that is not valid UTF-8 (a stray Latin-1 byte, a
    truncated sequence, an encoded surrogate, an overlong form) never
    creates an issue: with the repository given, the run ends with an
    uncaught exception ([UnicodeDecodeError], or the CSV reader's error
    in the lines before the bad chunk), status 1, nothing printed, no
    [gh] call, the tracker unchanged. *)
Theorem script_not_utf8 a fs st bs e :
  is_empty (strip (arg_repo a)) = false -> fs (arg_seed a) = Some bs ->
  Utf8.utf8_decode_strict bs = inl e ->
  script a fs st = (1%Z, [], st).
Proof.
  intros Hrepo Hfs He. unfold script. rewrite main_given_repo, Hfs by done.
  by destruct (TextIO.read_seed_file_not_utf8 bs e He) as [-> | ->].
Qed.

(** C33 (liveness): when the tracker accepts every command, a real run
    that reads its seed file runs to the end: the repository is looked
    up when [--repo] is blank, every selected row's command is run once,
    in order, the summary line is printed and the status is 0. *)
Theorem script_completes a fs st all :
  TextIO.read_seed_file (fs (arg_seed a)) = SeedRows all -> arg_dry_run a = false ->
  exists repo st',
    script a fs st =
      (0%Z, (if is_empty (strip (arg_repo a)) then [Exec repo_view_cmd 0] else []) ++
             map (fun r => Exec (issue_cmd a repo r) 0) (selected a all) ++
             [Stdout (ok_line (List.length (selected a all)) repo)], st').
Proof.
  intros Hfs Hd. unfold script, main, resolve_repo.
  destruct (is_empty (strip (arg_repo a))) eqn:Hb.
  - unfold gh_repo_from_cwd. fold repo_view_cmd.
    destruct (run_ok repo_view_cmd {| w_tracker := st; w_log := [] |})
      as (p & st1 & _ & H0 & Hrun).
    unfold bind at 1. rewrite Hrun. cbn beta iota. rewrite Hfs. unfold bind at 1.
    destruct (create_all_ok a (strip (stdout p)) (selected a all)
                (after {| w_tracker := st; w_log := [] |} repo_view_cmd p st1 []) Hd)
      as [st2 ->].
    exists (strip (stdout p)), st2. unfold after. simpl. by rewrite H0, <- ?app_assoc.
  - unfold bind at 1, ret at 1. cbn beta iota. rewrite Hfs. unfold bind at 1.
    destruct (create_all_ok a (strip (arg_repo a)) (selected a all)
                {| w_tracker := st; w_log := [] |} Hd) as [st2 ->].
    by exists (strip (arg_repo a)), st2.
Qed.
End Cooperative.

Lemma ascii7_string_of_uint d : ascii7 (NilEmpty.string_of_uint d) = true.
Proof. by induction d. Qed.

Lemma string_of_uint_nonnil d :
  d <> Decimal.Nil -> NilZero.string_of_uint d = NilEmpty.string_of_uint d.
Proof. by destruct d. Qed.

Lemma to_uint_not_nil n : Nat.to_uint n <> Decimal.Nil.
Proof.
  intros H. pose proof (Unsigned.of_to n) as E. rewrite H in E. simpl in E.
  subst n. discriminate H.
Qed.

(** The count of the summary line is written in decimal the way
    Python's [str] writes it: [int] reads it back as the number of rows. *)
Theorem py_str_nat_roundtrip n : parse_count (py_str_nat n) = Some n.
Proof.
  unfold parse_count, py_str_nat. rewrite lit_ascii7 by apply ascii7_string_of_uint.
  rewrite <- string_of_uint_nonnil by apply to_uint_not_nil.
  rewrite NilZero.usu by apply to_uint_not_nil. simpl. by rewrite Unsigned.of_to.
Qed.

(** C16: the selected rows are exactly a prefix of the rows with a
    non-empty title, in file order; their number is the limit when it is
    positive and smaller than the number of titled rows, and otherwise
    the number of titled rows (a limit of 0 or less means no limit). *)
Theorem selected_spec a all :
  let titled := List.filter has_title all in
  Forall (fun r => has_title r = true) (selected a all) /\
  selected a all `prefix_of` titled /\
  List.length (selected a all) =
    if (0 <? arg_limit a)%Z then Nat.min (Z.to_nat (arg_limit a)) (List.length titled)
    else List.length titled.
Proof.
  intros titled.
  assert (Ht : Forall (fun r => has_title r = true) titled).
  { apply Forall_forall. intros r Hr. apply list_elem_of_In, filter_In in Hr. by destruct Hr. }
  unfold selected, limit_rows. fold titled.
  destruct (0 <? arg_limit a)%Z.
  - split; [|split; [apply prefix_take|apply length_take]].
    by apply Forall_take.
  - done.
Qed.

Lemma seed_fs_rows p :
  TextIO.read_seed_file (seed_fs p) = SeedRows [row_blank; row_p1; row_bug; row_blank; row_p1].
Proof. vm_compute. reflexivity. Qed.

Lemma ok_result_range : (-255 <= returncode ok_result <= 255)%Z.
Proof. simpl. lia. Qed.

Lemma fail_result_range : (-255 <= returncode fail_result <= 255)%Z.
Proof. simpl. lia. Qed.

Lemma script_real_witness :
  (is_empty (strip (arg_repo args_real)) = false /\
   TextIO.read_seed_file (seed_fs (arg_seed args_real)) =
     SeedRows [row_blank; row_p1; row_bug; row_blank; row_p1] /\
   arg_dry_run args_real = false) /\
  let T := fixed_tracker ok_result ok_result_range in
  let repo := strip (arg_repo args_real) in
  let cmds := map (issue_cmd args_real repo) (selected args_real
                 [row_blank; row_p1; row_bug; row_blank; row_p1]) in
  let '(status, log, _) := @script T args_real seed_fs 0 in
  exists k rest, log = map (fun c => Exec c 0) (take k cmds) ++ rest /\
    ((k = List.length cmds /\ status = 0%Z /\
      rest = [Stdout (ok_line (List.length cmds) repo)]) \/
     (exists c p, cmds !! k = Some c /\ returncode p <> 0%Z /\
        rest = Exec c (returncode p) :: echo p /\
        status = Z.land (returncode p) 255 /\ (1 <= status <= 255)%Z)).
Proof.
  split; [split; [vm_compute; reflexivity|split; [apply seed_fs_rows|reflexivity]]|].
  exact (@script_real (fixed_tracker ok_result ok_result_range) args_real seed_fs 0
           [row_blank; row_p1; row_bug; row_blank; row_p1]
           ltac:(vm_compute; reflexivity) (seed_fs_rows _) eq_refl).
Defined.

Lemma script_dry_witness :
  (is_empty (strip (arg_repo args_dry)) = false /\
   TextIO.read_seed_file (seed_fs (arg_seed args_dry)) =
     SeedRows [row_blank; row_p1; row_bug; row_blank; row_p1] /\
   arg_dry_run args_dry = true) /\
  let '(status, log, st') :=
    @script (fixed_tracker ok_result ok_result_range) args_dry seed_fs 7 in
  status = 0%Z /\ st' = 7 /\ List.length log = 3.
Proof.
  split; [split; [vm_compute; reflexivity|split; [apply seed_fs_rows|reflexivity]]|].
  rewrite (@script_dry (fixed_tracker ok_result ok_result_range) args_dry seed_fs 7
             [row_blank; row_p1; row_bug; row_blank; row_p1]
             ltac:(vm_compute; reflexivity) (seed_fs_rows _) eq_refl).
  vm_compute. split; [reflexivity|split; reflexivity].
Defined.

Lemma script_early_errors_witness :
  (is_empty (strip (arg_repo args_blank)) = true /\ returncode fail_result <> 0%Z) /\
  @script (fixed_tracker fail_result fail_result_range) args_blank seed_fs 0 =
    (1%Z, [Exec repo_view_cmd 1; Stderr ⟪"HTTP 401: Bad credentials"⟫], 1).
Proof.
  split; [split; [vm_compute; reflexivity|discriminate]|].
  destruct (@script_early_errors (fixed_tracker fail_result fail_result_range)
              args_blank seed_fs 0) as [H _].
  rewrite (H ltac:(vm_compute; reflexivity) ltac:(discriminate)).
  vm_compute. reflexivity.
Defined.

Lemma script_bom_witness :
  (is_empty (strip (arg_repo args_real)) = false /\
   Forall (Forall Csv.field_ok) [[⟪"Fix login bug"⟫; ⟪"El login falló"⟫]] /\
   Forall (Forall (Forall Utf8.scalar)) [[⟪"Fix login bug"⟫; ⟪"El login falló"⟫]]) /\
  @script (fixed_tracker ok_result ok_result_range) args_real
    (fun _ => Some ([0xEF; 0xBB; 0xBF]%Z ++ Utf8.utf8_encode (Csv.write_rows
                     (Csv.seed_header :: [[⟪"Fix login bug"⟫; ⟪"El login falló"⟫]])))) 0 =
    (0%Z, [Stdout (ok_line 0 ⟪"owner/repo"⟫)], 0).
Proof.
  assert (H1 : is_empty (strip (arg_repo args_real)) = false) by (vm_compute; reflexivity).
  assert (H2 : Forall (Forall Csv.field_ok) [[⟪"Fix login bug"⟫; ⟪"El login falló"⟫]])
    by decide_vm.
  assert (H3 : Forall (Forall (Forall Utf8.scalar)) [[⟪"Fix login bug"⟫; ⟪"El login falló"⟫]])
    by decide_vm.
  split; [done|].
  rewrite (@script_bom (fixed_tracker ok_result ok_result_range) args_real 0 _ H1 H2 H3).
  vm_compute. reflexivity.
Defined.

Lemma script_not_utf8_witness :
  (is_empty (strip (arg_repo args_real)) = false /\
   (fun _ : ustr => Some (Utf8.utf8_encode ⟪"title"⟫ ++ [10; 0x66; 0x61; 0x6C; 0x6C; 0xF3]%Z))
     (arg_seed args_real) = Some (Utf8.utf8_encode ⟪"title"⟫ ++ [10; 0x66; 0x61; 0x6C; 0x6C; 0xF3]%Z) /\
   Utf8.utf8_decode_strict (Utf8.utf8_encode ⟪"title"⟫ ++ [10; 0x66; 0x61; 0x6C; 0x6C; 0xF3]%Z) =
     inl Utf8.UnexpectedEnd) /\
  @script (fixed_tracker ok_result ok_result_range) args_real
    (fun _ => Some (Utf8.utf8_encode ⟪"title"⟫ ++ [10; 0x66; 0x61; 0x6C; 0x6C; 0xF3]%Z)) 0 =
    (1%Z, [], 0).
Proof.
  assert (H1 : is_empty (strip (arg_repo args_real)) = false) by (vm_compute; reflexivity).
  assert (H3 : Utf8.utf8_decode_strict (Utf8.utf8_encode ⟪"title"⟫ ++ [10; 0x66; 0x61; 0x6C; 0x6C; 0xF3]%Z) =
               inl Utf8.UnexpectedEnd) by (vm_compute; reflexivity).
  split; [done|]. exact (@script_not_utf8 (fixed_tracker ok_result ok_result_range) args_real _ 0 _ _ H1
                           eq_refl H3).
Defined.

Lemma script_completes_witness :
  (forall cmd st,
     returncode (@tr_exec (fixed_tracker ok_result ok_result_range) cmd st).1 = 0%Z) /\
  (let '(status, log, _) :=
     @script (fixed_tracker ok_result ok_result_range) args_blank seed_fs 0 in
   status = 0%Z /\ List.length log = 5).
Proof.
  split; [done|].
  destruct (@script_completes (fixed_tracker ok_result ok_result_range) (fun _ _ => eq_refl)
              args_blank seed_fs 0 _ (seed_fs_rows _) eq_refl) as (repo & st' & ->).
  vm_compute. split; reflexivity.
Defined.

(** The two scenarios of the specification: the row titled
    "P1 Crear Solicitud" with no labels is a feature of process P1 with
    no role and the single label "feature"; the row "Fix login bug"
    labelled "bug,vendor" is a bug with the vendor role, keeps the labels
    "bug,vendor" and gets the bug template with its description. *)
Example scenario_rows :
  let repo := ⟪"owner/repo"⟫ in
  issue_cmd args_real repo row_p1 =
    [⟪"gh"⟫; ⟪"issue"⟫; ⟪"create"⟫; ⟪"--repo"⟫; repo; ⟪"--title"⟫; ⟪"P1 Crear Solicitud"⟫;
     ⟪"--body"⟫; Body.body_feature ⟪"Formulario"⟫ ⟪"P1 Crear Solicitud"⟫ ⟪"N/A"⟫;
     ⟪"--label"⟫; ⟪"feature"⟫; ⟪"--project"⟫; ⟪"BaleSupply"⟫] /\
  issue_cmd args_real repo row_bug =
    [⟪"gh"⟫; ⟪"issue"⟫; ⟪"create"⟫; ⟪"--repo"⟫; repo; ⟪"--title"⟫; ⟪"Fix login bug"⟫;
     ⟪"--body"⟫; Body.body_bug ⟪"El login falla"⟫;
     ⟪"--label"⟫; ⟪"bug,vendor"⟫; ⟪"--milestone"⟫; ⟪"Sprint 1"⟫;
     ⟪"--project"⟫; ⟪"BaleSupply"⟫].
Proof. split; vm_compute; reflexivity. Qed.

(** The dry-run line is not the request: [" ".join(cmd)] neither
    quotes nor escapes, so two different [gh issue create] requests (a
    milestone "Sprint 1 --project BaleSupply" without a project, and the
    milestone "Sprint 1" with the project BaleSupply) print the same
    "DRY:" line. *)
Example dry_line_ambiguous :
  let repo := ⟪"owner/repo"⟫ in
  issue_cmd args_no_project repo row_flag_milestone <>
    issue_cmd args_dry repo row_plain_milestone /\
  dry_line (issue_cmd args_no_project repo row_flag_milestone) =
    dry_line (issue_cmd args_dry repo row_plain_milestone).
Proof.
  split.
  - intros H. apply (f_equal List.length) in H. vm_compute in H. discriminate.
  - vm_compute. reflexivity.
Qed.

End Main.
