(* ===== verification/Args.v ===== *)
(** * The command line: [argparse] (create_issues.py, lines 169-175)

    [main] builds an [argparse.ArgumentParser] with the options [--repo],
    [--seed], [--project], [--limit] (converted with [int]) and
    [--dry-run] ([store_true]), besides the automatic [-h/--help], and
    calls [parse_args()] on [sys.argv[1:]].  This file models that call
    after the [argparse] module of CPython 3.11:
    - [parse_optional] and [get_option_tuples]: how one argument string
      is read (an option, an unambiguous prefix of a long option, an
      [--opt=value] form, a negative number, or a plain argument), with
      the [ambiguous option] error;
    - [classify]: the pattern of the whole command line (an [--] makes
      every later string an argument);
    - [consume_explicit], [match_following], [take_action] and
      [parse_loop]: the loop of [_parse_known_args] over the options and
      their arguments, which collects the strings no option takes and
      stops at the first error or at [-h];
    - [py_int]: [int(s)] on a [str] ([PyLong_FromUnicodeObject]): white
      space, a sign, decimal digits of any script with single
      underscores between them, at most 4300 digits;
    - [get_value]: [_get_values], which drops the first "--" of an
      option's strings before it stores the value, so that
      [--repo=--] stores the empty list;
    - [parse_args]: the parsed [namespace], the help request or the
      error; [main_ns]: the rest of [main] on the namespace (on strings
      it is [main]; an empty list raises [AttributeError] or
      [TypeError] where the script first uses it, and is no limit for
      [--limit]); and [parse_args_m], [main_argv] and [script_argv]:
      the script from its
      argument vector, [ArgumentParser.error] printing the usage and the
      message on stderr and exiting with 2, [-h] printing the help and
      exiting with 0.
    The texts of the usage and the help are those [argparse] renders for
    the program name [create_issues.py] at the default width of 80
    columns; [py_repr] (the [%r] of the messages) is exact below U+0100
    and takes every code point above as printable. *)

From S2P Require Import Prelude PyStr Tracker Csv TextIO Main.
From Stdlib Require Import Lia.

Local Open Scope Z_scope.

Module Args.
Import Main.
Import Csv(seed_read(..)).

(** ** [int(s)] *)

(** The zeros of the 66 runs of Unicode decimal digits (Unicode 14.0,
    the database of Python 3.11); a digit's value is its distance from
    the zero of its run. *)
Definition decimal_zeros : list Z :=
  [48; 1632; 1776; 1984; 2406; 2534; 2662; 2790; 2918; 3046; 3174; 3302; 3430;
   3558; 3664; 3792; 3872; 4160; 4240; 6112; 6160; 6470; 6608; 6784; 6800; 6992;
   7088; 7232; 7248; 42528; 43216; 43264; 43472; 43504; 43600; 44016; 65296;
   66720; 68912; 69734; 69872; 69942; 70096; 70384; 70736; 70864; 71248; 71360;
   71472; 71904; 72016; 72784; 73040; 73120; 92768; 92864; 93008; 120782;
   120792; 120802; 120812; 120822; 123200; 123632; 125264; 130032].

(** [Py_UNICODE_TODECIMAL]. *)
Definition py_decimal (c : Z) : option Z :=
  match List.find (fun z => (z <=? c) && (c <? z + 10)) decimal_zeros with
  | Some z => Some (c - z)
  | None => None
  end.

(** [_PyUnicode_TransformDecimalAndSpaceToASCII]: ASCII is kept, other
    white space becomes a space and other decimal digits their ASCII
    digit; anything else becomes a character no number holds ([?]). *)
Definition to_ascii (c : Z) : Z :=
  if c <? 127 then c
  else if py_isspace c then 32
  else match py_decimal c with Some d => 48 + d | None => 63 end.

(** [Py_ISSPACE] on a byte. *)
Definition c_isspace (c : Z) : bool := ((9 <=? c) && (c <=? 13)) || (c =? 32).

Definition ascii_digit (c : Z) : option Z :=
  if (48 <=? c) && (c <=? 57) then Some (c - 48) else None.

Fixpoint skip_while (p : Z -> bool) (s : list Z) : list Z :=
  match s with
  | c :: r => if p c then skip_while p r else s
  | [] => []
  end.

(** The digit loop of [PyLong_FromString] in base 10: digits with single
    underscores between them.  The value, the number of digits and the
    rest; [None] for a doubled or trailing underscore. *)
Fixpoint digit_run (s : list Z) (acc : Z) (n : nat) (prev_under : bool)
    : option (Z * nat * list Z) :=
  match s with
  | c :: s' =>
      match ascii_digit c with
      | Some d => digit_run s' (10 * acc + d) (S n) false
      | None =>
          if c =? 95 then (if prev_under then None else digit_run s' acc n true)
          else if prev_under then None else Some (acc, n, s)
      end
  | [] => if prev_under then None else Some (acc, n, [])
  end.

(** [sys.get_int_max_str_digits()]. *)
Definition int_max_str_digits : nat := 4300.

(** [int(s)] on a [str]: [None] when it raises [ValueError]. *)
Definition py_int (s : ustr) : option Z :=
  let b := skip_while c_isspace (map to_ascii s) in
  let sb := match b with
            | c :: r => if c =? 43 then (1, r) else if c =? 45 then (-1, r) else (1, b)
            | [] => (1, b)
            end in
  match sb.2 with
  | c :: _ => if c =? 95 then None else
      match digit_run sb.2 0 0 false with
      | Some (v, n, rest) =>
          if (n =? 0)%nat || (int_max_str_digits <? n)%nat then None
          else if forallb c_isspace rest then Some (sb.1 * v) else None
      | None => None
      end
  | [] => None
  end.

(** ** The parser of lines 169-174 *)

(** The parser's actions, [-h/--help] first. *)
Inductive action := AHelp | ARepo | ASeed | AProject | ALimit | ADryRun.

#[export] Instance action_eq_dec : EqDecision action.
Proof. solve_decision. Defined.

(** [_option_string_actions], in insertion order. *)
Definition option_table : list (ustr * action) :=
  [(⟪"-h"⟫, AHelp); (⟪"--help"⟫, AHelp); (⟪"--repo"⟫, ARepo); (⟪"--seed"⟫, ASeed);
   (⟪"--project"⟫, AProject); (⟪"--limit"⟫, ALimit); (⟪"--dry-run"⟫, ADryRun)].

(** [nargs]: [help] and [store_true] take no argument, the others one. *)
Definition nargs (a : action) : nat :=
  match a with AHelp | ADryRun => 0 | _ => 1 end.

(** The option strings joined by '/', as error messages name them. *)
Definition action_name (a : action) : ustr :=
  match a with
  | AHelp => ⟪"-h/--help"⟫
  | ARepo => ⟪"--repo"⟫
  | ASeed => ⟪"--seed"⟫
  | AProject => ⟪"--project"⟫
  | ALimit => ⟪"--limit"⟫
  | ADryRun => ⟪"--dry-run"⟫
  end.

(** The namespace [parse_args] returns.  A value is [None] when it is
    the empty list that [_get_values] makes of the argument string "--"
    (it removes the first "--" of an option's strings), a [str] (an
    [int] for [--limit]) otherwise. *)
Record namespace := {
  ns_repo : option ustr;
  ns_seed : option ustr;
  ns_project : option ustr;
  ns_limit : option Z;
  ns_dry_run : bool
}.

(** The defaults of lines 170-174. *)
Definition defaults : namespace :=
  {| ns_repo := Some []; ns_seed := Some ⟪"kanban/issues_seed.csv"⟫;
     ns_project := Some ⟪"BaleSupply"⟫; ns_limit := Some 0; ns_dry_run := false |}.

Definition lookup_option (s : ustr) : option action :=
  option_map snd (List.find (fun oa => bool_decide (oa.1 = s)) option_table).

(** [s.split(sep, 1)] when [sep] occurs in [s]. *)
Fixpoint split_at (sep : Z) (s : ustr) : option (ustr * ustr) :=
  match s with
  | [] => None
  | c :: r =>
      if c =? sep then Some ([], r)
      else match split_at sep r with Some (x, y) => Some (c :: x, y) | None => None end
  end.

(** An option as [_parse_optional] returns it: the action ([None] for
    an option the parser does not know), the option string, and the
    explicit argument. *)
Record opt_tuple := OptT {
  ot_action : option action;
  ot_string : ustr;
  ot_explicit : option ustr
}.

Inductive arg_error :=
| Ambiguous (arg : ustr) (matches : list ustr)
| ExpectedOne (a : action)
| IgnoredExplicit (a : action) (explicit : ustr)
| InvalidInt (a : action) (value : ustr)
| Unrecognized (extras : list ustr).

Inductive parse_result :=
| Parsed (ns : namespace)
| ShowHelp
| ArgFail (e : arg_error).

(** [_get_option_tuples]: the options an argument string may abbreviate.
    A string that starts with two dashes is cut at its first '=' and
    matches the option strings it is a prefix of; one that starts with a
    single dash matches the option made of its first two characters (the
    rest being the option's argument) and the option strings it is a
    prefix of. *)
Definition get_option_tuples (s : ustr) : list opt_tuple :=
  match s with
  | c1 :: c2 :: _ =>
      if (c1 =? 45) && (c2 =? 45) then
        let pe := match split_at 61 s with Some (p, e) => (p, Some e) | None => (s, None) end in
        map (fun oa => OptT (Some oa.2) oa.1 pe.2)
            (List.filter (fun oa => is_prefix pe.1 oa.1) option_table)
      else if c1 =? 45 then
        flat_map (fun oa =>
          if bool_decide (oa.1 = take 2 s) then [OptT (Some oa.2) oa.1 (Some (drop 2 s))]
          else if is_prefix s oa.1 then [OptT (Some oa.2) oa.1 None] else [])
          option_table
      else []
  | _ => []
  end.

Definition is_udigit (c : Z) : bool :=
  match py_decimal c with Some _ => true | None => false end.

(** [_negative_number_matcher]: [^-\d+$|^-\d*\.\d+$], where [\d] is any
    decimal digit and [$] also matches before a final newline. *)
Definition neg_number_like (s : ustr) : bool :=
  let b := if bool_decide (last s = Some 10) then removelast s else s in
  match b with
  | c :: r =>
      (c =? 45) &&
      ((negb (is_empty r) && forallb is_udigit r) ||
       match split_at 46 r with
       | Some (i, f) => forallb is_udigit i && negb (is_empty f) && forallb is_udigit f
       | None => false
       end)
  | [] => false
  end.

(** [_parse_optional]: [inr None] for a plain argument, [inr (Some t)]
    for an option.  The parser has no option that looks like a negative
    number, so a negative number is a plain argument. *)
Definition parse_optional (s : ustr) : arg_error + option opt_tuple :=
  match s with
  | [] => inr None
  | c :: _ =>
      if negb (c =? 45) then inr None else
      match lookup_option s with
      | Some a => inr (Some (OptT (Some a) s None))
      | None =>
          if (List.length s =? 1)%nat then inr None else
          match match split_at 61 s with
                | Some (o, e) => option_map (fun a => OptT (Some a) o (Some e)) (lookup_option o)
                | None => None
                end with
          | Some t => inr (Some t)
          | None =>
              match get_option_tuples s with
              | [t] => inr (Some t)
              | (_ :: _ :: _) as ts => inl (Ambiguous s (map ot_string ts))
              | [] =>
                  if neg_number_like s || existsb (Z.eqb 32) s then inr None
                  else inr (Some (OptT None s None))
              end
          end
      end
  end.

(** The pattern of an argument: an option ['O'], a plain argument ['A'],
    or the separator [--] (['-']). *)
Inductive pat := PO (t : opt_tuple) | PA | PDash.

(** The first loop of [_parse_known_args]: every string is classified
    before any is consumed; after [--] every string is an argument. *)
Fixpoint classify (argv : list ustr) : arg_error + list pat :=
  match argv with
  | [] => inr []
  | s :: rest =>
      if bool_decide (s = ⟪"--"⟫) then inr (PDash :: map (fun _ => PA) rest)
      else match parse_optional s, classify rest with
           | inl e, _ => inl e
           | inr _, inl e => inl e
           | inr o, inr ps => inr (match o with Some t => PO t | None => PA end :: ps)
           end
  end.

(** [match_argument] on the strings after an option given without an
    explicit argument: [nargs] plain arguments. *)
Definition match_following (a : action) (l : list (pat * ustr)) : arg_error + list ustr :=
  match nargs a, l with
  | O, _ => inr []
  | S _, (PA, v) :: _ => inr [v]
  | S _, _ => inl (ExpectedOne a)
  end.

Definition second_is_dash (o : ustr) : bool :=
  match o with _ :: c :: _ => c =? 45 | _ => false end.

(** The explicit-argument branch of [consume_optional]: an option that
    takes one argument takes the explicit one; a single-dash option
    that takes none reads the rest of the string as more single-dash
    options ([-hh]); otherwise the explicit argument is an error.  The
    actions with their arguments, and how many following strings they
    take. *)
Fixpoint consume_explicit (a : action) (o : ustr) (e : ustr) (l : list (pat * ustr))
    {struct e} : arg_error + (list (action * list ustr) * nat) :=
  if (nargs a =? 0)%nat && negb (second_is_dash o) && negb (is_empty e) then
    match e with
    | [] => inl (IgnoredExplicit a e)
    | c :: e' =>
        match lookup_option [45; c] with
        | None => inl (IgnoredExplicit a e)
        | Some a' =>
            match e' with
            | [] =>
                match match_following a' l with
                | inl err => inl err
                | inr vs => inr ([(a, []); (a', vs)], List.length vs)
                end
            | _ :: _ =>
                match consume_explicit a' [45; c] e' l with
                | inl err => inl err
                | inr (ts, n) => inr ((a, []) :: ts, n)
                end
            end
        end
    end
  else if (nargs a =? 1)%nat then inr ([(a, [e])], 0%nat)
  else inl (IgnoredExplicit a e).

(** [list.remove(x)]: the first occurrence of [x] is removed. *)
Fixpoint remove_first (x : ustr) (l : list ustr) : list ustr :=
  match l with
  | [] => []
  | y :: l' => if bool_decide (y = x) then l' else y :: remove_first x l'
  end.

(** [take_action] with the values of [_get_values]: [-h] prints the
    help and exits; [--dry-run] stores [True]; an option with one
    argument drops the first "--" of its strings, stores the one string
    left ([int] of it for [--limit]), or the empty list when none is
    left (two or more never reach it: each option takes one string). *)
Inductive step := Go (ns : namespace) | Halt (r : parse_result).

(** The value [_get_values] gives an option of one argument. *)
Definition get_value (vs : list ustr) : option ustr :=
  match remove_first ⟪"--"⟫ vs with [v] => Some v | _ => None end.

Definition take_action (ns : namespace) (a : action) (vs : list ustr) : step :=
  let one := get_value vs in
  match a with
  | AHelp => Halt ShowHelp
  | ARepo => Go {| ns_repo := one; ns_seed := ns_seed ns; ns_project := ns_project ns;
                   ns_limit := ns_limit ns; ns_dry_run := ns_dry_run ns |}
  | ASeed => Go {| ns_repo := ns_repo ns; ns_seed := one; ns_project := ns_project ns;
                   ns_limit := ns_limit ns; ns_dry_run := ns_dry_run ns |}
  | AProject => Go {| ns_repo := ns_repo ns; ns_seed := ns_seed ns; ns_project := one;
                      ns_limit := ns_limit ns; ns_dry_run := ns_dry_run ns |}
  | ALimit =>
      match one with
      | Some v =>
          match py_int v with
          | Some z => Go {| ns_repo := ns_repo ns; ns_seed := ns_seed ns;
                            ns_project := ns_project ns; ns_limit := Some z;
                            ns_dry_run := ns_dry_run ns |}
          | None => Halt (ArgFail (InvalidInt ALimit v))
          end
      | None => Go {| ns_repo := ns_repo ns; ns_seed := ns_seed ns;
                      ns_project := ns_project ns; ns_limit := None;
                      ns_dry_run := ns_dry_run ns |}
      end
  | ADryRun => Go {| ns_repo := ns_repo ns; ns_seed := ns_seed ns;
                     ns_project := ns_project ns; ns_limit := ns_limit ns;
                     ns_dry_run := true |}
  end.

Fixpoint take_actions (ns : namespace) (ts : list (action * list ustr)) : step :=
  match ts with
  | [] => Go ns
  | (a, vs) :: ts' =>
      match take_action ns a vs with Go ns' => take_actions ns' ts' | h => h end
  end.

(** The second loop of [_parse_known_args], with [fuel] steps at most
    ([None] when it runs out): an option consumes its arguments and
    takes its actions; a string no option takes is an extra; at the end
    the extras are the error [unrecognized arguments]. *)
Fixpoint parse_loop (fuel : nat) (ns : namespace) (l : list (pat * ustr)) (extras : list ustr)
    : option parse_result :=
  match fuel with
  | O => None
  | S fuel' =>
      match l with
      | [] => Some (match extras with [] => Parsed ns | _ :: _ => ArgFail (Unrecognized extras) end)
      | (PO (OptT (Some a) o explicit), _) :: rest =>
          match match explicit with
                | Some e => consume_explicit a o e rest
                | None =>
                    match match_following a rest with
                    | inl err => inl err
                    | inr vs => inr ([(a, vs)], List.length vs)
                    end
                end with
          | inl err => Some (ArgFail err)
          | inr (ts, n) =>
              match take_actions ns ts with
              | Halt r => Some r
              | Go ns' => parse_loop fuel' ns' (drop n rest) extras
              end
          end
      | (_, s) :: rest => parse_loop fuel' ns rest (extras ++ [s])
      end
  end.

(** [ap.parse_args()] on [sys.argv[1:]].  Every step consumes a string,
    so one step more than there are strings is enough
    ([parse_loop_terminates]). *)
Definition parse_args (argv : list ustr) : parse_result :=
  match classify argv with
  | inl e => ArgFail e
  | inr ps =>
      match parse_loop (S (List.length argv)) defaults (zip ps argv) [] with
      | Some r => r
      | None => ArgFail (Unrecognized argv)
      end
  end.


(** ** What the parser prints *)

Definition prog : ustr := ⟪"create_issues.py"⟫.

(** [format_usage()] and [format_help()], without their final newline. *)
Definition usage_text : ustr :=
  ⟪"usage: create_issues.py [-h] [--repo REPO] [--seed SEED] [--project PROJECT]"⟫
  ++ [10] ++ ⟪"                        [--limit LIMIT] [--dry-run]"⟫.

Definition help_text : ustr :=
  usage_text ++ [10; 10] ++ ⟪"options:"⟫ ++ [10] ++
  ⟪"  -h, --help         show this help message and exit"⟫ ++ [10] ++
  ⟪"  --repo REPO        OWNER/REPO"⟫ ++ [10] ++
  ⟪"  --seed SEED"⟫ ++ [10] ++
  ⟪"  --project PROJECT"⟫ ++ [10] ++
  ⟪"  --limit LIMIT"⟫ ++ [10] ++
  ⟪"  --dry-run"⟫.

Definition hex_digit (d : Z) : Z := if d <? 10 then 48 + d else 87 + d.

(** The [n] low hexadecimal digits of [c], most significant first. *)
Definition hex (n : nat) (c : Z) : ustr :=
  map (fun i => hex_digit (Z.land (Z.shiftr c (4 * Z.of_nat i)) 15)) (reverse (seq 0 n)).

(** [str.isprintable] on one character: exact below U+0100 (the C0 and
    C1 controls, DEL, the no-break space and the soft hyphen are not
    printable); every code point above is taken as printable. *)
Definition py_printable (c : Z) : bool :=
  negb ((c <? 32) || ((127 <=? c) && (c <=? 160)) || (c =? 173)).

(** [repr] of one character inside the quote [q]. *)
Definition repr_char (q c : Z) : ustr :=
  if (c =? q) || (c =? 92) then [92; c]
  else if c =? 9 then [92; 116]
  else if c =? 10 then [92; 110]
  else if c =? 13 then [92; 114]
  else if py_printable c then [c]
  else if c <=? 255 then [92; 120] ++ hex 2 c
  else if c <=? 65535 then [92; 117] ++ hex 4 c
  else [92; 85] ++ hex 8 c.

(** [repr(s)] of a [str]: single quotes, unless the string holds a single
    quote and no double quote. *)
Definition py_repr (s : ustr) : ustr :=
  let q := if existsb (Z.eqb 39) s && negb (existsb (Z.eqb 34) s) then 34 else 39 in
  [q] ++ flat_map (repr_char q) s ++ [q].

(** [str(ArgumentError)] and the messages of [ArgumentParser.error]. *)
Definition arg_msg (a : action) (m : ustr) : ustr :=
  ⟪"argument "⟫ ++ action_name a ++ ⟪": "⟫ ++ m.

Definition error_message (e : arg_error) : ustr :=
  match e with
  | Ambiguous s ms => ⟪"ambiguous option: "⟫ ++ s ++ ⟪" could match "⟫ ++ join ⟪", "⟫ ms
  | ExpectedOne a => arg_msg a ⟪"expected one argument"⟫
  | IgnoredExplicit a x => arg_msg a (⟪"ignored explicit argument "⟫ ++ py_repr x)
  | InvalidInt a v => arg_msg a (⟪"invalid int value: "⟫ ++ py_repr v)
  | Unrecognized xs => ⟪"unrecognized arguments: "⟫ ++ join ⟪" "⟫ xs
  end.

(** ** The script from its argument vector *)

(** The [args] of a namespace: the strings and the limit as [main]
    reads them (an empty list, which [main_ns] handles, as the empty
    string or 0). *)
Definition args_of_ns (ns : namespace) : args :=
  {| arg_repo := default [] (ns_repo ns); arg_seed := default [] (ns_seed ns);
     arg_project := default [] (ns_project ns); arg_limit := default 0 (ns_limit ns);
     arg_dry_run := ns_dry_run ns |}.

Section WithTracker.
Context `{T : Tracker}.

(** [args = ap.parse_args()]: [ArgumentParser.error] prints the usage and
    [prog: error: message] on stderr and exits with 2; [-h] prints the
    help on stdout and exits with 0. *)
Definition parse_args_m (argv : list ustr) : M namespace :=
  match parse_args argv with
  | Parsed ns => ret ns
  | ShowHelp => py_print help_text ;;; raise_exit 0
  | ArgFail e =>
      py_eprint usage_text ;;;
      py_eprint (prog ++ ⟪": error: "⟫ ++ error_message e) ;;;
      raise_exit 2
  end.

(** The rest of [main()] (lines 177-214) on the namespace.  On strings
    it is [main]; an empty list fails where the script first uses it:
    [[].strip()] raises [AttributeError] at line 177 for [args.repo]
    and at line 206, in the first row, for [args.project]; [open([])]
    raises [TypeError] at line 180, after the repository is resolved;
    as a limit, [[]] is false at line 185, as 0 is. *)
Definition main_ns (ns : namespace) (fs : ustr -> option (list Z)) : M unit :=
  let a := args_of_ns ns in
  match ns_repo ns, ns_seed ns, ns_project ns with
  | None, _, _ => raise_uncaught ⟪"AttributeError"⟫
  | Some _, None, _ => resolve_repo a ;;; raise_uncaught ⟪"TypeError"⟫
  | Some _, Some _, Some _ => main a fs
  | Some _, Some _, None =>
      repo <- resolve_repo a ;;
      match TextIO.read_seed_file (fs (arg_seed a)) with
      | SeedError e => raise_uncaught e
      | SeedRows all =>
          match selected a all with
          | [] => py_print (ok_line 0 repo)
          | _ :: _ => raise_uncaught ⟪"AttributeError"⟫
          end
      end
  end.

Definition script_ns (ns : namespace) (fs : ustr -> option (list Z)) (st : tr_state)
    : Z * list event * tr_state :=
  let (o, w) := main_ns ns fs {| w_tracker := st; w_log := [] |} in
  (exit_status o, w_log w, w_tracker w).

(** [main()] with [sys.argv[1:] = argv]. *)
Definition main_argv (argv : list ustr) (fs : ustr -> option (list Z)) : M unit :=
  ns <- parse_args_m argv ;; main_ns ns fs.

Definition script_argv (argv : list ustr) (fs : ustr -> option (list Z)) (st : tr_state)
    : Z * list event * tr_state :=
  let (o, w) := main_argv argv fs {| w_tracker := st; w_log := [] |} in
  (exit_status o, w_log w, w_tracker w).
End WithTracker.


(** ** A command line in the [--opt=value] form

    The arguments [args_of] stands for, written as a command line whose
    limit is a sign and decimal digits. *)
Definition digits_value (ds : list Z) : Z := fold_left (fun acc d => 10 * acc + d) ds 0.

Definition argv_of (repo seed project : ustr) (neg : bool) (ds : list Z) (dry : bool)
    : list ustr :=
  [⟪"--repo="⟫ ++ repo; ⟪"--seed="⟫ ++ seed; ⟪"--project="⟫ ++ project;
   ⟪"--limit="⟫ ++ (if neg then [45] else []) ++ map (fun d => 48 + d) ds] ++
  (if dry then [⟪"--dry-run"⟫] else []).

Definition args_of (repo seed project : ustr) (neg : bool) (ds : list Z) (dry : bool) : args :=
  {| arg_repo := repo; arg_seed := seed; arg_project := project;
     arg_limit := (if neg then -1 else 1) * digits_value ds; arg_dry_run := dry |}.

(** A value given as an explicit argument: the string, or the empty
    list for "--". *)
Definition py_value (v : ustr) : option ustr :=
  if bool_decide (v = ⟪"--"⟫) then None else Some v.

(** The namespace [argv_of] is parsed into, and the namespace of
    strings of given [args]. *)
Definition ns_argv (repo seed project : ustr) (neg : bool) (ds : list Z) (dry : bool)
    : namespace :=
  {| ns_repo := py_value repo; ns_seed := py_value seed; ns_project := py_value project;
     ns_limit := Some ((if neg then -1 else 1) * digits_value ds); ns_dry_run := dry |}.

Definition ns_of_args (a : args) : namespace :=
  {| ns_repo := Some (arg_repo a); ns_seed := Some (arg_seed a);
     ns_project := Some (arg_project a); ns_limit := Some (arg_limit a);
     ns_dry_run := arg_dry_run a |}.

(** ** Lemmas *)

(** [int] of a sign and decimal digits. *)
Lemma digit_run_digits ds acc n :
  Forall (fun d => 0 <= d <= 9) ds ->
  digit_run (map (fun d => 48 + d) ds) acc n false =
    Some (fold_left (fun acc d => 10 * acc + d) ds acc, (n + List.length ds)%nat, []).
Proof.
  intros Hds. revert acc n. induction Hds as [|d ds Hd _ IH]; intros acc n; cbn [map digit_run].
  - by rewrite Nat.add_0_r.
  - unfold ascii_digit. rewrite (proj2 (andb_true_iff _ _)) by (split; apply Z.leb_le; lia).
    rewrite IH. cbn [fold_left List.length].
    replace (10 * acc + (48 + d - 48)) with (10 * acc + d) by lia. by rewrite Nat.add_succ_r.
Qed.

Lemma map_to_ascii_digits ds :
  Forall (fun d => 0 <= d <= 9) ds -> map to_ascii (map (fun d => 48 + d) ds) = map (fun d => 48 + d) ds.
Proof.
  induction 1 as [|d ds Hd _ IH]; [done|]. cbn [map]. rewrite IH. f_equal.
  unfold to_ascii. by rewrite (proj2 (Z.ltb_lt _ _)) by lia.
Qed.

Lemma py_int_digits (neg : bool) ds :
  Forall (fun d => 0 <= d <= 9) ds -> ds <> [] -> (List.length ds <= int_max_str_digits)%nat ->
  py_int ((if neg then [45] else []) ++ map (fun d => 48 + d) ds) =
    Some ((if neg then -1 else 1) * digits_value ds).
Proof.
  intros Hds Hne Hlen. destruct ds as [|d ds']; [done|].
  inversion Hds as [|? ? Hd _]; subst.
  assert (Hc : c_isspace (48 + d) = false) by (unfold c_isspace; repeat case_bool_decide; lia).
  assert (H95 : (48 + d =? 95) = false) by (apply Z.eqb_neq; lia).
  assert (H43 : (48 + d =? 43) = false) by (apply Z.eqb_neq; lia).
  assert (H45 : (48 + d =? 45) = false) by (apply Z.eqb_neq; lia).
  assert (Hrun := digit_run_digits (d :: ds') 0 0 Hds). cbn [map] in Hrun.
  assert (Hlt : (int_max_str_digits <=? List.length ds')%nat = false)
    by (apply Nat.leb_gt; simpl in Hlen; lia).
  assert (Hs : skip_while c_isspace (map to_ascii ((if neg then [45] else []) ++
                 map (fun d => 48 + d) (d :: ds'))) =
               (if neg then [45] else []) ++ 48 + d :: map (fun d => 48 + d) ds').
  { rewrite map_app, map_to_ascii_digits by done.
    destruct neg; cbn [map app skip_while]; rewrite Hc; reflexivity. }
  unfold py_int, digits_value. rewrite Hs.
  destruct neg; cbn [app]; cbn iota beta; rewrite ?H43, ?H45; cbn [fst snd Z.eqb Pos.eqb];
    rewrite ?H95; cbn iota beta; rewrite Hrun; cbn -[int_max_str_digits]; by rewrite Hlt.
Qed.

(** How the strings of [argv_of] are read. *)
Lemma parse_optional_explicit v :
  parse_optional (⟪"--repo="⟫ ++ v) = inr (Some (OptT (Some ARepo) ⟪"--repo"⟫ (Some v))) /\
  parse_optional (⟪"--seed="⟫ ++ v) = inr (Some (OptT (Some ASeed) ⟪"--seed"⟫ (Some v))) /\
  parse_optional (⟪"--project="⟫ ++ v) =
    inr (Some (OptT (Some AProject) ⟪"--project"⟫ (Some v))) /\
  parse_optional (⟪"--limit="⟫ ++ v) = inr (Some (OptT (Some ALimit) ⟪"--limit"⟫ (Some v))).
Proof. repeat split; vm_compute; reflexivity. Qed.

Lemma not_dashdash_explicit v :
  bool_decide (⟪"--repo="⟫ ++ v = ⟪"--"⟫) = false /\ bool_decide (⟪"--seed="⟫ ++ v = ⟪"--"⟫) = false /\
  bool_decide (⟪"--project="⟫ ++ v = ⟪"--"⟫) = false /\
  bool_decide (⟪"--limit="⟫ ++ v = ⟪"--"⟫) = false.
Proof. repeat split; vm_compute; reflexivity. Qed.

Lemma classify_option s t rest :
  bool_decide (s = ⟪"--"⟫) = false -> parse_optional s = inr (Some t) ->
  classify (s :: rest) = match classify rest with inl e => inl e | inr ps => inr (PO t :: ps) end.
Proof. intros H1 H2. cbn [classify]. rewrite H1, H2. by destruct (classify rest). Qed.

Lemma consume_explicit_one a o e l :
  nargs a = 1%nat -> consume_explicit a o e l = inr ([(a, [e])], 0%nat).
Proof. intros Hn. destruct e; cbn [consume_explicit]; by rewrite Hn. Qed.

(** One step of the loop: an option with its explicit argument, and a
    flag. *)
Lemma parse_loop_explicit f ns a o e x rest ex ns' :
  nargs a = 1%nat -> take_action ns a [e] = Go ns' ->
  parse_loop (S f) ns ((PO (OptT (Some a) o (Some e)), x) :: rest) ex = parse_loop f ns' rest ex.
Proof. intros Hn Ht. cbn [parse_loop]. rewrite consume_explicit_one by done. simpl. by rewrite Ht. Qed.

Lemma parse_loop_flag f ns a o x rest ex ns' :
  nargs a = 0%nat -> take_action ns a [] = Go ns' ->
  parse_loop (S f) ns ((PO (OptT (Some a) o None), x) :: rest) ex = parse_loop f ns' rest ex.
Proof. intros Hn Ht. cbn [parse_loop]. unfold match_following. rewrite Hn. simpl. by rewrite Ht. Qed.

(** Every step of the loop consumes a string: the fuel of [parse_args]
    is enough. *)
Lemma parse_loop_terminates fuel ns l ex :
  (List.length l < fuel)%nat -> parse_loop fuel ns l ex <> None.
Proof.
  revert ns l ex. induction fuel as [|f IH]; intros ns l ex Hl; [lia|].
  destruct l as [|[p s] rest]; cbn [parse_loop]; [done|]. simpl in Hl.
  destruct p as [[[a|] o [e|]]| |]; try (apply IH; lia).
  - destruct (consume_explicit a o e rest) as [err|[ts n]]; [done|].
    destruct (take_actions ns ts); [|done]. apply IH. rewrite length_drop. lia.
  - destruct (match_following a rest) as [err|vs]; [done|].
    destruct (take_actions ns [(a, vs)]); [|done]. apply IH. rewrite length_drop. lia.
Qed.

Lemma get_value_one v : get_value [v] = py_value v.
Proof. unfold get_value, py_value. cbn [remove_first]. by case_bool_decide. Qed.

Lemma py_int_dashdash : py_int ⟪"--"⟫ = None.
Proof. vm_compute. reflexivity. Qed.

Lemma take_action_limit ns v z :
  py_int v = Some z ->
  take_action ns ALimit [v] =
    Go {| ns_repo := ns_repo ns; ns_seed := ns_seed ns; ns_project := ns_project ns;
          ns_limit := Some z; ns_dry_run := ns_dry_run ns |}.
Proof.
  intros H. unfold take_action. rewrite get_value_one. unfold py_value.
  case_bool_decide as Hd; [subst; by rewrite py_int_dashdash in H|]. by rewrite H.
Qed.

(** Every string of [argv_of] is read as its option with an explicit
    argument; the values are those of [ns_argv]. *)
Lemma parse_args_argv_of r s p neg ds dry :
  Forall (fun d => 0 <= d <= 9) ds -> ds <> [] -> (List.length ds <= int_max_str_digits)%nat ->
  parse_args (argv_of r s p neg ds dry) = Parsed (ns_argv r s p neg ds dry).
Proof.
  intros Hds Hne Hlen.
  set (lim := (if neg then [45] else []) ++ map (fun d => 48 + d) ds).
  assert (Hi : py_int lim = Some ((if neg then -1 else 1) * digits_value ds))
    by (apply py_int_digits; done).
  destruct (parse_optional_explicit r) as (Hr & _ & _ & _).
  destruct (parse_optional_explicit s) as (_ & Hs & _ & _).
  destruct (parse_optional_explicit p) as (_ & _ & Hp & _).
  destruct (parse_optional_explicit lim) as (_ & _ & _ & Hl).
  destruct (not_dashdash_explicit r) as (Dr & _ & _ & _).
  destruct (not_dashdash_explicit s) as (_ & Ds & _ & _).
  destruct (not_dashdash_explicit p) as (_ & _ & Dp & _).
  destruct (not_dashdash_explicit lim) as (_ & _ & _ & Dl).
  unfold parse_args, argv_of, ns_argv. fold lim. rewrite <- !get_value_one.
  destruct dry; cbn [app];
    rewrite (classify_option _ _ _ Dr Hr), (classify_option _ _ _ Ds Hs),
      (classify_option _ _ _ Dp Hp), (classify_option _ _ _ Dl Hl).
  - assert (Hd : classify [⟪"--dry-run"⟫] = inr [PO (OptT (Some ADryRun) ⟪"--dry-run"⟫ None)])
      by (vm_compute; reflexivity).
    rewrite Hd. cbn [zip_with List.length].
    do 3 (erewrite parse_loop_explicit by reflexivity).
    rewrite (parse_loop_explicit _ _ ALimit _ _ _ _ _ _ eq_refl (take_action_limit _ _ _ Hi)).
    erewrite parse_loop_flag by reflexivity. reflexivity.
  - cbn [classify zip_with List.length].
    do 3 (erewrite parse_loop_explicit by reflexivity).
    rewrite (parse_loop_explicit _ _ ALimit _ _ _ _ _ _ eq_refl (take_action_limit _ _ _ Hi)).
    reflexivity.
Qed.

Lemma ns_argv_strings r s p neg ds dry :
  r <> ⟪"--"⟫ -> s <> ⟪"--"⟫ -> p <> ⟪"--"⟫ ->
  ns_argv r s p neg ds dry = ns_of_args (args_of r s p neg ds dry).
Proof.
  intros Hr Hs Hp. unfold ns_argv, py_value.
  by rewrite !bool_decide_false by done.
Qed.

Section Script.
Context `{T : Tracker}.

Lemma script_argv_eq argv fs st :
  script_argv argv fs st =
    match parse_args argv with
    | Parsed ns => script_ns ns fs st
    | ShowHelp => (0%Z, [Stdout help_text], st)
    | ArgFail e =>
        (2%Z, [Stderr usage_text; Stderr (prog ++ ⟪": error: "⟫ ++ error_message e)], st)
    end.
Proof.
  unfold script_argv, main_argv, parse_args_m, script_ns.
  destruct (parse_args argv); reflexivity.
Qed.

(** On a namespace of strings the script is [script]. *)
Lemma script_ns_of_args a fs st : script_ns (ns_of_args a) fs st = script a fs st.
Proof. by destruct a. Qed.

End Script.

Lemma error_message_limit v :
  ⟪": error: "⟫ ++ error_message (InvalidInt ALimit v) =
    ⟪": error: argument --limit: invalid int value: "⟫ ++ py_repr v.
Proof.
  unfold error_message, arg_msg, action_name. rewrite !app_assoc. f_equal.
Qed.

(** ** Properties *)

Section Claims.
Context `{T : Tracker}.

(** C34 (round trip): a command line in the [--opt=value] form (the
    repository, the seed path and the project any strings, the limit a
    sign and 1 to 4300 decimal digits, [--dry-run] present or not) is
    parsed into the namespace of its values, where the string "--" is
    the empty list; when none of the three strings is "--" the values
    are exactly the arguments it writes, and the script run with it is
    the script run with those arguments. *)
Theorem script_argv_of r s p neg ds dry fs st :
  Forall (fun d => 0 <= d <= 9) ds -> ds <> [] -> (List.length ds <= int_max_str_digits)%nat ->
  parse_args (argv_of r s p neg ds dry) = Parsed (ns_argv r s p neg ds dry) /\
  (r <> ⟪"--"⟫ -> s <> ⟪"--"⟫ -> p <> ⟪"--"⟫ ->
   ns_argv r s p neg ds dry = ns_of_args (args_of r s p neg ds dry) /\
   script_argv (argv_of r s p neg ds dry) fs st = script (args_of r s p neg ds dry) fs st).
Proof.
  intros Hds Hne Hlen. pose proof (parse_args_argv_of r s p neg ds dry Hds Hne Hlen) as Hp.
  split; [done|]. intros Hr Hs Hpr. rewrite ns_argv_strings in * by done.
  split; [done|]. by rewrite script_argv_eq, Hp, script_ns_of_args.
Qed.

(** C35 (error): [--repo=--] or, with a repository given, [--seed=--]
    stores the empty list ([_get_values] drops the argument "--"), and
    the script dies at once with an uncaught exception
    ([AttributeError] on [args.repo.strip()], [TypeError] on
    [open([])]): status 1, nothing printed, no [gh] call. *)
Theorem script_argv_dashdash r s p neg ds dry fs st :
  Forall (fun d => 0 <= d <= 9) ds -> ds <> [] -> (List.length ds <= int_max_str_digits)%nat ->
  script_argv (argv_of ⟪"--"⟫ s p neg ds dry) fs st = (1%Z, [], st) /\
  (r <> ⟪"--"⟫ -> is_empty (strip r) = false ->
   script_argv (argv_of r ⟪"--"⟫ p neg ds dry) fs st = (1%Z, [], st)).
Proof.
  intros Hds Hne Hlen. split.
  - rewrite script_argv_eq, parse_args_argv_of by done.
    unfold script_ns, main_ns, ns_argv, py_value. cbn [ns_repo].
    by rewrite bool_decide_true.
  - intros Hr He. rewrite script_argv_eq, parse_args_argv_of by done.
    unfold script_ns, main_ns, ns_argv, py_value. cbn [ns_repo ns_seed].
    rewrite bool_decide_false, bool_decide_true by done.
    unfold resolve_repo, args_of_ns. cbn [ns_repo default from_option id arg_repo].
    by rewrite He.
Qed.

(** C36 (error): [--limit] followed by a plain argument that [int]
    rejects ends the run at once: the usage and
    "create_issues.py: error: argument --limit: invalid int value: 'v'"
    on stderr, status 2, no [gh] call and no seed file read. *)
Theorem script_argv_bad_limit v fs st :
  parse_optional v = inr None -> py_int v = None ->
  script_argv [⟪"--limit"⟫; v] fs st =
    (2%Z, [Stderr usage_text;
           Stderr (prog ++ ⟪": error: argument --limit: invalid int value: "⟫ ++ py_repr v)],
     st).
Proof.
  intros Hv Hi.
  assert (Hd : bool_decide (v = ⟪"--"⟫) = false).
  { apply bool_decide_eq_false. intros ->. vm_compute in Hv. discriminate. }
  assert (Hc : classify [⟪"--limit"⟫; v] =
               inr [PO (OptT (Some ALimit) ⟪"--limit"⟫ None); PA]).
  { rewrite (classify_option ⟪"--limit"⟫ (OptT (Some ALimit) ⟪"--limit"⟫ None) [v]
              ltac:(vm_compute; reflexivity) ltac:(vm_compute; reflexivity)).
    cbn [classify]. by rewrite Hd, Hv. }
  assert (Hp : parse_args [⟪"--limit"⟫; v] = ArgFail (InvalidInt ALimit v)).
  { unfold parse_args. rewrite Hc. cbn [zip_with List.length parse_loop].
    unfold match_following. cbn [nargs take_actions take_action].
    rewrite get_value_one. unfold py_value. by rewrite Hd, Hi. }
  by rewrite script_argv_eq, Hp, error_message_limit.
Qed.
End Claims.

Ltac not_dashdash := let H := fresh in intros H; vm_compute in H; discriminate H.

Lemma script_argv_of_witness :
  (Forall (fun d => 0 <= d <= 9) [2] /\ [2] <> [] /\
   (List.length [2] <= int_max_str_digits)%nat) /\
  parse_args (argv_of ⟪"owner/repo"⟫ ⟪"kanban/issues_seed.csv"⟫ ⟪"BaleSupply"⟫ false [2] true) =
    Parsed (ns_of_args args_dry) /\
  @script_argv (fixed_tracker ok_result ok_result_range)
    (argv_of ⟪"owner/repo"⟫ ⟪"kanban/issues_seed.csv"⟫ ⟪"BaleSupply"⟫ false [2] true)
    seed_fs 7%nat =
  @script (fixed_tracker ok_result ok_result_range) args_dry seed_fs 7%nat.
Proof.
  assert (H : Forall (fun d => 0 <= d <= 9) [2] /\ [2] <> [] /\
              (List.length [2] <= int_max_str_digits)%nat).
  { split; [repeat constructor; lia|split; [done|cbv; lia]]. }
  destruct H as (H1 & H2 & H3).
  destruct (@script_argv_of (fixed_tracker ok_result ok_result_range)
              ⟪"owner/repo"⟫ ⟪"kanban/issues_seed.csv"⟫ ⟪"BaleSupply"⟫ false [2] true
              seed_fs 7%nat H1 H2 H3) as [Hp Hs].
  destruct (Hs ltac:(not_dashdash) ltac:(not_dashdash) ltac:(not_dashdash)) as [Hn Hsc].
  assert (Ha : args_of ⟪"owner/repo"⟫ ⟪"kanban/issues_seed.csv"⟫ ⟪"BaleSupply"⟫ false [2] true =
               args_dry) by (vm_compute; reflexivity).
  rewrite Hn, Ha in Hp. rewrite Ha in Hsc.
  split; [split; [exact H1|split; [exact H2|exact H3]]|split; assumption].
Defined.

Lemma script_argv_dashdash_witness :
  (Forall (fun d => 0 <= d <= 9) [2] /\ [2] <> [] /\
   (List.length [2] <= int_max_str_digits)%nat) /\
  @script_argv (fixed_tracker ok_result ok_result_range)
    (argv_of ⟪"--"⟫ ⟪"kanban/issues_seed.csv"⟫ ⟪"BaleSupply"⟫ false [2] false) seed_fs 7%nat =
    (1%Z, [], 7%nat) /\
  @script_argv (fixed_tracker ok_result ok_result_range)
    (argv_of ⟪"owner/repo"⟫ ⟪"--"⟫ ⟪"BaleSupply"⟫ false [2] false) seed_fs 7%nat =
    (1%Z, [], 7%nat).
Proof.
  assert (H : Forall (fun d => 0 <= d <= 9) [2] /\ [2] <> [] /\
              (List.length [2] <= int_max_str_digits)%nat).
  { split; [repeat constructor; lia|split; [done|cbv; lia]]. }
  destruct H as (H1 & H2 & H3).
  destruct (@script_argv_dashdash (fixed_tracker ok_result ok_result_range)
              ⟪"owner/repo"⟫ ⟪"kanban/issues_seed.csv"⟫ ⟪"BaleSupply"⟫ false [2] false
              seed_fs 7%nat H1 H2 H3) as [Hr Hs].
  split; [split; [exact H1|split; [exact H2|exact H3]]|split; [exact Hr|]].
  apply Hs; [not_dashdash|vm_compute; reflexivity].
Defined.

Lemma script_argv_bad_limit_witness :
  (parse_optional ⟪"abc"⟫ = inr None /\ py_int ⟪"abc"⟫ = None) /\
  @script_argv (fixed_tracker ok_result ok_result_range) [⟪"--limit"⟫; ⟪"abc"⟫] seed_fs 0%nat =
    (2%Z, [Stderr usage_text;
           Stderr (prog ++ ⟪": error: argument --limit: invalid int value: "⟫ ++
                   py_repr ⟪"abc"⟫)], 0%nat).
Proof.
  split; [split; vm_compute; reflexivity|].
  apply (@script_argv_bad_limit (fixed_tracker ok_result ok_result_range)); vm_compute; reflexivity.
Defined.

End Args.
