(* ===== verification/GitHubSim.v ===== *)
(** * A simulated GitHub: an instance of [Tracker], and the end-to-end
      refinement of [main]

    [github_sim] is a tracker whose state is a repository: its name, the
    names of its labels, milestones and projects, and its issues.  It
    answers [gh repo view ...] with the name, and
    [gh issue create --flag value ...] by parsing the flag/value pairs
    (the labels split on commas, as [gh] does), checking them as [gh]
    does before it creates anything (the repository, then each label,
    the project and the milestone must exist; [reject_reason]) and
    appending the issue, or failing with status 1 and [gh]'s message on
    stderr; it fails with status 1 on anything else.  It stands for [gh]
    the way a test double would; it is not code of the repository.

    The abstract specification of a row is [issue_of_row]: the issue the
    composed component specifications describe (the abstract kind
    [kind_spec], the rule lists of the inference, the template view).
    Theorems: the command line [issue_cmd] builds is parsed back into
    exactly that issue; a real run against the simulator whose rows are
    accepted creates exactly the issues of the selected rows, in order,
    with status 0, also when the repository is looked up with
    [gh repo view]; the first refused row stops the run with status 1,
    the issues before it created; and a row whose kind label the
    repository lacks is refused. *)

From S2P Require Import Prelude PyStr Labels Kind Infer Body Tracker Csv Utf8 TextIO Main.
From Stdlib Require Import Lia.

Module GitHubSim.
Import Main.
Import Csv(seed_row(..), row_title, row_body, row_labels, row_milestone, seed_read(..)).

Record issue := {
  i_title : ustr;
  i_body : ustr;
  i_labels : list ustr;
  i_milestone : option ustr;
  i_project : option ustr
}.

(** The repository [gh] talks to: its name, the names of its labels,
    milestones and projects, and its issues. *)
Record gh_state := {
  repo_name : ustr;
  repo_labels : list ustr;
  repo_milestones : list ustr;
  repo_projects : list ustr;
  issues : list issue
}.

Definition with_issues (s : gh_state) (iss : list issue) : gh_state :=
  {| repo_name := repo_name s; repo_labels := repo_labels s;
     repo_milestones := repo_milestones s; repo_projects := repo_projects s;
     issues := iss |}.

(** The flag/value pairs of a command line. *)
Fixpoint parse_flags (args : list ustr) : option (list (ustr * ustr)) :=
  match args with
  | [] => Some []
  | f :: v :: rest =>
      match parse_flags rest with Some ps => Some ((f, v) :: ps) | None => None end
  | [_] => None
  end.

Fixpoint flag_value (f : ustr) (ps : list (ustr * ustr)) : option ustr :=
  match ps with
  | [] => None
  | (g, v) :: ps' => if bool_decide (g = f) then Some v else flag_value f ps'
  end.

Definition parse_create (cmd : list ustr) : option (ustr * issue) :=
  match cmd with
  | g :: i :: c :: rest =>
      if bool_decide ([g; i; c] = [⟪"gh"⟫; ⟪"issue"⟫; ⟪"create"⟫]) then
        match parse_flags rest with
        | Some ps =>
            match flag_value ⟪"--repo"⟫ ps, flag_value ⟪"--title"⟫ ps,
                  flag_value ⟪"--body"⟫ ps with
            | Some repo, Some title, Some body =>
                Some (repo, {| i_title := title; i_body := body;
                               i_labels := match flag_value ⟪"--label"⟫ ps with
                                           | Some l => split_sep Labels.comma l
                                           | None => [] end;
                               i_milestone := flag_value ⟪"--milestone"⟫ ps;
                               i_project := flag_value ⟪"--project"⟫ ps |})
            | _, _, _ => None
            end
        | None => None
        end
      else None
  | _ => None
  end.

(** Why [gh issue create] refuses an issue. *)
Inductive reject :=
| UnknownRepo
| NoLabel (l : ustr)
| NoProject (p : ustr)
| NoMilestone (m : ustr).

(** The error [gh] reports for a repository that does not exist. *)
Definition unknown_repo_error : ustr := ⟪"GraphQL: Could not resolve to a Repository"⟫.

(** The message [gh] prints for each refusal (the metadata errors of
    [AddMetadataToIssueParams]). *)
Definition reject_msg (r : reject) : ustr :=
  match r with
  | UnknownRepo => unknown_repo_error
  | NoLabel l => ⟪"could not add label: '"⟫ ++ l ++ ⟪"' not found"⟫
  | NoProject p => ⟪"could not add to project: '"⟫ ++ p ++ ⟪"' not found"⟫
  | NoMilestone m => ⟪"could not add to milestone '"⟫ ++ m ++ ⟪"': '"⟫ ++ m ++ ⟪"' not found"⟫
  end.

(** A name of the repository's metadata, compared ignoring case as
    [gh] does ([strings.EqualFold]). *)
Definition known_name (names : list ustr) (x : ustr) : bool :=
  existsb (fun n => bool_decide (lower n = lower x)) names.

(** The first of [xs] that is not a known name. *)
Fixpoint first_unknown (names xs : list ustr) : option ustr :=
  match xs with
  | [] => None
  | x :: xs' => if known_name names x then first_unknown names xs' else Some x
  end.

(** An optional name that must be known: the refusal [e] when it is not. *)
Definition unknown_opt (names : list ustr) (x : option ustr) (e : ustr -> reject)
    : option reject :=
  match x with
  | Some v => if known_name names v then None else Some (e v)
  | None => None
  end.

(** The checks of [gh issue create] before the issue is created, in
    its order: the repository, then the labels, the project and the
    milestone are resolved to their ids. *)
Definition reject_reason (s : gh_state) (repo : ustr) (iss : issue) : option reject :=
  if negb (bool_decide (repo = repo_name s)) then Some UnknownRepo
  else match first_unknown (repo_labels s) (i_labels iss) with
       | Some l => Some (NoLabel l)
       | None =>
           match unknown_opt (repo_projects s) (i_project iss) NoProject with
           | Some e => Some e
           | None => unknown_opt (repo_milestones s) (i_milestone iss) NoMilestone
           end
       end.

Definition sim_exec (cmd : list ustr) (s : gh_state) : proc_result * gh_state :=
  if bool_decide (cmd = repo_view_cmd) then
    ({| returncode := 0; stdout := repo_name s ++ [10%Z]; stderr := [] |}, s)
  else match parse_create cmd with
       | Some (repo, iss) =>
           match reject_reason s repo iss with
           | None =>
               ({| returncode := 0; stdout := ⟪"https://github.com/"⟫ ++ repo; stderr := [] |},
                with_issues s (issues s ++ [iss]))
           | Some e =>
               ({| returncode := 1; stdout := []; stderr := reject_msg e ++ [10%Z] |}, s)
           end
       | None => ({| returncode := 1; stdout := []; stderr := ⟪"unknown command"⟫ |}, s)
       end.

#[export] Instance github_sim : Tracker.
Proof.
  refine {| tr_state := gh_state; tr_exec := sim_exec |}.
  intros cmd st. unfold sim_exec. case_bool_decide; [simpl; lia|].
  destruct (parse_create cmd) as [[repo iss]|]; [destruct (reject_reason st repo iss)|];
    simpl; lia.
Defined.

(** ** The abstract issue of a row *)

Definition issue_of_row (a : args) (r : seed_row) : issue :=
  let raw := Some (py_or_empty (row_labels r)) in
  let labels0 := Labels.normalize_labels raw in
  let title := strip (py_or_empty (row_title r)) in
  let kind := Kind.kind_spec labels0 in
  let dfd := Infer.first_match Infer.dfd_rules Infer.dfd_default (lower title) labels0 in
  let role := Infer.first_match Infer.role_rules Infer.role_default (lower title) labels0 in
  let milestone := strip (py_or_empty (row_milestone r)) in
  let project := strip (arg_project a) in
  {| i_title := title;
     i_body := Body.render (Body.view_of_kind (Kind.kind_name kind)
                 (strip (py_or_empty (row_body r))) dfd role);
     i_labels := Kind.primary_labels raw;
     i_milestone := if is_empty milestone then None else Some milestone;
     i_project := if is_empty project then None else Some project |}.

Fixpoint flatten_pairs (ps : list (ustr * ustr)) : list ustr :=
  match ps with [] => [] | (f, v) :: ps' => f :: v :: flatten_pairs ps' end.

Definition opt_pair (f v : ustr) : list (ustr * ustr) :=
  if is_empty v then [] else [(f, v)].

(** The flag/value pairs of the command line of a row. *)
Definition issue_pairs (a : args) (repo : ustr) (r : seed_row) : list (ustr * ustr) :=
  let raw := Some (py_or_empty (row_labels r)) in
  let labels0 := Labels.normalize_labels raw in
  let labels := Kind.primary_labels raw in
  let title := strip (py_or_empty (row_title r)) in
  [(⟪"--repo"⟫, repo); (⟪"--title"⟫, title);
   (⟪"--body"⟫, Body.build_body (Kind.kind_from_labels labels0)
                  (strip (py_or_empty (row_body r)))
                  (Infer.infer_dfd title labels) (Infer.infer_role title labels));
   (⟪"--label"⟫, join ⟪","⟫ labels)] ++
  opt_pair ⟪"--milestone"⟫ (strip (py_or_empty (row_milestone r))) ++
  opt_pair ⟪"--project"⟫ (strip (arg_project a)).

Ltac lit_neq := let H := fresh in intros H; vm_compute in H; discriminate.

(** Evaluate the flag lookups of a pair list with literal flags. *)
Ltac flag_simpl :=
  repeat (cbn [flag_value];
          first [rewrite bool_decide_true by reflexivity
                |rewrite bool_decide_false by lit_neq]).

(** The repository of the witnesses: the labels of the kinds and the
    roles, the milestone "Sprint 1" and the project "BaleSupply"; and
    the same repository without the label "vendor". *)
Definition sim_start : gh_state :=
  {| repo_name := ⟪"owner/repo"⟫;
     repo_labels := [⟪"bug"⟫; ⟪"db"⟫; ⟪"docs"⟫; ⟪"feature"⟫; ⟪"admin"⟫; ⟪"vendor"⟫;
                     ⟪"buyer"⟫; ⟪"viewer"⟫; ⟪"requests"⟫];
     repo_milestones := [⟪"Sprint 1"⟫]; repo_projects := [⟪"BaleSupply"⟫];
     issues := [] |}.
Definition sim_no_vendor : gh_state :=
  {| repo_name := ⟪"owner/repo"⟫;
     repo_labels := [⟪"Bug"⟫; ⟪"db"⟫; ⟪"docs"⟫; ⟪"Feature"⟫];
     repo_milestones := [⟪"Sprint 1"⟫]; repo_projects := [⟪"BaleSupply"⟫];
     issues := [] |}.

(** A real run that asks [gh] for the repository. *)
Definition args_lookup : args :=
  {| arg_repo := []; arg_seed := ⟪"kanban/issues_seed.csv"⟫;
     arg_project := ⟪"BaleSupply"⟫; arg_limit := 0; arg_dry_run := false |}.

(** The rows [gh] accepts: the checks do not look at the issues, so
    creating some never changes which rows are accepted. *)
Definition accepted (s : gh_state) (a : args) (repo : ustr) (r : seed_row) : Prop :=
  reject_reason s repo (issue_of_row a r) = None.

(** A row labelled "Bug", capitalised. *)
Definition row_Bug : seed_row :=
  {| row_title := Some ⟪"Login roto"⟫; row_body := Some ⟪"El login falla"⟫;
     row_labels := Some ⟪"Bug"⟫; row_milestone := None |}.

(** A repository with the labels GitHub gives a new repository. *)
Definition sim_defaults : gh_state :=
  {| repo_name := ⟪"owner/repo"⟫;
     repo_labels := [⟪"bug"⟫; ⟪"documentation"⟫; ⟪"duplicate"⟫; ⟪"enhancement"⟫;
                     ⟪"good first issue"⟫; ⟪"help wanted"⟫; ⟪"invalid"⟫; ⟪"question"⟫;
                     ⟪"wontfix"⟫];
     repo_milestones := []; repo_projects := [⟪"BaleSupply"⟫];
     issues := [] |}.

(** A [Forall] over a closed list, each element by evaluation. *)
Ltac forall_vm :=
  repeat (apply List.Forall_cons; [vm_compute; reflexivity|]); apply List.Forall_nil.

Ltac lit_fact := vm_compute; first [reflexivity | let H := fresh in intros H; discriminate H].

(** ** Lemmas *)

Lemma parse_flags_flatten ps : parse_flags (flatten_pairs ps) = Some ps.
Proof. induction ps as [|[f v] ps IH]; simpl; [done|]. by rewrite IH. Qed.

Lemma flatten_pairs_app ps qs :
  flatten_pairs (ps ++ qs) = flatten_pairs ps ++ flatten_pairs qs.
Proof. induction ps as [|[f v] ps IH]; simpl; [done|]. by rewrite IH. Qed.

Lemma lit_comma : ⟪","⟫ = [Labels.comma].
Proof. vm_compute. reflexivity. Qed.

Lemma primary_labels_not_nil raw : Kind.primary_labels raw <> [].
Proof.
  destruct (Kind.primary_labels_props raw) as (_ & _ & Hin & _). intros E.
  rewrite E in Hin. by apply not_elem_of_nil in Hin.
Qed.

Lemma issue_cmd_shape a repo r :
  issue_cmd a repo r =
    ⟪"gh"⟫ :: ⟪"issue"⟫ :: ⟪"create"⟫ :: flatten_pairs (issue_pairs a repo r).
Proof.
  unfold issue_cmd, issue_pairs, opt_pair.
  fold (Kind.primary_labels (Some (py_or_empty (row_labels r)))).
  destruct (Kind.primary_labels _) as [|l ls] eqn:E;
    [by apply primary_labels_not_nil in E|].
  destruct (is_empty (strip (py_or_empty (row_milestone r)))),
    (is_empty (strip (arg_project a))); simpl; by rewrite <- ?app_assoc.
Qed.

Lemma labels_comma_free raw :
  Forall (fun p => Labels.comma ∉ p) (Kind.primary_labels raw).
Proof.
  destruct (Kind.primary_labels_props raw) as (_ & Hwf & _).
  eapply Forall_impl; [exact Hwf|]. intros x (_ & _ & H). exact H.
Qed.

(** The issue a row's command line describes. *)
Lemma parse_issue_cmd_body a r :
  let raw := Some (py_or_empty (row_labels r)) in
  let labels0 := Labels.normalize_labels raw in
  let title := strip (py_or_empty (row_title r)) in
  Body.build_body (Kind.kind_from_labels labels0) (strip (py_or_empty (row_body r)))
    (Infer.infer_dfd title (Kind.primary_labels raw))
    (Infer.infer_role title (Kind.primary_labels raw)) =
  i_body (issue_of_row a r).
Proof.
  intros raw labels0 title. unfold issue_of_row, Kind.primary_labels. fold raw labels0 title.
  rewrite Kind.kind_from_labels_eq.
  destruct (Infer.infer_ensure_kind_label title labels0 (Kind.kind_spec labels0))
    as [-> ->].
  by rewrite Body.build_body_render, Infer.infer_dfd_first_match, Infer.infer_role_first_match.
Qed.

Lemma parse_create_issue_cmd a repo r :
  parse_create (issue_cmd a repo r) = Some (repo, issue_of_row a r).
Proof.
  rewrite issue_cmd_shape. unfold parse_create.
  rewrite bool_decide_true by reflexivity.
  rewrite parse_flags_flatten. unfold issue_pairs, opt_pair.
  destruct (is_empty (strip (py_or_empty (row_milestone r)))) eqn:Hm,
    (is_empty (strip (arg_project a))) eqn:Hp; cbn [app]; flag_simpl;
    cbv beta iota; do 2 f_equal; unfold issue_of_row; cbv zeta; rewrite ?Hm, ?Hp;
    (f_equal; [exact (parse_issue_cmd_body a r)|]);
    rewrite lit_comma; (apply split_join; [apply primary_labels_not_nil|apply labels_comma_free]).
Qed.

(** C15: the command line [issue_cmd] builds for a row carries exactly
    the row's abstract issue: parsing its flag/value pairs (with the
    labels split on commas) gives back the repository, the stripped
    title, the body of the abstract kind's template, the final label
    list, and the milestone and project when they are non-empty. *)
Theorem parse_issue_cmd a repo r :
  parse_create (issue_cmd a repo r) = Some (repo, issue_of_row a r).
Proof. intros; apply parse_create_issue_cmd; assumption. Qed.

Lemma issue_cmd_not_view a repo r : issue_cmd a repo r <> repo_view_cmd.
Proof.
  rewrite issue_cmd_shape. intros H.
  apply (f_equal (fun l => nth 1 l [])) in H. cbn [nth] in H. revert H. lit_neq.
Qed.

Lemma enclosed_stripped (p x q : ustr) :
  p <> [] -> starts_nonspace p -> q <> [] -> ends_nonspace q ->
  strip (p ++ x ++ q) = p ++ x ++ q.
Proof.
  intros. apply strip_stripped; [by apply starts_nonspace_app|].
  rewrite app_assoc. by apply ends_nonspace_app.
Qed.

(** [run] strips the newline [gh] ends its error with. *)
Lemma reject_msg_stripped e : strip (reject_msg e ++ [10%Z]) = reject_msg e.
Proof.
  rewrite strip_app_space by (apply Forall_singleton; reflexivity).
  destruct e as [|l|p|m]; cbn [reject_msg].
  - apply strip_stripped; lit_fact.
  - apply enclosed_stripped; lit_fact.
  - apply enclosed_stripped; lit_fact.
  - assert (E : forall A B C : ustr, A ++ m ++ B ++ m ++ C = A ++ (m ++ B ++ m) ++ C)
      by (intros; by rewrite <- !app_assoc).
    rewrite E. apply enclosed_stripped; lit_fact.
Qed.

Lemma reject_msg_not_empty e : is_empty (reject_msg e) = false.
Proof. by destruct e; vm_compute. Qed.

Lemma first_unknown_spec names xs x :
  x ∈ xs -> known_name names x = false ->
  exists l, first_unknown names xs = Some l /\ known_name names l = false.
Proof.
  induction xs as [|y xs IH]; [by intros ?%not_elem_of_nil|].
  intros [-> | Hx]%elem_of_cons Hk; cbn [first_unknown].
  - rewrite Hk. by eexists.
  - destruct (known_name names y) eqn:Hy; [by apply IH|]. by exists y.
Qed.

Lemma first_unknown_head names x xs :
  known_name names x = false -> first_unknown names (x :: xs) = Some x.
Proof. intros Hk. cbn [first_unknown]. by rewrite Hk. Qed.

Lemma sim_exec_issue a repo r s :
  reject_reason s repo (issue_of_row a r) = None ->
  sim_exec (issue_cmd a repo r) s =
    ({| returncode := 0; stdout := ⟪"https://github.com/"⟫ ++ repo; stderr := [] |},
     with_issues s (issues s ++ [issue_of_row a r])).
Proof.
  intros Hacc. unfold sim_exec. rewrite bool_decide_false by apply issue_cmd_not_view.
  by rewrite parse_create_issue_cmd, Hacc.
Qed.

Lemma sim_exec_rejected a repo r s e :
  reject_reason s repo (issue_of_row a r) = Some e ->
  sim_exec (issue_cmd a repo r) s =
    ({| returncode := 1; stdout := []; stderr := reject_msg e ++ [10%Z] |}, s).
Proof.
  intros Hrej. unfold sim_exec. rewrite bool_decide_false by apply issue_cmd_not_view.
  by rewrite parse_create_issue_cmd, Hrej.
Qed.

Lemma with_issues_twice s l l' : with_issues (with_issues s l) l' = with_issues s l'.
Proof. reflexivity. Qed.

Lemma with_issues_self s : with_issues s (issues s ++ []) = s.
Proof. destruct s; unfold with_issues; cbn. by rewrite app_nil_r. Qed.

(** One accepted row: its issue is created and its command logged. *)
Lemma create_row_sim a repo r w :
  arg_dry_run a = false -> accepted (w_tracker w) a repo r ->
  run (issue_cmd a repo r) w =
    (Ok (strip (⟪"https://github.com/"⟫ ++ repo)),
     {| w_tracker := with_issues (w_tracker w) (issues (w_tracker w) ++ [issue_of_row a r]);
        w_log := w_log w ++ [Exec (issue_cmd a repo r) 0] |}).
Proof.
  intros Hd Hacc. pose proof (run_eq (issue_cmd a repo r) w) as Hrun.
  change (tr_exec ?c ?s) with (sim_exec c s) in Hrun.
  rewrite sim_exec_issue in Hrun by exact Hacc. rewrite Hrun. cbn. by rewrite ?app_nil_r.
Qed.

Lemma create_all_sim a rows repo w :
  arg_dry_run a = false -> Forall (accepted (w_tracker w) a repo) rows ->
  create_all a repo rows w =
    (Ok tt, {| w_tracker := with_issues (w_tracker w)
                              (issues (w_tracker w) ++ map (issue_of_row a) rows);
               w_log := w_log w ++ map (fun r => Exec (issue_cmd a repo r) 0) rows |}).
Proof.
  intros Hd. revert w. induction rows as [|r rs IH]; intros w Hacc; cbn [create_all map].
  - destruct w as [s log]. cbn. unfold ret. by rewrite with_issues_self, app_nil_r.
  - apply Forall_cons in Hacc as [Hr Hrs]. rewrite Hd. cbv zeta. unfold bind at 1 2.
    rewrite create_row_sim by done. cbn beta iota. unfold ret at 1. cbn beta iota. rewrite IH by exact Hrs.
    cbn. by rewrite <- !app_assoc.
Qed.

(** The first refused row: the rows before it are created, its command
    fails with status 1 and [gh]'s message on stderr, and no later row
    is tried. *)
Lemma create_all_rejected a ok r rest repo w e :
  arg_dry_run a = false -> Forall (accepted (w_tracker w) a repo) ok ->
  reject_reason (w_tracker w) repo (issue_of_row a r) = Some e ->
  create_all a repo (ok ++ r :: rest) w =
    (SysExit 1%Z,
     {| w_tracker := with_issues (w_tracker w)
                       (issues (w_tracker w) ++ map (issue_of_row a) ok);
        w_log := w_log w ++ map (fun r => Exec (issue_cmd a repo r) 0) ok ++
                   [Exec (issue_cmd a repo r) 1; Stderr (reject_msg e)] |}).
Proof.
  intros Hd. revert w. induction ok as [|o os IH]; intros w Hacc Hrej; cbn [create_all map app].
  - rewrite Hd. pose proof (run_eq (issue_cmd a repo r) w) as Hrun.
    change (tr_exec ?c ?s) with (sim_exec c s) in Hrun.
    rewrite (sim_exec_rejected _ _ _ _ e) in Hrun by exact Hrej. cbn [returncode Z.eqb] in Hrun.
    cbv zeta. unfold bind at 1 2. rewrite Hrun. unfold after, echo. cbn [stdout stderr].
    rewrite reject_msg_stripped, reject_msg_not_empty. destruct w as [s log]. cbn.
    by rewrite with_issues_self.
  - apply Forall_cons in Hacc as [Ho Hos]. rewrite Hd. cbv zeta. unfold bind at 1 2.
    rewrite create_row_sim by done. cbn beta iota. unfold ret at 1. cbn beta iota. rewrite IH by done.
    cbn. by rewrite <- !app_assoc.
Qed.

(** Running the rows a second time creates every issue again: the rows
    are not compared with the issues that exist. *)
Lemma create_all_twice a rows repo w :
  arg_dry_run a = false -> Forall (accepted (w_tracker w) a repo) rows ->
  w_tracker (create_all a repo rows (create_all a repo rows w).2).2 =
    with_issues (w_tracker w) (issues (w_tracker w) ++ map (issue_of_row a) rows ++
                               map (issue_of_row a) rows).
Proof.
  intros Hd Hacc. rewrite (create_all_sim a rows repo w) by done. cbn [snd].
  rewrite create_all_sim by done. cbn. by rewrite ?app_assoc.
Qed.

(** C1: refinement of the whole run: against the simulated tracker, a
    real run with the repository given whose selected rows [gh] accepts
    (their labels, milestone and project exist) creates exactly the
    abstract issues of the selected rows, in file order, logs one
    successful [gh issue create] per row and then the summary line, and
    exits with status 0. *)
Theorem script_creates_issues a fs s all :
  strip (arg_repo a) = repo_name s -> is_empty (repo_name s) = false ->
  TextIO.read_seed_file (fs (arg_seed a)) = SeedRows all -> arg_dry_run a = false ->
  Forall (accepted s a (repo_name s)) (selected a all) ->
  script a fs s =
    (0%Z,
     map (fun r => Exec (issue_cmd a (repo_name s) r) 0) (selected a all) ++
       [Stdout (ok_line (List.length (selected a all)) (repo_name s))],
     with_issues s (issues s ++ map (issue_of_row a) (selected a all))).
Proof.
  intros Hrepo Hne Hfs Hd Hacc. unfold script, main, resolve_repo.
  rewrite Hrepo, Hne. unfold bind at 1, ret at 1. cbn beta iota. rewrite Hfs.
  unfold bind at 1. rewrite create_all_sim by done. reflexivity.
Qed.

(** Witness: the seed file of five rows, two of them without a title,
    creates three issues. *)
Lemma script_creates_issues_witness :
  (strip (arg_repo args_real) = repo_name sim_start /\
   is_empty (repo_name sim_start) = false /\
   TextIO.read_seed_file (seed_fs (arg_seed args_real)) =
     SeedRows [row_blank; row_p1; row_bug; row_blank; row_p1] /\
   arg_dry_run args_real = false /\
   Forall (accepted sim_start args_real (repo_name sim_start))
     (selected args_real [row_blank; row_p1; row_bug; row_blank; row_p1])) /\
  let '(status, _, st) := script args_real seed_fs sim_start in
  status = 0%Z /\ List.map i_title (issues st) =
    [⟪"P1 Crear Solicitud"⟫; ⟪"Fix login bug"⟫; ⟪"P1 Crear Solicitud"⟫].
Proof.
  assert (H1 : strip (arg_repo args_real) = repo_name sim_start)
    by (vm_compute; reflexivity).
  assert (H2 : is_empty (repo_name sim_start) = false) by (vm_compute; reflexivity).
  assert (H3 : Forall (accepted sim_start args_real (repo_name sim_start))
                 (selected args_real [row_blank; row_p1; row_bug; row_blank; row_p1]))
    by (replace (selected args_real [row_blank; row_p1; row_bug; row_blank; row_p1]) with [row_p1; row_bug; row_p1]
          by (vm_compute; reflexivity); forall_vm).
  split; [done|].
  rewrite (script_creates_issues args_real seed_fs sim_start
             [row_blank; row_p1; row_bug; row_blank; row_p1] H1 H2 (seed_fs_rows _) eq_refl H3).
  vm_compute. split; reflexivity.
Defined.

(** The run of C1, for the theorems that run the script again. *)
Lemma script_accepted_eq a fs s all :
  strip (arg_repo a) = repo_name s -> is_empty (repo_name s) = false ->
  TextIO.read_seed_file (fs (arg_seed a)) = SeedRows all -> arg_dry_run a = false ->
  Forall (accepted s a (repo_name s)) (selected a all) ->
  script a fs s =
    (0%Z,
     map (fun r => Exec (issue_cmd a (repo_name s) r) 0) (selected a all) ++
       [Stdout (ok_line (List.length (selected a all)) (repo_name s))],
     with_issues s (issues s ++ map (issue_of_row a) (selected a all))).
Proof.
  intros Hrepo Hne Hfs Hd Hacc. unfold script, main, resolve_repo.
  rewrite Hrepo, Hne. unfold bind at 1, ret at 1. cbn beta iota. rewrite Hfs.
  unfold bind at 1. rewrite create_all_sim by done. reflexivity.
Qed.

(** C25: the script does not look at the issues the repository already
    has: run a second time with the same seed file, it succeeds again
    with the same output and creates every issue a second time. *)
Theorem script_rerun_duplicates a fs s all :
  strip (arg_repo a) = repo_name s -> is_empty (repo_name s) = false ->
  TextIO.read_seed_file (fs (arg_seed a)) = SeedRows all -> arg_dry_run a = false ->
  Forall (accepted s a (repo_name s)) (selected a all) ->
  let '(status1, log1, s1) := script a fs s in
  let '(status2, log2, s2) := script a fs s1 in
  status2 = 0%Z /\ log2 = log1 /\
  issues s2 = issues s ++ map (issue_of_row a) (selected a all) ++
              map (issue_of_row a) (selected a all).
Proof.
  intros Hrepo Hne Hfs Hd Hacc. rewrite (script_accepted_eq a fs s all) by done.
  rewrite (script_accepted_eq a fs _ all) by done. cbn. by rewrite app_assoc.
Qed.

(** Witness: run twice on the seed file, the three titled rows give six
    issues. *)
Lemma script_rerun_duplicates_witness :
  (strip (arg_repo args_real) = repo_name sim_start /\
   is_empty (repo_name sim_start) = false /\
   TextIO.read_seed_file (seed_fs (arg_seed args_real)) =
     SeedRows [row_blank; row_p1; row_bug; row_blank; row_p1] /\
   arg_dry_run args_real = false /\
   Forall (accepted sim_start args_real (repo_name sim_start))
     (selected args_real [row_blank; row_p1; row_bug; row_blank; row_p1])) /\
  List.length (issues (script args_real seed_fs (script args_real seed_fs sim_start).2).2) = 6.
Proof.
  assert (H1 : strip (arg_repo args_real) = repo_name sim_start)
    by (vm_compute; reflexivity).
  assert (H2 : is_empty (repo_name sim_start) = false) by (vm_compute; reflexivity).
  assert (H3 : Forall (accepted sim_start args_real (repo_name sim_start))
                 (selected args_real [row_blank; row_p1; row_bug; row_blank; row_p1]))
    by (replace (selected args_real [row_blank; row_p1; row_bug; row_blank; row_p1])
          with [row_p1; row_bug; row_p1] by (vm_compute; reflexivity); forall_vm).
  split; [done|].
  pose proof (script_rerun_duplicates args_real seed_fs sim_start
                [row_blank; row_p1; row_bug; row_blank; row_p1] H1 H2 (seed_fs_rows _) eq_refl H3)
    as H.
  destruct (@script github_sim args_real seed_fs sim_start) as [[st1 l1] s1]. cbv beta iota in H.
  cbn [snd]. destruct (@script github_sim args_real seed_fs s1) as [[st2 l2] s2]. cbv beta iota in H.
  cbn [snd]. destruct H as (_ & _ & ->). vm_compute. reflexivity.
Defined.

(** C23: with a blank [--repo] the repository is asked of [gh repo view]:
    its answer, a name followed by a newline, is stripped by [run], and
    the run then creates exactly the abstract issues of the selected
    rows in that repository, after logging the lookup, and exits 0,
    when [gh] accepts those rows. *)
Theorem script_looks_up_repo a fs s all :
  is_empty (strip (arg_repo a)) = true -> strip (repo_name s) = repo_name s ->
  TextIO.read_seed_file (fs (arg_seed a)) = SeedRows all -> arg_dry_run a = false ->
  Forall (accepted s a (repo_name s)) (selected a all) ->
  script a fs s =
    (0%Z,
     Exec repo_view_cmd 0 ::
       map (fun r => Exec (issue_cmd a (repo_name s) r) 0) (selected a all) ++
       [Stdout (ok_line (List.length (selected a all)) (repo_name s))],
     with_issues s (issues s ++ map (issue_of_row a) (selected a all))).
Proof.
  intros Hblank Hname Hfs Hd Hacc. unfold script, main, resolve_repo. rewrite Hblank.
  unfold gh_repo_from_cwd. fold repo_view_cmd.
  pose proof (run_eq repo_view_cmd {| w_tracker := s; w_log := [] |}) as Hrun.
  change (tr_exec ?c ?st) with (sim_exec c st) in Hrun.
  unfold sim_exec at 1 in Hrun. rewrite bool_decide_true in Hrun by reflexivity.
  cbn [returncode stdout w_tracker Z.eqb] in Hrun.
  unfold bind at 1. rewrite Hrun. cbn beta iota.
  rewrite strip_app_space, Hname by (apply Forall_singleton; reflexivity). rewrite Hfs.
  unfold bind at 1. rewrite create_all_sim by done. reflexivity.
Qed.

(** Witness: with a blank [--repo] the simulated tracker answers
    "owner/repo" and the three titled rows become issues there. *)
Lemma script_looks_up_repo_witness :
  (is_empty (strip (arg_repo args_lookup)) = true /\
   strip (repo_name sim_start) = repo_name sim_start /\
   TextIO.read_seed_file (seed_fs (arg_seed args_lookup)) =
     SeedRows [row_blank; row_p1; row_bug; row_blank; row_p1] /\
   arg_dry_run args_lookup = false /\
   Forall (accepted sim_start args_lookup (repo_name sim_start))
     (selected args_lookup [row_blank; row_p1; row_bug; row_blank; row_p1])) /\
  let '(status, log, st) := script args_lookup seed_fs sim_start in
  status = 0%Z /\ List.length log = 5 /\ List.length (issues st) = 3.
Proof.
  assert (H1 : is_empty (strip (arg_repo args_lookup)) = true) by reflexivity.
  assert (H2 : strip (repo_name sim_start) = repo_name sim_start)
    by (vm_compute; reflexivity).
  assert (H3 : Forall (accepted sim_start args_lookup (repo_name sim_start))
                 (selected args_lookup [row_blank; row_p1; row_bug; row_blank; row_p1]))
    by (replace (selected args_lookup [row_blank; row_p1; row_bug; row_blank; row_p1]) with [row_p1; row_bug; row_p1]
          by (vm_compute; reflexivity); forall_vm).
  split; [done|].
  rewrite (script_looks_up_repo args_lookup seed_fs sim_start
             [row_blank; row_p1; row_bug; row_blank; row_p1] H1 H2 (seed_fs_rows _) eq_refl H3).
  vm_compute. split; [reflexivity|split; reflexivity].
Defined.

(** C24: a real run stops at the first row [gh] refuses (a repository
    it does not know, a label, project or milestone the repository does
    not have): the issues of the rows before it are created and stay
    created, its command fails and [gh]'s message is echoed on stderr,
    no later row is tried, no summary is printed, and the status is 1. *)
Theorem script_first_rejected a fs s all ok r rest e :
  is_empty (strip (arg_repo a)) = false ->
  TextIO.read_seed_file (fs (arg_seed a)) = SeedRows all -> arg_dry_run a = false ->
  selected a all = ok ++ r :: rest ->
  Forall (accepted s a (strip (arg_repo a))) ok ->
  reject_reason s (strip (arg_repo a)) (issue_of_row a r) = Some e ->
  script a fs s =
    (1%Z,
     map (fun r => Exec (issue_cmd a (strip (arg_repo a)) r) 0) ok ++
       [Exec (issue_cmd a (strip (arg_repo a)) r) 1; Stderr (reject_msg e)],
     with_issues s (issues s ++ map (issue_of_row a) ok)).
Proof.
  intros Hrepo Hfs Hd Hsel Hacc Hrej. unfold script, main, resolve_repo. rewrite Hrepo.
  unfold bind at 1, ret at 1. cbn beta iota. rewrite Hfs, Hsel.
  unfold bind at 1. by rewrite (create_all_rejected _ _ _ _ _ _ e).
Qed.

(** Witness: in a repository without the label "vendor" (and with
    "Bug" and "Feature" capitalised), the first titled row is created
    and the bug row, labelled bug,vendor, is refused. *)
Lemma script_first_rejected_witness :
  (is_empty (strip (arg_repo args_real)) = false /\
   selected args_real [row_blank; row_p1; row_bug; row_blank; row_p1] =
     [row_p1] ++ row_bug :: [row_p1] /\
   Forall (accepted sim_no_vendor args_real (strip (arg_repo args_real))) [row_p1] /\
   reject_reason sim_no_vendor (strip (arg_repo args_real)) (issue_of_row args_real row_bug) =
     Some (NoLabel ⟪"vendor"⟫)) /\
  let '(status, log, st) := script args_real seed_fs sim_no_vendor in
  status = 1%Z /\ List.length log = 3 /\ List.map i_title (issues st) = [⟪"P1 Crear Solicitud"⟫].
Proof.
  assert (H1 : is_empty (strip (arg_repo args_real)) = false) by (vm_compute; reflexivity).
  assert (H2 : selected args_real [row_blank; row_p1; row_bug; row_blank; row_p1] =
                 [row_p1] ++ row_bug :: [row_p1]) by (vm_compute; reflexivity).
  assert (H3 : Forall (accepted sim_no_vendor args_real (strip (arg_repo args_real))) [row_p1])
    by forall_vm.
  assert (H4 : reject_reason sim_no_vendor (strip (arg_repo args_real))
                 (issue_of_row args_real row_bug) = Some (NoLabel ⟪"vendor"⟫))
    by (vm_compute; reflexivity).
  split; [done|].
  rewrite (script_first_rejected args_real seed_fs sim_no_vendor
             [row_blank; row_p1; row_bug; row_blank; row_p1] [row_p1] row_bug [row_p1]
             (NoLabel ⟪"vendor"⟫) H1 (seed_fs_rows _) eq_refl H2 H3 H4).
  vm_compute. split; [reflexivity|split; reflexivity].
Defined.

(** C22: the script never creates labels, and it gives every issue its
    kind's label (bug, db, docs or feature): in a repository without the
    label of a row's kind, [gh] refuses the row, for a label of the row
    it does not know; when the row did not carry the kind label itself,
    the refused label is the kind's.  With C24, a real run against such
    a repository stops at the first row of that kind. *)
Theorem kind_label_required a s r :
  let labels := Labels.normalize_labels (Some (py_or_empty (row_labels r))) in
  let kind := Kind.kind_from_labels labels in
  known_name (repo_labels s) kind = false ->
  (exists l, reject_reason s (repo_name s) (issue_of_row a r) = Some (NoLabel l) /\
             known_name (repo_labels s) l = false) /\
  (kind ∉ labels -> reject_reason s (repo_name s) (issue_of_row a r) = Some (NoLabel kind)).
Proof.
  intros labels kind Hk.
  destruct (Kind.primary_labels_props (Some (py_or_empty (row_labels r))))
    as (_ & _ & Hin & _ & Hhead).
  unfold reject_reason. rewrite bool_decide_true by done. cbn [negb].
  change (i_labels (issue_of_row a r))
    with (Kind.primary_labels (Some (py_or_empty (row_labels r)))). split.
  - destruct (first_unknown_spec _ _ _ Hin Hk) as (l & -> & Hl). by exists l.
  - intros Hnot. specialize (Hhead Hnot).
    destruct (Kind.primary_labels _) as [|x xs]; [done|].
    injection Hhead as ->. by rewrite first_unknown_head.
Qed.

(** Witness: in a new repository, with GitHub's default labels, the
    first row of the seed file, a feature without labels, is refused
    for the label "feature". *)
Lemma kind_label_required_witness :
  known_name (repo_labels sim_defaults)
    (Kind.kind_from_labels (Labels.normalize_labels (Some (py_or_empty (row_labels row_p1)))))
    = false /\
  reject_reason sim_defaults (repo_name sim_defaults) (issue_of_row args_real row_p1) =
    Some (NoLabel ⟪"feature"⟫).
Proof.
  assert (H : known_name (repo_labels sim_defaults)
                (Kind.kind_from_labels (Labels.normalize_labels
                   (Some (py_or_empty (row_labels row_p1))))) = false)
    by (vm_compute; reflexivity).
  split; [exact H|].
  rewrite (proj2 (kind_label_required args_real sim_defaults row_p1 H))
    by (vm_compute; intros Hx; apply not_elem_of_nil in Hx; exact Hx).
  vm_compute. reflexivity.
Defined.

(** The script tests the kind labels with their case ("bug" in labs),
    [gh] resolves label names ignoring case: a row labelled "Bug" is
    classified as a feature, gets the feature template and the labels
    feature and Bug, and [gh] accepts it in a repository with the label
    "bug", so the issue carries both the bug and the feature labels. *)
Example bug_label_case :
  Kind.kind_from_labels (Labels.normalize_labels (Some ⟪"Bug"⟫)) = ⟪"feature"⟫ /\
  i_labels (issue_of_row args_real row_Bug) = [⟪"feature"⟫; ⟪"Bug"⟫] /\
  reject_reason sim_start ⟪"owner/repo"⟫ (issue_of_row args_real row_Bug) = None.
Proof. split; [|split]; vm_compute; reflexivity. Qed.

End GitHubSim.
